(** * NewsAgg-Mini: the classification and dedup-persistence pipeline

    A shallow embedding of [main.py]: the [Article] and [Topic] models, the
    keyword matcher, the classifier, the RSS entry extraction and the JSON
    article store, followed by the properties of the specification.

    Conventions of the model.
    - A Python [str] is a [string]; its characters are the code points below
      256, which covers ASCII and Latin-1 text.  [len], slicing, [in],
      [lower] and the comparison of strings are those of Python on such text.
    - [hashlib.md5], [str.encode] and [datetime.isoformat] are library code;
      they are written out below so that fingerprints and time stamps compute.
    - A Python exception is a value of [exn]; code that may raise returns a
      [result].
    - The files of the data directory are a map from paths to contents; the
      content of a file is what [json.load] makes of it.  Writing a file
      succeeds.
    - The loggers are modelled where the code recovers from a failure: the
      methods of [RSSFetcher] and [Storage] return the records they log.

    The file has three parts: the embedding of the code, the vocabulary of
    the statements, and the properties with their proofs. *)

From Stdlib Require Import ZArith Ascii String List Lia.
From Stdlib Require OrderedTypeEx.
From stdpp Require Import gmap strings list functions sorting.

(** ** Python strings *)

Module Str.

Local Open Scope Z_scope.

Definition ord (c : ascii) : Z := Z.of_N (N_of_ascii c).
Definition chr (z : Z) : ascii := ascii_of_N (Z.to_N z).

(** The string of the given code points. *)
Fixpoint of_codes (zs : list Z) : string :=
  match zs with
  | [] => EmptyString
  | z :: zs' => String (chr z) (of_codes zs')
  end.

(** [s[:n]] *)
Fixpoint take (n : nat) (s : string) : string :=
  match n, s with
  | S n', String c s' => String c (take n' s')
  | _, _ => EmptyString
  end.

(** [str.lower] on one code point below 256: the upper-case letters are
    A..Z and U+00C0..U+00DE without the multiplication sign U+00D7. *)
Definition lower_char (c : ascii) : ascii :=
  let z := ord c in
  if ((65 <=? z) && (z <=? 90)) || ((192 <=? z) && (z <=? 222) && negb (z =? 215))
  then chr (z + 32) else c.

Fixpoint lower (s : string) : string :=
  match s with
  | EmptyString => EmptyString
  | String c s' => String (lower_char c) (lower s')
  end.

(** [s.startswith(p)] *)
Fixpoint startswith (p s : string) : bool :=
  match p, s with
  | EmptyString, _ => true
  | String a p', String b s' => if Ascii.eqb a b then startswith p' s' else false
  | String _ _, EmptyString => false
  end.

(** [needle in hay] *)
Fixpoint contains (needle hay : string) : bool :=
  startswith needle hay ||
  match hay with
  | EmptyString => false
  | String _ hay' => contains needle hay'
  end.

(** [a or b] on strings: the empty string is falsy. *)
Definition or_else (a b : string) : string :=
  match a with EmptyString => b | _ => a end.

(** [x or d] where [x] may be [None]. *)
Definition opt_or (x : option string) (d : string) : string :=
  match x with Some s => or_else s d | None => d end.

(** [s.encode()]: UTF-8, two bytes for the code points from 128 on. *)
Fixpoint encode (s : string) : list Z :=
  match s with
  | EmptyString => []
  | String c s' =>
      let z := ord c in
      if z <? 128 then z :: encode s'
      else Z.lor 192 (Z.shiftr z 6) :: Z.lor 128 (Z.land z 63) :: encode s'
  end.

(** Decimal numeral of [z >= 0], padded with zeros to [width] digits. *)
Fixpoint digits (fuel : nat) (z : Z) (acc : string) : string :=
  match fuel with
  | O => acc
  | S f =>
      let acc' := String (chr (48 + z mod 10)) acc in
      if z <? 10 then acc' else digits f (z / 10) acc'
  end.

Definition of_Z (z : Z) : string := digits (Z.to_nat z + 1) z EmptyString.

Fixpoint zeros (n : nat) : string :=
  match n with O => EmptyString | S n' => String "0" (zeros n') end.

Definition zfill (width : nat) (z : Z) : string :=
  let d := of_Z z in (zeros (width - String.length d) +:+ d).

End Str.

(** ** [hashlib.md5] (RFC 1321) on 32-bit words held in [Z] *)

Module MD5.

Local Open Scope Z_scope.

Definition mask32 : Z := 0xFFFFFFFF.
Definition add32 (a b : Z) : Z := Z.land (a + b) mask32.
Definition not32 (a : Z) : Z := Z.lxor a mask32.
Definition rotl32 (x c : Z) : Z :=
  Z.land (Z.lor (Z.shiftl x c) (Z.shiftr x (32 - c))) mask32.

Definition K : list Z :=
  [ 0xd76aa478; 0xe8c7b756; 0x242070db; 0xc1bdceee;
    0xf57c0faf; 0x4787c62a; 0xa8304613; 0xfd469501;
    0x698098d8; 0x8b44f7af; 0xffff5bb1; 0x895cd7be;
    0x6b901122; 0xfd987193; 0xa679438e; 0x49b40821;
    0xf61e2562; 0xc040b340; 0x265e5a51; 0xe9b6c7aa;
    0xd62f105d; 0x02441453; 0xd8a1e681; 0xe7d3fbc8;
    0x21e1cde6; 0xc33707d6; 0xf4d50d87; 0x455a14ed;
    0xa9e3e905; 0xfcefa3f8; 0x676f02d9; 0x8d2a4c8a;
    0xfffa3942; 0x8771f681; 0x6d9d6122; 0xfde5380c;
    0xa4beea44; 0x4bdecfa9; 0xf6bb4b60; 0xbebfbc70;
    0x289b7ec6; 0xeaa127fa; 0xd4ef3085; 0x04881d05;
    0xd9d4d039; 0xe6db99e5; 0x1fa27cf8; 0xc4ac5665;
    0xf4292244; 0x432aff97; 0xab9423a7; 0xfc93a039;
    0x655b59c3; 0x8f0ccc92; 0xffeff47d; 0x85845dd1;
    0x6fa87e4f; 0xfe2ce6e0; 0xa3014314; 0x4e0811a1;
    0xf7537e82; 0xbd3af235; 0x2ad7d2bb; 0xeb86d391 ].

Definition shifts : list Z :=
  [ 7; 12; 17; 22; 7; 12; 17; 22; 7; 12; 17; 22; 7; 12; 17; 22;
    5; 9; 14; 20; 5; 9; 14; 20; 5; 9; 14; 20; 5; 9; 14; 20;
    4; 11; 16; 23; 4; 11; 16; 23; 4; 11; 16; 23; 4; 11; 16; 23;
    6; 10; 15; 21; 6; 10; 15; 21; 6; 10; 15; 21; 6; 10; 15; 21 ].

Record state := St { sa : Z; sb : Z; sc : Z; sd : Z }.

Definition init : state :=
  St 0x67452301 0xefcdab89 0x98badcfe 0x10325476.

(** Little-endian bytes of a word, and back. *)
Fixpoint le_bytes (n : nat) (w : Z) : list Z :=
  match n with
  | O => []
  | S n' => Z.land w 255 :: le_bytes n' (Z.shiftr w 8)
  end.

Fixpoint le_word (bs : list Z) : Z :=
  match bs with
  | [] => 0
  | b :: bs' => Z.lor b (Z.shiftl (le_word bs') 8)
  end.

Fixpoint words (n : nat) (bs : list Z) : list Z :=
  match n with
  | O => []
  | S n' => le_word (firstn 4 bs) :: words n' (skipn 4 bs)
  end.

Definition pad (msg : list Z) : list Z :=
  let len := Z.of_nat (length msg) in
  let fill := Z.to_nat ((55 - len) mod 64) in
  msg ++ 128 :: repeat 0 fill ++ le_bytes 8 ((8 * len) mod 2 ^ 64).

Definition round (M : list Z) (i : Z) (s : state) : state :=
  let '(St a b c d) := s in
  let '(f, g) :=
    if i <? 16 then (Z.lor (Z.land b c) (Z.land (not32 b) d), i)
    else if i <? 32 then (Z.lor (Z.land d b) (Z.land (not32 d) c), (5 * i + 1) mod 16)
    else if i <? 48 then (Z.lxor b (Z.lxor c d), (3 * i + 5) mod 16)
    else (Z.lxor c (Z.lor b (not32 d)), (7 * i) mod 16) in
  let n := Z.to_nat i in
  let f' := add32 (add32 (add32 f a) (nth n K 0)) (nth (Z.to_nat g) M 0) in
  St d (add32 b (rotl32 f' (nth n shifts 0))) b c.

Definition block (s : state) (bs : list Z) : state :=
  let M := words 16 bs in
  let s' := fold_left (fun acc i => round M (Z.of_nat i) acc) (seq 0 64) s in
  St (add32 (sa s) (sa s')) (add32 (sb s) (sb s'))
     (add32 (sc s) (sc s')) (add32 (sd s) (sd s')).

Fixpoint blocks (n : nat) (s : state) (bs : list Z) : state :=
  match n with
  | O => s
  | S n' => blocks n' (block s (firstn 64 bs)) (skipn 64 bs)
  end.

Definition digest (msg : list Z) : list Z :=
  let p := pad msg in
  let s := blocks (length p / 64)%nat init p in
  le_bytes 4 (sa s) ++ le_bytes 4 (sb s) ++ le_bytes 4 (sc s) ++ le_bytes 4 (sd s).

Definition hex_digit (z : Z) : ascii :=
  if z <? 10 then Str.chr (48 + z) else Str.chr (87 + z).

Fixpoint hex (bs : list Z) : string :=
  match bs with
  | [] => EmptyString
  | b :: bs' => String (hex_digit (Z.shiftr b 4)) (String (hex_digit (Z.land b 15)) (hex bs'))
  end.

(** [hashlib.md5(msg).hexdigest()] *)
Definition hexdigest (msg : list Z) : string := hex (digest msg).

End MD5.

(** ** Exceptions and results *)

Inductive exn : Type :=
| KeyError (key : string)
| ValueError (msg : string)
| OSError (msg : string).

(** [str(e)], as it appears in a formatted log message. *)
Definition exn_str (e : exn) : string :=
  match e with
  | KeyError key => "'" +:+ key +:+ "'"
  | ValueError msg => msg
  | OSError msg => msg
  end.

Inductive result (A : Type) : Type :=
| Ok (a : A)
| Raise (e : exn).
Arguments Ok {A} a.
Arguments Raise {A} e.

#[global] Instance result_ret : MRet result := fun A a => Ok a.

#[global] Instance result_bind : MBind result := fun A B k r =>
  match r with
  | Ok a => k a
  | Raise e => Raise e
  end.

(** [d[key]] on an optional entry of a dictionary. *)
Definition getitem {A : Type} (key : string) (v : option A) : result A :=
  match v with
  | Some a => Ok a
  | None => Raise (KeyError key)
  end.

(** ** Logging: the records a [logging.Logger] receives, oldest first *)

Inductive level : Type := INFO | WARNING | ERROR.

Record LogRecord : Type := Log { log_level : level; log_msg : string }.

(** ** [datetime] in UTC *)

Module datetime.

Local Open Scope Z_scope.

Record t : Type := mk {
  year : Z; month : Z; day : Z;
  hour : Z; minute : Z; second : Z; microsecond : Z
}.

Definition is_leap (y : Z) : bool :=
  (y mod 4 =? 0) && (negb (y mod 100 =? 0) || (y mod 400 =? 0)).

Definition days_in_month (y m : Z) : Z :=
  if m =? 2 then (if is_leap y then 29 else 28)
  else if (m =? 4) || (m =? 6) || (m =? 9) || (m =? 11) then 30
  else 31.

(** [datetime(y, mo, d, h, mi, s, tzinfo=timezone.utc)]; the messages are
    those of CPython 3.12. *)
Definition make (y mo d h mi s : Z) : result t :=
  if negb ((1 <=? y) && (y <=? 9999)) then
    Raise (ValueError ("year " +:+ Str.of_Z y +:+ " is out of range"))
  else if negb ((1 <=? mo) && (mo <=? 12)) then
    Raise (ValueError "month must be in 1..12")
  else if negb ((1 <=? d) && (d <=? days_in_month y mo)) then
    Raise (ValueError "day is out of range for month")
  else if negb ((0 <=? h) && (h <=? 23)) then
    Raise (ValueError "hour must be in 0..23")
  else if negb ((0 <=? mi) && (mi <=? 59)) then
    Raise (ValueError "minute must be in 0..59")
  else if negb ((0 <=? s) && (s <=? 59)) then
    Raise (ValueError "second must be in 0..59")
  else Ok (mk y mo d h mi s 0).

(** [dt.isoformat()] of an aware UTC value. *)
Definition isoformat (dt : t) : string :=
  Str.zfill 4 (year dt) +:+ "-" +:+ Str.zfill 2 (month dt) +:+ "-" +:+
  Str.zfill 2 (day dt) +:+ "T" +:+ Str.zfill 2 (hour dt) +:+ ":" +:+
  Str.zfill 2 (minute dt) +:+ ":" +:+ Str.zfill 2 (second dt) +:+
  (if microsecond dt =? 0 then EmptyString
   else "." +:+ Str.zfill 6 (microsecond dt)) +:+ "+00:00".

End datetime.

(** ** Data models *)

(** The dictionary of [to_dict] / [from_dict], which is also one record of
    the JSON file: each key is present or absent. *)
Record ArticleDict : Type := mkDict {
  d_id : option string;
  d_title : option string;
  d_url : option string;
  d_source : option string;
  d_summary : option string;
  d_published : option string;
  d_topics : option (list string)
}.

Module Article.

Record t : Type := mk {
  id : string;
  title : string;
  url : string;
  source : string;
  summary : string;
  published : string;
  topics : list string
}.

(** The fingerprint computed at the end of [__init__]. *)
Definition fingerprint (source url title : string) : string :=
  let content := source +:+ "|" +:+ url +:+ "|" +:+ title in
  Str.take 12 (MD5.hexdigest (Str.encode content)).

(** [Article.__init__]; [now] is the reading of the clock,
    [datetime.now(timezone.utc)]. *)
Definition init (now : datetime.t) (title url source : string)
    (summary published : option string) : t :=
  {| title := title;
     url := url;
     source := source;
     summary := Str.opt_or summary EmptyString;
     published := Str.opt_or published (datetime.isoformat now);
     topics := [];
     id := fingerprint source url title |}.

Definition to_dict (self : t) : ArticleDict :=
  {| d_id := Some (id self);
     d_title := Some (title self);
     d_url := Some (url self);
     d_source := Some (source self);
     d_summary := Some (summary self);
     d_published := Some (published self);
     d_topics := Some (topics self) |}.

Definition set_id (v : string) (a : t) : t :=
  mk v (title a) (url a) (source a) (summary a) (published a) (topics a).

Definition set_topics (v : list string) (a : t) : t :=
  mk (id a) (title a) (url a) (source a) (summary a) (published a) v.

Definition from_dict (now : datetime.t) (data : ArticleDict) : result t :=
  title ← getitem "title" (d_title data);
  url ← getitem "url" (d_url data);
  source ← getitem "source" (d_source data);
  let art := init now title url source (d_summary data) (d_published data) in
  let art := set_id (default (id art) (d_id data)) art in
  let art := set_topics (default [] (d_topics data)) art in
  Ok art.

End Article.

Module Topic.

Record t : Type := mk {
  name : string;
  keywords : list string;
  exclude_words : list string
}.

(** [Topic.__init__] *)
Definition init (name : string) (keywords : list string)
    (exclude_words : option (list string)) : t :=
  {| name := name;
     keywords := map Str.lower keywords;
     exclude_words := map Str.lower (default [] exclude_words) |}.

Definition matches (self : t) (text : string) : bool :=
  let text_lower := Str.lower text in
  if existsb (fun word => Str.contains word text_lower) (exclude_words self)
  then false
  else existsb (fun keyword => Str.contains keyword text_lower) (keywords self).

End Topic.

(** ** RSS fetcher *)

(** [time.struct_time]: the six leading fields, which [published_parsed[:6]]
    selects. *)
Record struct_time : Type := mkTime {
  tm_year : Z; tm_mon : Z; tm_mday : Z; tm_hour : Z; tm_min : Z; tm_sec : Z
}.

(** One entry of a parsed feed: each key is present or absent. *)
Record Entry : Type := mkEntry {
  e_title : option string;
  e_link : option string;
  e_id : option string;
  e_summary : option string;
  e_description : option string;
  e_published_parsed : option struct_time
}.

Module RSSFetcher.

(** The body of the [try] inside the loop of [fetch]: one entry becomes one
    [Article], or the construction of the date raises. *)
Definition extract (now : datetime.t) (source_name : string) (entry : Entry)
    : result Article.t :=
  let title := default "No Title" (e_title entry) in
  let url := default (default EmptyString (e_id entry)) (e_link entry) in
  let summary :=
    Str.take 500
      (Str.opt_or (e_summary entry) (Str.opt_or (e_description entry) EmptyString)) in
  published ←
    match e_published_parsed entry with
    | Some tm =>
        dt ← datetime.make (tm_year tm) (tm_mon tm) (tm_mday tm)
               (tm_hour tm) (tm_min tm) (tm_sec tm);
        mret (Some (datetime.isoformat dt))
    | None => mret None
    end;
  mret (Article.init now title url source_name (Some summary) published).

(** The loop over the entries; [i] counts them and [clock i] is the clock
    while entry [i] is handled. *)
Fixpoint fetch_loop (clock : nat -> datetime.t) (source_name : string)
    (entries : list Entry) (i : nat)
    (articles : list Article.t) (log : list LogRecord)
    : list Article.t * list LogRecord :=
  match entries with
  | [] => (articles, log)
  | entry :: rest =>
      match extract (clock i) source_name entry with
      | Ok article =>
          fetch_loop clock source_name rest (S i) (articles ++ [article]) log
      | Raise e =>
          fetch_loop clock source_name rest (S i) articles
            (log ++ [Log WARNING ("Skipping article due to error: " +:+ exn_str e)])
      end
  end.

Section fetch.
(** The two library calls of [fetch]: [urlparse(feed_url).netloc] and
    [feedparser.parse(feed_url).entries]. *)
Variable netloc : string -> string.
Variable parse : string -> result (list Entry).
Variable clock : nat -> datetime.t.

Definition fetch (feed_url : string) (source_name : option string)
    : list Article.t * list LogRecord :=
  let source_name := Str.opt_or source_name (netloc feed_url) in
  let log :=
    [Log INFO ("Fetching RSS: " +:+ source_name +:+ " (" +:+ feed_url +:+ ")")] in
  match parse feed_url with
  | Raise e =>
      ([], log ++ [Log ERROR ("Failed to fetch " +:+ feed_url +:+ ": " +:+ exn_str e)])
  | Ok entries =>
      let '(articles, log) :=
        fetch_loop clock source_name (take 20 entries) 0 [] log in
      (articles,
       log ++ [Log INFO ("Fetched " +:+ Str.of_Z (Z.of_nat (length articles)) +:+
                         " articles from " +:+ source_name)])
  end.
End fetch.

End RSSFetcher.

(** ** Classifier *)

(** Articles are objects: a list of articles holds references, and the heap
    gives the object behind each reference.  [classify] puts one object into
    several buckets and updates it in place. *)
Abbreviation ref := nat (only parsing).
Abbreviation heap := (nat -> Article.t) (only parsing).

Module Classifier.

(** [article.topics.append(name)] *)
Definition append_topic (name : string) (a : Article.t) : Article.t :=
  Article.set_topics (Article.topics a ++ [name]) a.

(** One round of the inner loop, for one topic. *)
Definition visit_topic (search_text : string) (article : ref)
    (st : heap * gmap string (list ref) * bool) (topic : Topic.t)
    : heap * gmap string (list ref) * bool :=
  let '(h, result, matched) := st in
  if Topic.matches topic search_text then
    (<[article := append_topic (Topic.name topic) (h article)]> h,
     alter (fun bucket => bucket ++ [article]) (Topic.name topic) result,
     true)
  else st.

(** One round of the outer loop, for one article. *)
Definition visit_article (topics : list Topic.t)
    (st : heap * gmap string (list ref)) (article : ref)
    : heap * gmap string (list ref) :=
  let '(h, result) := st in
  let search_text := Article.title (h article) +:+ " " +:+ Article.summary (h article) in
  let '(h, result, matched) :=
    foldl (visit_topic search_text article) (h, result, false) topics in
  if matched then (h, result)
  else (h, alter (fun bucket => bucket ++ [article]) "uncategorized" result).

(** [Classifier.classify]; [topics] is [self.topics].  The result is the
    heap after the call and the returned dictionary. *)
Definition classify (topics : list Topic.t) (h : heap) (articles : list ref)
    : heap * gmap string (list ref) :=
  let result : gmap string (list ref) :=
    foldl (fun d topic => <[Topic.name topic := []]> d) ∅ topics in
  let result := <["uncategorized" := []]> result in
  let '(h, result) := foldl (visit_article topics) (h, result) articles in
  (h, filter (fun kv => kv.2 ≠ []) result).

End Classifier.

(** ** Storage *)

(** [list.sort(key=key, reverse=True)]: the stable sort into descending order
    of the keys, the keys being strings compared as Python compares them. *)
Section sort_desc.
Context {A : Type} (key : A -> string).

Fixpoint insert_desc (x : A) (l : list A) : list A :=
  match l with
  | [] => [x]
  | y :: l' =>
      if String.ltb (key x) (key y) then y :: insert_desc x l' else x :: l
  end.

Definition sort_desc (l : list A) : list A := foldr insert_desc [] l.
End sort_desc.

(** What opening and parsing a file of the data directory gives: an
    exception, or the list of records. *)
Inductive File : Type :=
| Unreadable (e : exn)
| Json (data : list ArticleDict).

Module Storage.

Record t : Type := mk { data_dir : string }.

Definition file_path (self : t) (topic : string) : string :=
  data_dir self +:+ "/" +:+ topic +:+ "_articles.json".

(** [[Article.from_dict(d) for d in data]]; [clock i] is the clock while
    record [i] is rebuilt. *)
Fixpoint from_dicts (clock : nat -> datetime.t) (data : list ArticleDict)
    : result (list Article.t) :=
  match data with
  | [] => mret []
  | d :: data' =>
      a ← Article.from_dict (clock O) d;
      l ← from_dicts (fun i => clock (S i)) data';
      mret (a :: l)
  end.

(** The body of the [try] of both methods: [json.load] and the rebuilding. *)
Definition read (clock : nat -> datetime.t) (f : File) : result (list Article.t) :=
  match f with
  | Unreadable e => Raise e
  | Json data => from_dicts clock data
  end.

Definition sort_key (a : Article.t) : string :=
  Str.or_else (Article.published a) EmptyString.

(** [save_articles] when [file_path.exists()] and the writing of the file
    do not raise; [OnDisk.save_articles] below has these two calls. *)
Definition save_articles (self : t) (clock : nat -> datetime.t)
    (fs : gmap string File) (articles : list Article.t) (topic : string)
    : gmap string File * nat * list LogRecord :=
  let path := file_path self topic in
  let '(existing_articles, log) :=
    match fs !! path with
    | None => ([], [])
    | Some f =>
        match read clock f with
        | Ok l => (l, [])
        | Raise e =>
            ([], [Log WARNING ("Could not load existing articles: " +:+ exn_str e)])
        end
    end in
  let existing_ids : gset string := list_to_set (Article.id <$> existing_articles) in
  let new_articles := filter (fun a => Article.id a ∉ existing_ids) articles in
  let all_articles := existing_articles ++ new_articles in
  let all_articles := sort_desc sort_key all_articles in
  let all_articles := take 100 all_articles in
  let fs := <[path := Json (Article.to_dict <$> all_articles)]> fs in
  (fs, length new_articles,
   log ++ [Log INFO ("Saved " +:+ Str.of_Z (Z.of_nat (length new_articles)) +:+
                     " new articles to " +:+ path)]).

(** [load_articles] when [file_path.exists()] does not raise;
    [OnDisk.load_articles] below has this call. *)
Definition load_articles (self : t) (clock : nat -> datetime.t)
    (fs : gmap string File) (topic : string)
    : list Article.t * list LogRecord :=
  let path := file_path self topic in
  match fs !! path with
  | None => ([], [])
  | Some f =>
      match read clock f with
      | Ok l => (l, [])
      | Raise e => ([], [Log ERROR ("Could not load articles: " +:+ exn_str e)])
      end
  end.

End Storage.

(** ** More string methods *)

Module StrMore.

(** [str.isspace] on one code point below 256. *)
Definition is_space (c : ascii) : bool :=
  let z := Str.ord c in
  (((9 <=? z) && (z <=? 13)) || ((28 <=? z) && (z <=? 32))
   || (z =? 133) || (z =? 160))%Z.

(** [s.lstrip()] *)
Fixpoint lstrip (s : string) : string :=
  match s with
  | EmptyString => EmptyString
  | String c s' => if is_space c then lstrip s' else s
  end.

(** [s.rstrip()] *)
Fixpoint rstrip (s : string) : string :=
  match s with
  | EmptyString => EmptyString
  | String c s' =>
      match rstrip s' with
      | EmptyString => if is_space c then EmptyString else String c EmptyString
      | r => String c r
      end
  end.

(** [s.strip()] *)
Definition strip (s : string) : string := rstrip (lstrip s).

(** [s.split(',')]: the pieces between the commas, at least one piece. *)
Fixpoint split_comma (s : string) : list string :=
  match s with
  | EmptyString => [EmptyString]
  | String c s' =>
      if Ascii.eqb c ","%char then EmptyString :: split_comma s'
      else match split_comma s' with
           | piece :: rest => String c piece :: rest
           | [] => [String c EmptyString]
           end
  end.

(** [sep.join(l)] *)
Fixpoint join (sep : string) (l : list string) : string :=
  match l with
  | [] => EmptyString
  | [s] => s
  | s :: l' => s +:+ sep +:+ join sep l'
  end.

(** [l[:n]] for an integer [n]: a negative [n] counts from the end. *)
Definition slice_to {A : Type} (n : Z) (l : list A) : list A :=
  if (0 <=? n)%Z then take (Z.to_nat n) l
  else take (length l - Z.to_nat (- n)) l.

(** The line feed. *)
Definition nl : string := String (Str.chr 10) EmptyString.

(** [str(n)] of a length or an index. *)
Definition of_nat (n : nat) : string := Str.of_Z (Z.of_nat n).

End StrMore.

(** ** Report generator *)

Module ReportGenerator.

Record t : Type := mk { output_dir : string }.

(** The report: the path of the file and the text written to it. *)
Record Report : Type := mkReport { report_path : string; report_text : string }.

(** [now.strftime("%Y%m%d_%H%M%S")] *)
Definition stamp_compact (now : datetime.t) : string :=
  Str.zfill 4 (datetime.year now) +:+ Str.zfill 2 (datetime.month now) +:+
  Str.zfill 2 (datetime.day now) +:+ "_" +:+ Str.zfill 2 (datetime.hour now) +:+
  Str.zfill 2 (datetime.minute now) +:+ Str.zfill 2 (datetime.second now).

(** [now.strftime('%Y-%m-%d %H:%M:%S')] *)
Definition stamp_text (now : datetime.t) : string :=
  Str.zfill 4 (datetime.year now) +:+ "-" +:+ Str.zfill 2 (datetime.month now) +:+
  "-" +:+ Str.zfill 2 (datetime.day now) +:+ " " +:+
  Str.zfill 2 (datetime.hour now) +:+ ":" +:+ Str.zfill 2 (datetime.minute now) +:+
  ":" +:+ Str.zfill 2 (datetime.second now).

Definition sort_key (a : Article.t) : string :=
  Str.or_else (Article.published a) EmptyString.

(** The writes of one round of the inner loop: article number [i]. *)
Definition entry_text (i : nat) (article : Article.t) : string :=
  ("### " +:+ StrMore.of_nat i +:+ ". " +:+ Article.title article +:+ StrMore.nl) +:+
  ("**Source:** " +:+ Article.source article +:+ StrMore.nl) +:+
  ("**Link:** " +:+ Article.url article +:+ StrMore.nl) +:+
  (match Article.published article with
   | EmptyString => EmptyString
   | published => "**Published:** " +:+ Str.take 10 published +:+ StrMore.nl
   end) +:+
  (match Article.summary article with
   | EmptyString => EmptyString
   | summary => StrMore.nl +:+ Str.take 200 summary +:+ "..." +:+ StrMore.nl
   end) +:+
  (StrMore.nl +:+ "---" +:+ StrMore.nl +:+ StrMore.nl).

(** [enumerate(l, 1)] and the inner loop over it. *)
Fixpoint entries_text (i : nat) (l : list Article.t) : string :=
  match l with
  | [] => EmptyString
  | article :: l' => entry_text i article +:+ entries_text (S i) l'
  end.

(** The articles of one topic that the report lists: [articles[:top_n]]
    after the sort. *)
Definition listed (top_n : Z) (articles : list Article.t) : list Article.t :=
  StrMore.slice_to top_n (sort_desc sort_key articles).

Section generate.
(** [str.title], a library method. *)
Variable title_case : string -> string.

(** The writes of one round of the outer loop. *)
Definition section_text (top_n : Z) (topic : string) (articles : list Article.t)
    : string :=
  ("## " +:+ title_case topic +:+ StrMore.nl) +:+
  ("*" +:+ StrMore.of_nat (length articles) +:+ " articles*" +:+ StrMore.nl +:+
   StrMore.nl) +:+
  entries_text 1 (listed top_n articles).

Fixpoint sections_text (top_n : Z) (classified : list (string * list Article.t))
    : string :=
  match classified with
  | [] => EmptyString
  | (topic, articles) :: rest =>
      section_text top_n topic articles +:+ sections_text top_n rest
  end.

(** [ReportGenerator.generate]; [classified] is the dictionary as the list
    of its items, [now1] and [now2] are the two readings of the local clock.
    The result is the report and the dictionary after the call, whose lists
    the method has sorted in place. *)
Definition generate (self : t) (now1 now2 : datetime.t)
    (classified : list (string * list Article.t)) (top_n : Z)
    : Report * list (string * list Article.t) :=
  let timestamp := stamp_compact now1 in
  let report_path := output_dir self +:+ "/news_report_" +:+ timestamp +:+ ".md" in
  let total := sum_list (length <$> classified.*2) in
  let text :=
    ("# News Report" +:+ StrMore.nl) +:+
    ("Generated: " +:+ stamp_text now2 +:+ StrMore.nl +:+ StrMore.nl) +:+
    ("**Total Articles:** " +:+ StrMore.of_nat total +:+ StrMore.nl) +:+
    ("**Topics:** " +:+ StrMore.join ", " classified.*1 +:+ StrMore.nl +:+
     StrMore.nl) +:+
    sections_text top_n classified in
  (mkReport report_path text,
   (fun item => (item.1, sort_desc sort_key item.2)) <$> classified).
End generate.

End ReportGenerator.

(** ** Configuration *)

(** The configuration as YAML gives it: mappings whose keys are present or
    absent. *)
Record FeedConf : Type := mkFeed {
  feed_url : option string;
  feed_name : option string
}.

Record TopicConf : Type := mkTopicConf {
  topic_name : option string;
  topic_keywords : option (list string);
  topic_exclude : option (list string)
}.

Record Config : Type := mkConfig {
  config_feeds : option (list FeedConf);
  config_topics : option (list TopicConf)
}.

Definition default_config : Config :=
  {| config_feeds :=
       Some [mkFeed (Some "https://hnrss.org/frontpage") (Some "Hacker News");
             mkFeed (Some "https://feeds.arstechnica.com/arstechnica/index")
               (Some "Ars Technica")];
     config_topics :=
       Some [mkTopicConf (Some "AI")
               (Some ["ai"; "artificial intelligence"; "machine learning";
                      "gpt"; "llm"; "neural"; "deep learning"])
               (Some []);
             mkTopicConf (Some "Security")
               (Some ["security"; "vulnerability"; "breach"; "hack";
                      "cyber"; "malware"; "ransomware"])
               (Some []);
             mkTopicConf (Some "Programming")
               (Some ["python"; "javascript"; "rust"; "golang"; "java";
                      "programming"; "coding"; "developer"; "github"])
               (Some [])] |}.

(** [load_config]; [read_yaml path] is [None] when no file is at [path],
    and otherwise what opening the file and [yaml.safe_load] give. *)
Definition load_config (read_yaml : string -> option (result Config))
    (config_file : option string) : Config * list LogRecord :=
  match config_file with
  | None | Some EmptyString => (default_config, [])
  | Some path =>
      match read_yaml path with
      | None => (default_config, [])
      | Some (Ok config) => (config, [])
      | Some (Raise e) =>
          (default_config, [Log WARNING ("Could not load config file: " +:+ exn_str e)])
      end
  end.

(** ** The main program *)

Module Main.

(** The parsed command line. *)
Record Args : Type := mkArgs {
  args_config : option string;
  args_topics : option string;
  args_top_n : Z;
  args_log_level : string
}.

(** What the run reads from outside: the configuration file, the feeds, the
    clocks, and [str.title].  [fetch_clock i] is the clock of the fetch of
    feed [i], [save_clock j] the clock of the [j]-th call of
    [save_articles]. *)
Record Env : Type := mkEnv {
  read_yaml : string -> option (result Config);
  netloc : string -> string;
  parse : string -> result (list Entry);
  fetch_clock : nat -> nat -> datetime.t;
  save_clock : nat -> nat -> datetime.t;
  report_now1 : datetime.t;
  report_now2 : datetime.t;
  title_case : string -> string
}.

(** The topics of [--topics]. *)
Definition cli_topics (s : string) : list Topic.t :=
  let topic_names := StrMore.strip <$> StrMore.split_comma s in
  (fun name => Topic.init name [Str.lower name] None) <$> topic_names.

(** The topics of the configuration. *)
Fixpoint conf_topics (l : list TopicConf) : result (list Topic.t) :=
  match l with
  | [] => mret []
  | t :: l' =>
      name ← getitem "name" (topic_name t);
      keywords ← getitem "keywords" (topic_keywords t);
      let topic := Topic.init name keywords (Some (default [] (topic_exclude t))) in
      topics ← conf_topics l';
      mret (topic :: topics)
  end.

(** The loop over the feeds; [i] counts them. *)
Fixpoint fetch_all (env : Env) (feeds : list FeedConf) (i : nat)
    (all_articles : list Article.t) : result (list Article.t) :=
  match feeds with
  | [] => mret all_articles
  | feed :: rest =>
      url ← getitem "url" (feed_url feed);
      let articles :=
        (RSSFetcher.fetch (netloc env) (parse env) (fetch_clock env i) url
           (feed_name feed)).1 in
      fetch_all env rest (S i) (all_articles ++ articles)
  end.

(** The heap in which the articles of the list are the objects at the
    addresses 0, 1, ...; the other addresses hold no object of the run. *)
Definition heap_of (all_articles : list Article.t) : heap :=
  fun r => default (Article.mk EmptyString EmptyString EmptyString EmptyString
                      EmptyString EmptyString []) (all_articles !! r).

(** The keys of the dictionary of [classify] in the order of their
    insertion, which is the order in which a dictionary is iterated. *)
Fixpoint first_occurrences (seen keys : list string) : list string :=
  match keys with
  | [] => []
  | k :: keys' =>
      if decide (k ∈ seen) then first_occurrences seen keys'
      else k :: first_occurrences (k :: seen) keys'
  end.

(** [classified.items()] *)
Definition items (topics : list Topic.t) (result : gmap string (list ref))
    : list (string * list ref) :=
  omap (fun k => pair k <$> result !! k)
    (first_occurrences [] ((Topic.name <$> topics) ++ ["uncategorized"])).

(** The loop that saves the buckets; [j] counts the calls. *)
Fixpoint save_buckets (env : Env) (storage : Storage.t) (h : heap)
    (classified : list (string * list ref)) (j : nat) (fs : gmap string File)
    : gmap string File :=
  match classified with
  | [] => fs
  | (topic, articles) :: rest =>
      if decide (topic ≠ "uncategorized") then
        save_buckets env storage h rest (S j)
          (Storage.save_articles storage (save_clock env j) fs (h <$> articles)
             topic).1.1
      else save_buckets env storage h rest j fs
  end.

(** The topics of the run: those of [--topics] when the option is given
    and not empty, those of the configuration otherwise. *)
Definition make_topics (args : Args) (config : Config) : result (list Topic.t) :=
  match args_topics args with
  | Some (String c s) => Ok (cli_topics (String c s))
  | _ => l ← getitem "topics" (config_topics config); conf_topics l
  end.

(** The part of [main] after the fetches, when articles were fetched:
    classification, the saves and the report. *)
Definition process (env : Env) (args : Args) (topics : list Topic.t)
    (all_articles : list Article.t) (fs : gmap string File)
    : gmap string File * ReportGenerator.Report :=
  let storage := Storage.mk "data" in
  let reporter := ReportGenerator.mk "reports" in
  let refs := seq 0 (length all_articles) in
  let out := Classifier.classify topics (heap_of all_articles) refs in
  let h := out.1 in
  let classified := items topics out.2 in
  let fs := (Storage.save_articles storage (save_clock env 0) fs (h <$> refs)
               "all").1.1 in
  let fs := save_buckets env storage h classified 1 fs in
  let report :=
    (ReportGenerator.generate (title_case env) reporter (report_now1 env)
       (report_now2 env)
       ((fun item : string * list ref => (item.1, h <$> item.2)) <$> classified)
       (args_top_n args)).1 in
  (fs, report).

(** [main]: the exit code, the files of the data directory and the report,
    or the exception that ends the run.  Log records and standard output are
    left out, and so are the calls that can raise [OSError] outside the
    [try] blocks, which [OnDisk.main] below has. *)
Definition main (env : Env) (args : Args) (fs : gmap string File)
    : result (Z * gmap string File * option ReportGenerator.Report) :=
  let config := (load_config (read_yaml env) (args_config args)).1 in
  topics ← make_topics args config;
  feeds ← getitem "feeds" (config_feeds config);
  all_articles ← fetch_all env feeds 0 [];
  match all_articles with
  | [] => Ok (1%Z, fs, None)
  | _ :: _ =>
      let out := process env args topics all_articles fs in
      Ok (0%Z, out.1, Some out.2)
  end.

End Main.

(** ** The calls outside the [try] blocks *)

(** [Path.exists()], [Path.mkdir(exist_ok=True)] and the writing of a file
    opened with [open(path, 'w')] raise [OSError] on some paths: a name too
    long for the file system, a directory that cannot be searched or does
    not exist.  In [load_config], [Storage], [ReportGenerator] and [main]
    these calls stand in no [try], so the exception ends the method and the
    run.  Each field gives the message of the [OSError] that the call raises
    on the path, when it raises. *)
Record OS : Type := mkOS {
  exists_error : string -> option string;
  mkdir_error : string -> option string;
  write_error : string -> option string
}.

(** A call that raises on [path] when [error path] is a message. *)
Definition os_call (error : string -> option string) (path : string) : result unit :=
  match error path with
  | Some msg => Raise (OSError msg)
  | None => Ok tt
  end.

(** The methods with these calls: [Storage.load_articles],
    [Storage.save_articles], [ReportGenerator.generate], [load_config] and
    [main] as the source has them, a call outside the [try] blocks ending
    the method when it raises.  The definitions above give what the methods
    do when these calls answer. *)
Module OnDisk.

(** [Storage.load_articles]: [file_path.exists()] stands before the [try]. *)
Definition load_articles (os : OS) (self : Storage.t) (clock : nat -> datetime.t)
    (fs : gmap string File) (topic : string)
    : result (list Article.t * list LogRecord) :=
  os_call (exists_error os) (Storage.file_path self topic);;
  Ok (Storage.load_articles self clock fs topic).

(** [Storage.save_articles]: [file_path.exists()] stands before the [try],
    and [open(file_path, 'w')] with [json.dump] after it. *)
Definition save_articles (os : OS) (self : Storage.t) (clock : nat -> datetime.t)
    (fs : gmap string File) (articles : list Article.t) (topic : string)
    : result (gmap string File * nat * list LogRecord) :=
  os_call (exists_error os) (Storage.file_path self topic);;
  os_call (write_error os) (Storage.file_path self topic);;
  Ok (Storage.save_articles self clock fs articles topic).

(** [ReportGenerator.generate]: the report is written in no [try]. *)
Definition generate (os : OS) (title_case : string -> string)
    (self : ReportGenerator.t) (now1 now2 : datetime.t)
    (classified : list (string * list Article.t)) (top_n : Z)
    : result (ReportGenerator.Report * list (string * list Article.t)) :=
  let out := ReportGenerator.generate title_case self now1 now2 classified top_n in
  os_call (write_error os) (ReportGenerator.report_path out.1);;
  Ok out.

(** [load_config]: [Path(config_file).exists()] stands before the [try]. *)
Definition load_config (os : OS) (read_yaml : string -> option (result Config))
    (config_file : option string) : result (Config * list LogRecord) :=
  match config_file with
  | None | Some EmptyString => Ok (load_config read_yaml config_file)
  | Some path =>
      os_call (exists_error os) path;;
      Ok (load_config read_yaml config_file)
  end.

(** The loop of [main] that saves the buckets. *)
Fixpoint save_buckets (os : OS) (env : Main.Env) (storage : Storage.t) (h : heap)
    (classified : list (string * list ref)) (j : nat) (fs : gmap string File)
    : result (gmap string File) :=
  match classified with
  | [] => Ok fs
  | (topic, articles) :: rest =>
      if decide (topic ≠ "uncategorized") then
        saved ← save_articles os storage (Main.save_clock env j) fs (h <$> articles)
                  topic;
        save_buckets os env storage h rest (S j) saved.1.1
      else save_buckets os env storage h rest j fs
  end.

(** The part of [main] after the fetches, when articles were fetched. *)
Definition process (os : OS) (env : Main.Env) (args : Main.Args)
    (topics : list Topic.t) (all_articles : list Article.t) (fs : gmap string File)
    : result (gmap string File * ReportGenerator.Report) :=
  let storage := Storage.mk "data" in
  let reporter := ReportGenerator.mk "reports" in
  let refs := seq 0 (length all_articles) in
  let out := Classifier.classify topics (Main.heap_of all_articles) refs in
  let h := out.1 in
  let classified := Main.items topics out.2 in
  saved ← save_articles os storage (Main.save_clock env 0) fs (h <$> refs) "all";
  fs ← save_buckets os env storage h classified 1 saved.1.1;
  report ← generate os (Main.title_case env) reporter (Main.report_now1 env)
             (Main.report_now2 env)
             ((fun item : string * list ref => (item.1, h <$> item.2)) <$> classified)
             (Main.args_top_n args);
  Ok (fs, report.1).

(** [main]: the configuration is loaded, the topics are made, [Storage()]
    and [ReportGenerator()] make their directories, the feeds are fetched,
    and the articles are classified, saved and reported. *)
Definition main (os : OS) (env : Main.Env) (args : Main.Args) (fs : gmap string File)
    : result (Z * gmap string File * option ReportGenerator.Report) :=
  loaded ← load_config os (Main.read_yaml env) (Main.args_config args);
  topics ← Main.make_topics args loaded.1;
  os_call (mkdir_error os) "data";;
  os_call (mkdir_error os) "reports";;
  feeds ← getitem "feeds" (config_feeds loaded.1);
  all_articles ← Main.fetch_all env feeds 0 [];
  match all_articles with
  | [] => Ok (1%Z, fs, None)
  | _ :: _ =>
      out ← process os env args topics all_articles fs;
      Ok (0%Z, out.1, Some out.2)
  end.

End OnDisk.

(** * The vocabulary of the statements *)

(** [needle] occurs in [hay]: some text before it, some text after it. *)
Definition substring_of (needle hay : string) : Prop :=
  ∃ pre post : string, hay = pre +:+ needle +:+ post.

(** The objects the program can hold: [__init__] builds them, and afterwards
    only [id] and [topics] are assigned ([from_dict], [classify]). *)
Inductive constructed : Article.t → Prop :=
| constructed_init now title url source summary published :
    constructed (Article.init now title url source summary published)
| constructed_set_id v a :
    constructed a → constructed (Article.set_id v a)
| constructed_set_topics v a :
    constructed a → constructed (Article.set_topics v a).

(** The text [fetch] takes the summary from, before it is cut. *)
Definition raw_summary (entry : Entry) : string :=
  Str.opt_or (e_summary entry) (Str.opt_or (e_description entry) EmptyString).

(** [s <= t] on strings, as Python compares them. *)
Definition str_le (s t : string) : Prop := String.leb s t = true.

(** [x] may stand before [y] in a list in descending order of the keys. *)
Definition key_ge {A : Type} (key : A → string) (x y : A) : Prop :=
  str_le (key y) (key x).

(** [new_articles]: the articles of the batch whose id is not the id of a
    loaded article. *)
Definition fresh (existing : list Article.t) (articles : list Article.t)
    : list Article.t :=
  filter (fun a => Article.id a ∉ (list_to_set (Article.id <$> existing) : gset string))
    articles.

(** The articles [save_articles] writes: the loaded ones and the new ones,
    sorted and cut to 100. *)
Definition merged (existing articles : list Article.t) : list Article.t :=
  take 100 (sort_desc Storage.sort_key (existing ++ fresh existing articles)).

(** An article stands before another one when its [published] is not
    smaller. *)
Definition newer_first (a b : Article.t) : Prop :=
  str_le (Article.published b) (Article.published a).

(** The file at [path], when it holds records, holds at most 100. *)
Definition capped_at (path : string) (fs : gmap string File) : Prop :=
  ∀ data, fs !! path = Some (Json data) → (length data ≤ 100)%nat.

(** One call of [save_articles] in a sequence of calls. *)
Record SaveCall : Type := mkCall {
  call_clock : nat → datetime.t;
  call_articles : list Article.t;
  call_topic : string
}.

(** The files after a sequence of calls. *)
Definition save_all (self : Storage.t) (calls : list SaveCall)
    (fs : gmap string File) : gmap string File :=
  foldl (fun fs c =>
           (Storage.save_articles self (call_clock c) fs (call_articles c)
              (call_topic c)).1.1)
    fs calls.

(** Article number [i] of a feed that publishes one story per hour. *)
Definition hourly_article (i : nat) : Article.t :=
  Article.init (datetime.mk 2025 1 1 0 0 0 0%Z)
    ("Story " +:+ Str.of_Z (Z.of_nat i))
    ("https://example.org/" +:+ Str.of_Z (Z.of_nat i)) "Feed" None
    (Some (datetime.isoformat
             (datetime.mk 2024 1 (1 + Z.of_nat i / 24) (Z.of_nat i mod 24) 0 0 0%Z))).

(** The text [classify] searches. *)
Definition search_text (a : Article.t) : string :=
  Article.title a +:+ " " +:+ Article.summary a.

(** The topics that match a text, in the order of the topic list. *)
Definition matching (topics : list Topic.t) (text : string) : list Topic.t :=
  filter (fun t => Topic.matches t text = true) topics.

(** How many matching topics have the name [k]. *)
Definition hits (topics : list Topic.t) (text : string) (k : string) : nat :=
  length (filter (fun t => Topic.name t = k) (matching topics text)).

(** The names [classify] appends to the topics of the object [x]: those of
    the matching topics, once for each occurrence of [x] in the list. *)
Definition labels (topics : list Topic.t) (h : heap) (articles : list ref)
    (x : ref) : list string :=
  articles ≫= (fun r => if decide (r = x)
                        then Topic.name <$> matching topics (search_text (h x))
                        else []).

(** What one article adds to the bucket [k]. *)
Definition contribution (topics : list Topic.t) (text : string) (r : ref)
    (k : string) : list ref :=
  replicate (hits topics text k) r
  ++ (if decide (matching topics text = [] ∧ k = "uncategorized") then [r] else []).

(** The bucket [k] after the loop over the articles. *)
Definition bucket (topics : list Topic.t) (h : heap) (articles : list ref)
    (k : string) : list ref :=
  articles ≫= (fun r => contribution topics (search_text (h r)) r k).

(** Three article objects at the addresses 0, 1 and 2 (and beyond). *)
Definition sample_heap (r : ref) : Article.t :=
  let now := datetime.mk 2025 1 1 0 0 0 0%Z in
  match r with
  | O => Article.init now "New LLM released" "https://example.org/llm" "Hacker News"
           (Some "Written in Rust") None
  | S O => Article.init now "Thai food trends" "https://example.org/thai" "Hacker News"
             None None
  | _ => Article.init now "Weather report" "https://example.org/sun" "Hacker News"
           (Some "Sunny") None
  end.

Definition sample_topics : list Topic.t :=
  [Topic.init "AI" ["ai"; "llm"] (Some []);
   Topic.init "Programming" ["python"; "rust"] (Some []);
   Topic.init "Security" ["breach"] None].

(** A record of the file that has the three keys [from_dict] subscripts. *)
Definition has_required_keys (d : ArticleDict) : Prop :=
  is_Some (d_title d) ∧ is_Some (d_url d) ∧ is_Some (d_source d).

(** The record of a log is a warning. *)
Definition is_warning (r : LogRecord) : Prop := log_level r = WARNING.

(** The date of the entry is absent, or [datetime] accepts it. *)
Definition date_ok (entry : Entry) : bool :=
  match e_published_parsed entry with
  | None => true
  | Some tm =>
      match datetime.make (tm_year tm) (tm_mon tm) (tm_mday tm)
              (tm_hour tm) (tm_min tm) (tm_sec tm) with
      | Ok _ => true
      | Raise _ => false
      end
  end.

(** The article [a] is built from the entry [entry] of a feed called
    [source_name]. *)
Definition built_from (source_name : string) (a : Article.t) (entry : Entry) : Prop :=
  ∃ now, RSSFetcher.extract now source_name entry = Ok a.

(** Lexicographic combination of two comparisons. *)
Definition lex (c1 c2 : comparison) : comparison :=
  match c1 with Eq => c2 | _ => c1 end.

(** The fields of a [datetime] are in the ranges the class guarantees. *)
Definition datetime_valid (dt : datetime.t) : Prop :=
  (1 ≤ datetime.year dt ≤ 9999)%Z ∧ (1 ≤ datetime.month dt ≤ 12)%Z
  ∧ (1 ≤ datetime.day dt ≤ 31)%Z ∧ (0 ≤ datetime.hour dt ≤ 23)%Z
  ∧ (0 ≤ datetime.minute dt ≤ 59)%Z ∧ (0 ≤ datetime.second dt ≤ 59)%Z
  ∧ (0 ≤ datetime.microsecond dt ≤ 999999)%Z.

(** The order of two UTC times: earlier, same or later. *)
Definition datetime_compare (dt1 dt2 : datetime.t) : comparison :=
  lex (datetime.year dt1 ?= datetime.year dt2)%Z
  (lex (datetime.month dt1 ?= datetime.month dt2)%Z
  (lex (datetime.day dt1 ?= datetime.day dt2)%Z
  (lex (datetime.hour dt1 ?= datetime.hour dt2)%Z
  (lex (datetime.minute dt1 ?= datetime.minute dt2)%Z
  (lex (datetime.second dt1 ?= datetime.second dt2)%Z
       (datetime.microsecond dt1 ?= datetime.microsecond dt2)%Z))))).

(** The [w] decimal digits of [z], the most significant first. *)
Fixpoint fixed (w : nat) (z : Z) : string :=
  match w with
  | O => EmptyString
  | S w' => fixed w' (z / 10) +:+ String (Str.chr (48 + z mod 10)) EmptyString
  end.

(** The feed gives no article: parsing it raises, or [datetime] rejects the
    date of each of its first 20 entries (as when it has no entry). *)
Definition barren (parse : string → result (list Entry)) (feed : FeedConf) : Prop :=
  ∀ url, feed_url feed = Some url →
    match parse url with
    | Raise _ => True
    | Ok entries => Forall (fun entry => ¬ date_ok entry) (take 20 entries)
    end.

(** The article with the names of the topics that match it as its topics. *)
Definition labelled (topics : list Topic.t) (a : Article.t) : Article.t :=
  Article.set_topics (Topic.name <$> matching topics (search_text a)) a.

(** The configuration the run uses. *)
Definition config_of (env : Main.Env) (args : Main.Args) : Config :=
  (load_config (Main.read_yaml env) (Main.args_config args)).1.

(** A run reads one feed, which has two entries. *)
Definition sample_env : Main.Env :=
  {| Main.read_yaml := fun _ => None;
     Main.netloc := fun _ => "example.org";
     Main.parse := fun url =>
       if String.eqb url "https://hnrss.org/frontpage" then
         Ok [mkEntry (Some "New LLM released") (Some "https://example.org/llm") None
               (Some "Written in Rust") None (Some (mkTime 2024 5 17 9 30 0));
             mkEntry (Some "Weather report") (Some "https://example.org/sun") None
               None None None]
       else Raise (OSError "unreachable");
     Main.fetch_clock := fun _ _ => datetime.mk 2025 1 1 0 0 0 0%Z;
     Main.save_clock := fun _ _ => datetime.mk 2025 1 1 0 0 1 0%Z;
     Main.report_now1 := datetime.mk 2025 1 1 0 0 2 0%Z;
     Main.report_now2 := datetime.mk 2025 1 1 0 0 2 5%Z;
     Main.title_case := fun s => s |}.

(** A run in which no feed can be reached. *)
Definition offline_env : Main.Env :=
  {| Main.read_yaml := fun _ => None;
     Main.netloc := fun _ => "example.org";
     Main.parse := fun _ => Raise (OSError "unreachable");
     Main.fetch_clock := fun _ _ => datetime.mk 2025 1 1 0 0 0 0%Z;
     Main.save_clock := fun _ _ => datetime.mk 2025 1 1 0 0 1 0%Z;
     Main.report_now1 := datetime.mk 2025 1 1 0 0 2 0%Z;
     Main.report_now2 := datetime.mk 2025 1 1 0 0 2 5%Z;
     Main.title_case := fun s => s |}.

(** The command line without options. *)
Definition no_options : Main.Args :=
  {| Main.args_config := None; Main.args_topics := None;
     Main.args_top_n := 10; Main.args_log_level := "INFO" |}.

(** The part of a path after its last [/]. *)
Fixpoint last_part (path : string) : string :=
  match path with
  | EmptyString => EmptyString
  | String c rest =>
      if Str.contains "/" rest then last_part rest
      else if Ascii.eqb c "/"%char then rest
      else String c rest
  end.

(** The error of a call on a path whose last part has more than 255
    characters, the longest name of the common file systems. *)
Definition name_too_long (path : string) : option string :=
  if (255 <? String.length (last_part path))%nat
  then Some ("[Errno 36] File name too long: '" +:+ path +:+ "'")
  else None.

(** A file system on which a call raises only for a name that is too
    long. *)
Definition name_max_os : OS :=
  {| exists_error := name_too_long;
     mkdir_error := name_too_long;
     write_error := name_too_long |}.

(** The entries with their numbers: [enumerate(entries)]. *)
Definition numbered (entries : list Entry) : list (nat * Entry) :=
  zip (seq 0 (length entries)) entries.

(** * Properties *)

(** ** The library models *)

Example md5_empty : MD5.hexdigest (Str.encode EmptyString) = "d41d8cd98f00b204e9800998ecf8427e".
Proof. vm_compute. reflexivity. Qed.

Example md5_abc : MD5.hexdigest (Str.encode "abc") = "900150983cd24fb0d6963f7d28e17f72".
Proof. vm_compute. reflexivity. Qed.

Example md5_long :
  MD5.hexdigest (Str.encode "12345678901234567890123456789012345678901234567890123456789012345678901234567890")
  = "57edf4a22be3c955ac49da2e2107b67a".
Proof. vm_compute. reflexivity. Qed.

Example isoformat_ex :
  datetime.isoformat (datetime.mk 2024 1 2 3 4 5 0%Z) = "2024-01-02T03:04:05+00:00".
Proof. reflexivity. Qed.

Example isoformat_us :
  datetime.isoformat (datetime.mk 2024 11 22 13 14 15 6789%Z)
  = "2024-11-22T13:14:15.006789+00:00".
Proof. reflexivity. Qed.

Example fingerprint_ex :
  Article.fingerprint "Hacker News" "https://example.org/llm" "New LLM released"
  = "03c36e081694".
Proof. vm_compute. reflexivity. Qed.

(** The source "Caf\u00e9" and the title "\u00c9t\u00e9": two bytes per accented
    letter enter the hash. *)
Example fingerprint_latin1 :
  Article.fingerprint (Str.of_codes [67; 97; 102; 233]%Z) "u"
    (Str.of_codes [201; 116; 233]%Z)
  = "2ba546f1905b".
Proof. vm_compute. reflexivity. Qed.

(** Lower case of "\u00c9T\u00c9 \u00d7 \u00df \u00de". *)
Example lower_latin1 :
  Str.lower (Str.of_codes [201; 84; 201; 32; 215; 32; 223; 32; 222]%Z)
  = Str.of_codes [233; 116; 233; 32; 215; 32; 223; 32; 254]%Z.
Proof. vm_compute. reflexivity. Qed.

Example isoformat_early :
  datetime.isoformat (datetime.mk 24 1 2 3 4 5 6789%Z)
  = "0024-01-02T03:04:05.006789+00:00".
Proof. reflexivity. Qed.

Example matches_llm :
  Topic.matches (Topic.init "AI" ["ai"; "llm"] None) "New LLM released" = true.
Proof. reflexivity. Qed.

(** ** Strings *)

Lemma take_length (n : nat) (s : string) : (String.length (Str.take n s) ≤ n)%nat.
Proof.
  revert s. induction n as [|n IH]; intros [|c s]; simpl; try lia.
  specialize (IH s). lia.
Qed.

Lemma take_short (n : nat) (s : string) :
  (String.length s ≤ n)%nat → Str.take n s = s.
Proof.
  revert s. induction n as [|n IH]; intros [|c s]; simpl; intros Hlen;
    try reflexivity; try lia.
  f_equal. apply IH. lia.
Qed.

Lemma append_String (c : ascii) (s t : string) :
  String c s +:+ t = String c (s +:+ t).
Proof. reflexivity. Qed.

Lemma append_Empty (t : string) : EmptyString +:+ t = t.
Proof. reflexivity. Qed.

Lemma startswith_spec (p s : string) :
  Str.startswith p s = true ↔ ∃ post : string, s = p +:+ post.
Proof.
  revert s. induction p as [|a p IH]; intros s; simpl.
  - split; [intros _; by exists s | done].
  - destruct s as [|b s].
    + split; [done | intros [post Hpost]; discriminate].
    + setoid_rewrite append_String.
      destruct (Ascii.eqb_spec a b) as [->|Hne].
      * rewrite IH. split; intros [post Hpost]; exists post; congruence.
      * split; [done | intros [post Hpost]; congruence].
Qed.

Lemma contains_spec (needle hay : string) :
  Str.contains needle hay = true ↔ substring_of needle hay.
Proof.
  unfold substring_of. induction hay as [|c hay IH].
  - simpl. rewrite orb_false_r, startswith_spec. split.
    + intros [post Hpost]. by exists EmptyString, post.
    + intros [[|a pre] [post Hpost]]; [by exists post | discriminate].
  - cbn [Str.contains]. rewrite orb_true_iff, startswith_spec, IH. split.
    + intros [[post Hpost] | (pre & post & Hpost)].
      * by exists EmptyString, post.
      * exists (String c pre), post. rewrite append_String. by f_equal.
    + intros ([|a pre] & post & Hpost).
      * left. by exists post.
      * right. exists pre, post. rewrite append_String in Hpost. congruence.
Qed.

Lemma lower_char_idemp (c : ascii) : Str.lower_char (Str.lower_char c) = Str.lower_char c.
Proof. destruct c as [[] [] [] [] [] [] [] []]; reflexivity. Qed.

Lemma lower_idemp (s : string) : Str.lower (Str.lower s) = Str.lower s.
Proof. induction s as [|c s IH]; simpl; [done | by rewrite lower_char_idemp, IH]. Qed.

Lemma or_else_empty (s : string) : Str.or_else s EmptyString = s.
Proof. by destruct s. Qed.

Lemma append_nonempty (s : string) (c : ascii) (s' : string) :
  s +:+ String c s' ≠ EmptyString.
Proof. by destruct s. Qed.

Lemma isoformat_nonempty (dt : datetime.t) : datetime.isoformat dt ≠ EmptyString.
Proof. unfold datetime.isoformat. apply append_nonempty. Qed.

Lemma opt_or_nonempty (x : option string) (d : string) :
  d ≠ EmptyString → Str.opt_or x d ≠ EmptyString.
Proof. destruct x as [[|c s]|]; simpl; done. Qed.

(** ** The [Article] objects of a run *)

(** They are the records whose [published] is not empty. *)
Lemma constructed_published (a : Article.t) :
  constructed a ↔ Article.published a ≠ EmptyString.
Proof.
  split.
  - induction 1; simpl; try done.
    apply opt_or_nonempty, isoformat_nonempty.
  - intros Hpub. destruct a as [i t u s sm p tp]. simpl in Hpub.
    pose (now := datetime.mk 1 1 1 0 0 0 0).
    replace (Article.mk i t u s sm p tp)
      with (Article.set_topics tp (Article.set_id i
              (Article.init now t u s (Some sm) (Some p)))).
    + do 2 constructor. constructor.
    + unfold Article.set_topics, Article.set_id, Article.init; simpl.
      rewrite or_else_empty. by destruct p.
Qed.

Lemma from_dict_constructed (now : datetime.t) (d : ArticleDict) (a : Article.t) :
  Article.from_dict now d = Ok a → constructed a.
Proof.
  unfold Article.from_dict.
  destruct (d_title d), (d_url d), (d_source d); simpl; try done.
  intros [= <-]. do 2 constructor. constructor.
Qed.

Lemma from_dict_to_dict (now : datetime.t) (a : Article.t) :
  constructed a → Article.from_dict now (Article.to_dict a) = Ok a.
Proof.
  rewrite constructed_published. destruct a as [i t u s sm p tp]; simpl.
  intros Hpub. unfold Article.from_dict; simpl.
  unfold Article.set_topics, Article.set_id, Article.init; simpl.
  rewrite or_else_empty. by destruct p.
Qed.

(** ** Topic matcher *)

Lemma existsb_contains (words : list string) (text : string) :
  existsb (fun w => Str.contains w text) words = true
  ↔ ∃ w, w ∈ words ∧ substring_of w text.
Proof.
  rewrite existsb_exists. setoid_rewrite contains_spec.
  by setoid_rewrite list_elem_of_In.
Qed.

Lemma matches_included (topic : Topic.t) (text : string) :
  (∀ w, w ∈ Topic.exclude_words topic → ¬ substring_of w (Str.lower text)) →
  Topic.matches topic text = true
  ↔ ∃ kw, kw ∈ Topic.keywords topic ∧ substring_of kw (Str.lower text).
Proof.
  intros Hex. unfold Topic.matches.
  destruct (existsb _ (Topic.exclude_words topic)) eqn:Hany.
  - apply existsb_contains in Hany as (w & Hw & Hsub). by destruct (Hex w).
  - apply existsb_contains.
Qed.

(** C3. The id that [__init__] computes is the fingerprint of
    (source, url, title): building an article again from the same triple
    gives the same id, whatever the clock, the summary and the published
    value are. *)
Theorem fingerprint_deterministic
    (now1 now2 : datetime.t) (source url title : string)
    (summary1 summary2 published1 published2 : option string) :
  Article.id (Article.init now1 title url source summary1 published1)
  = Article.id (Article.init now2 title url source summary2 published2)
  ∧ Article.id (Article.init now1 title url source summary1 published1)
    = Article.fingerprint source url title.
Proof. split; reflexivity. Qed.

(** C4. If one of the topic's exclude words occurs in the lower-cased text,
    [matches] answers false, whatever keywords occur in the same text. *)
Theorem exclude_precedence (topic : Topic.t) (text word : string) :
  word ∈ Topic.exclude_words topic →
  substring_of word (Str.lower text) →
  Topic.matches topic text = false.
Proof.
  intros Hin Hsub. unfold Topic.matches.
  replace (existsb _ (Topic.exclude_words topic)) with true; [done|].
  symmetry. apply existsb_contains. eauto.
Qed.

Lemma exclude_precedence_witness :
  let topic := Topic.init "Security" ["hack"; "breach"] (Some ["Hackathon"]) in
  substring_of "hack" (Str.lower "Student HACKATHON opens")
  ∧ Topic.matches topic "Student HACKATHON opens" = false.
Proof.
  split.
  - exists "student ", "athon opens". reflexivity.
  - apply (exclude_precedence _ _ "hackathon").
    + apply list_elem_of_here.
    + exists "student ", " opens". reflexivity.
Defined.

(** C5. [matches] is a case-insensitive substring search: when no exclude
    word occurs, it answers true exactly when some keyword occurs somewhere
    in the lower-cased text, and texts that differ only in case get the same
    answer.  The topic AI with the keywords "ai" and "llm" matches
    "New LLM released" through "llm", and "Thai food trends" through the
    "ai" inside "Thai". *)
Theorem matches_is_substring_search :
  (∀ (topic : Topic.t) (text : string),
     (∀ w, w ∈ Topic.exclude_words topic → ¬ substring_of w (Str.lower text)) →
     Topic.matches topic text = true
     ↔ ∃ kw, kw ∈ Topic.keywords topic ∧ substring_of kw (Str.lower text))
  ∧ (∀ (topic : Topic.t) (text text' : string),
       Str.lower text = Str.lower text' →
       Topic.matches topic text = Topic.matches topic text')
  ∧ (let AI := Topic.init "AI" ["ai"; "llm"] (Some []) in
     Topic.matches AI "New LLM released" = true
     ∧ substring_of "llm" (Str.lower "New LLM released")
     ∧ ¬ substring_of "ai" (Str.lower "New LLM released")
     ∧ Topic.matches AI "Thai food trends" = true
     ∧ Str.lower "Thai food trends" = "th" +:+ "ai" +:+ " food trends").
Proof.
  split; [apply matches_included | split].
  - intros topic text text' Heq. unfold Topic.matches. by rewrite Heq.
  - cbv zeta. split_and!; try reflexivity.
    + by exists "new ", " released".
    + rewrite <- contains_spec. by vm_compute.
Qed.

Lemma matches_is_substring_search_witness :
  let AI := Topic.init "AI" ["ai"; "llm"] (Some []) in
  Topic.matches AI "Thai food trends" = true
  ↔ ∃ kw, kw ∈ Topic.keywords AI ∧ substring_of kw (Str.lower "Thai food trends").
Proof.
  apply (proj1 matches_is_substring_search
           (Topic.init "AI" ["ai"; "llm"] (Some [])) "Thai food trends").
  intros w Hw. inversion Hw.
Defined.

(** ** Serialization *)

(** C10. For every article object [a], [from_dict (to_dict a)] succeeds and
    gives back [a]: id, title, url, source, summary, published and topics are
    those of [a]; the stored id and topics are taken over, not computed
    again or reset. *)
Theorem dict_round_trip (a : Article.t) (now : datetime.t) :
  constructed a →
  ∃ b, Article.from_dict now (Article.to_dict a) = Ok b
       ∧ b = a
       ∧ Article.id b = Article.id a
       ∧ Article.title b = Article.title a
       ∧ Article.url b = Article.url a
       ∧ Article.source b = Article.source a
       ∧ Article.summary b = Article.summary a
       ∧ Article.published b = Article.published a
       ∧ Article.topics b = Article.topics a.
Proof.
  intros Hc. exists a. by rewrite (from_dict_to_dict now a Hc).
Qed.

Lemma dict_round_trip_witness :
  let a :=
    Article.set_topics ["AI"; "Programming"]
      (Article.set_id "0123456789ab"
         (Article.init (datetime.mk 2024 5 6 7 8 9 0%Z)
            "New LLM released" "https://example.org/llm" "Hacker News"
            (Some "A summary") None)) in
  ∃ b, Article.from_dict (datetime.mk 2025 1 1 0 0 0 0%Z) (Article.to_dict a) = Ok b
       ∧ b = a
       ∧ Article.id b = Article.id a
       ∧ Article.title b = Article.title a
       ∧ Article.url b = Article.url a
       ∧ Article.source b = Article.source a
       ∧ Article.summary b = Article.summary a
       ∧ Article.published b = Article.published a
       ∧ Article.topics b = Article.topics a.
Proof.
  cbv zeta. apply dict_round_trip.
  do 2 constructor. constructor.
Defined.

(** ** Ingestion *)

Lemma extract_summary (now : datetime.t) (source_name : string)
    (entry : Entry) (a : Article.t) :
  RSSFetcher.extract now source_name entry = Ok a →
  Article.summary a = Str.take 500 (raw_summary entry).
Proof.
  unfold RSSFetcher.extract.
  destruct (e_published_parsed entry) as [tm|]; simpl.
  - destruct (datetime.make _ _ _ _ _ _); simpl; [|done].
    intros [= <-]. simpl. apply or_else_empty.
  - intros [= <-]. simpl. apply or_else_empty.
Qed.

Lemma extract_undated (now : datetime.t) (source_name : string) (entry : Entry) :
  e_published_parsed entry = None →
  ∃ a, RSSFetcher.extract now source_name entry = Ok a
       ∧ Article.published a = datetime.isoformat now.
Proof.
  intros Hnone. unfold RSSFetcher.extract. rewrite Hnone. simpl. eauto.
Qed.

Lemma fetch_loop_origin (clock : nat → datetime.t) (source_name : string)
    (entries : list Entry) (i : nat) (acc : list Article.t) (log : list LogRecord)
    (a : Article.t) :
  a ∈ (RSSFetcher.fetch_loop clock source_name entries i acc log).1 →
  a ∈ acc ∨ ∃ entry now, entry ∈ entries
                         ∧ RSSFetcher.extract now source_name entry = Ok a.
Proof.
  revert i acc log. induction entries as [|entry rest IH]; intros i acc log; simpl.
  - by left.
  - destruct (RSSFetcher.extract (clock i) source_name entry) as [b|e] eqn:Hex;
      intros [Hin | (entry' & now & Hin & Hok)]%IH.
    + apply elem_of_app in Hin as [Hin | ->%list_elem_of_singleton]; [by left|].
      right. exists entry, (clock i). split; [left | done].
    + right. exists entry', now. split; [by right | done].
    + by left.
    + right. exists entry', now. split; [by right | done].
Qed.

Lemma fetch_origin (netloc : string → string) (parse : string → result (list Entry))
    (clock : nat → datetime.t) (feed_url : string) (source_name : option string)
    (a : Article.t) :
  a ∈ (RSSFetcher.fetch netloc parse clock feed_url source_name).1 →
  ∃ entries entry now,
    parse feed_url = Ok entries ∧ entry ∈ take 20 entries
    ∧ RSSFetcher.extract now (Str.opt_or source_name (netloc feed_url)) entry = Ok a.
Proof.
  unfold RSSFetcher.fetch. destruct (parse feed_url) as [entries|e]; simpl.
  - destruct (RSSFetcher.fetch_loop _ _ _ _ _ _) as [articles log] eqn:Hloop.
    simpl. intros Hin.
    destruct (fetch_loop_origin clock (Str.opt_or source_name (netloc feed_url))
                (take 20 entries) 0 [] _ a
                ltac:(by rewrite Hloop)) as [Hnil | (entry & now & ? & ?)].
    + inversion Hnil.
    + by exists entries, entry, now.
  - intros Hin. inversion Hin.
Qed.

(** A feed of one entry whose summary has 600 characters. *)
Example fetch_long_summary :
  let entry := mkEntry (Some "Title") (Some "https://example.org/1") None
                 (Some (Str.zeros 600)) None
                 (Some (mkTime 2024 2 29 12 30 45)) in
  (RSSFetcher.fetch (fun _ => "example.org") (fun _ => Ok [entry])
     (fun _ => datetime.mk 2025 1 1 0 0 0 0%Z) "https://example.org/feed" None).1
  = [Article.mk (Article.fingerprint "example.org" "https://example.org/1" "Title")
       "Title" "https://example.org/1" "example.org" (Str.zeros 500)
       "2024-02-29T12:30:45+00:00" []].
Proof. vm_compute. reflexivity. Qed.

(** An entry with an impossible date is skipped with a warning. *)
Example fetch_bad_date :
  let entry := mkEntry (Some "Title") None None None None
                 (Some (mkTime 2023 2 29 12 30 45)) in
  RSSFetcher.fetch (fun _ => "example.org") (fun _ => Ok [entry])
    (fun _ => datetime.mk 2025 1 1 0 0 0 0%Z) "u" (Some "Feed")
  = ([], [Log INFO "Fetching RSS: Feed (u)";
          Log WARNING "Skipping article due to error: day is out of range for month";
          Log INFO "Fetched 0 articles from Feed"]).
Proof. vm_compute. reflexivity. Qed.

(** ** Loading *)

Lemma from_dicts_length (clock : nat → datetime.t) (data : list ArticleDict)
    (l : list Article.t) :
  Storage.from_dicts clock data = Ok l → length l = length data.
Proof.
  revert clock l. induction data as [|d data IH]; intros clock l; simpl.
  - by intros [= <-].
  - destruct (Article.from_dict (clock O) d) as [a|e]; simpl; [|done].
    destruct (Storage.from_dicts _ data) as [l'|e] eqn:Hrest; simpl; [|done].
    intros [= <-]. simpl. f_equal. by eapply IH.
Qed.

Lemma from_dicts_constructed (clock : nat → datetime.t) (data : list ArticleDict)
    (l : list Article.t) :
  Storage.from_dicts clock data = Ok l → Forall constructed l.
Proof.
  revert clock l. induction data as [|d data IH]; intros clock l; simpl.
  - intros [= <-]. constructor.
  - destruct (Article.from_dict (clock O) d) as [a|e] eqn:Ha; simpl; [|done].
    destruct (Storage.from_dicts _ data) as [l'|e] eqn:Hrest; simpl; [|done].
    intros [= <-]. constructor; [by eapply from_dict_constructed | by eapply IH].
Qed.

Lemma from_dicts_to_dict (clock : nat → datetime.t) (l : list Article.t) :
  Forall constructed l → Storage.from_dicts clock (Article.to_dict <$> l) = Ok l.
Proof.
  intros Hl. revert clock. induction Hl as [|a l Ha Hl IH]; intros clock.
  - done.
  - rewrite fmap_cons. cbn [Storage.from_dicts].
    rewrite (from_dict_to_dict _ a Ha). simpl. by rewrite IH.
Qed.

Lemma from_dicts_to_dict_length (clock : nat → datetime.t) (l : list Article.t) :
  ∃ l', Storage.from_dicts clock (Article.to_dict <$> l) = Ok l'
        ∧ length l' = length l.
Proof.
  revert clock. induction l as [|a l IH]; intros clock.
  - by exists [].
  - rewrite fmap_cons. cbn [Storage.from_dicts].
    destruct (IH (fun i => clock (S i))) as (l' & -> & Hlen).
    eexists. split; [reflexivity|]. simpl. by rewrite Hlen.
Qed.




(** ** The order of strings and the sort *)

Lemma ltb_false_le (s t : string) : String.ltb s t = false ↔ str_le t s.
Proof.
  unfold str_le, String.ltb, String.leb. rewrite (String.compare_antisym s t).
  by destruct (String.compare t s).
Qed.

Lemma ltb_true_le (s t : string) : String.ltb s t = true → str_le s t.
Proof. unfold str_le, String.ltb, String.leb. by destruct (String.compare s t). Qed.

Lemma ltb_irrefl (s : string) : String.ltb s s = false.
Proof.
  unfold String.ltb. pose proof (String.compare_antisym s s) as H.
  by destruct (String.compare s s).
Qed.

Lemma str_le_cases (s t : string) :
  str_le s t ↔ s = t ∨ OrderedTypeEx.String_as_OT.lt s t.
Proof.
  unfold str_le, String.leb.
  destruct (String.compare s t) eqn:Hc; split; try done.
  - intros _. left. by apply String.compare_eq_iff.
  - intros _. right. by apply OrderedTypeEx.String_as_OT.cmp_lt.
  - intros [-> | Hlt%OrderedTypeEx.String_as_OT.cmp_lt].
    + pose proof (String.compare_antisym t t) as H. rewrite Hc in H. done.
    + unfold OrderedTypeEx.String_as_OT.cmp in Hlt. congruence.
Qed.

#[global] Instance str_le_refl : Reflexive str_le.
Proof. intros s. apply str_le_cases. by left. Qed.

#[global] Instance str_le_trans : Transitive str_le.
Proof.
  intros a b c [-> | Hab]%str_le_cases [-> | Hbc]%str_le_cases;
    apply str_le_cases; eauto.
  right. by eapply OrderedTypeEx.String_as_OT.lt_trans.
Qed.

Section sort_desc_facts.
Context {A : Type} (key : A → string).

#[local] Instance key_ge_trans : Transitive (key_ge key).
Proof. intros x y z Hxy Hyz. unfold key_ge in *. by etrans. Qed.

Lemma insert_desc_perm (x : A) (l : list A) : insert_desc key x l ≡ₚ x :: l.
Proof.
  induction l as [|y l IH]; simpl; [done|].
  destruct (String.ltb (key x) (key y)); [|done].
  rewrite IH. apply Permutation_swap.
Qed.

Lemma sort_desc_perm (l : list A) : sort_desc key l ≡ₚ l.
Proof.
  induction l as [|x l IH]; simpl; [done|].
  by rewrite insert_desc_perm, IH.
Qed.

Lemma sort_desc_length (l : list A) : length (sort_desc key l) = length l.
Proof. by rewrite sort_desc_perm. Qed.

Lemma insert_desc_sorted (x : A) (l : list A) :
  StronglySorted (key_ge key) l → StronglySorted (key_ge key) (insert_desc key x l).
Proof.
  induction 1 as [|y l Hl IH Hy]; simpl.
  - repeat constructor.
  - destruct (String.ltb (key x) (key y)) eqn:Hlt.
    + constructor; [done|].
      rewrite insert_desc_perm. constructor; [|done].
      by apply ltb_true_le.
    + apply ltb_false_le in Hlt. constructor; [by constructor|].
      constructor; [done|].
      eapply Forall_impl; [exact Hy|]. intros z Hz. by etrans.
Qed.

Lemma sort_desc_sorted (l : list A) : StronglySorted (key_ge key) (sort_desc key l).
Proof.
  induction l as [|x l IH]; simpl; [constructor | by apply insert_desc_sorted].
Qed.

(** A list already in descending order is left as it is. *)
Lemma sort_desc_fixed (l : list A) : StronglySorted (key_ge key) l → sort_desc key l = l.
Proof.
  induction 1 as [|x l Hl IH Hx]; simpl; [done|].
  rewrite IH. destruct Hx as [|y l Hxy _]; simpl; [done|].
  apply ltb_false_le in Hxy. by rewrite Hxy.
Qed.

(** The sort is stable: the elements of one key keep their order. *)
Lemma insert_desc_stable (k : string) (x : A) (l : list A) :
  filter (fun a => key a = k) (insert_desc key x l)
  = filter (fun a => key a = k) (x :: l).
Proof.
  induction l as [|y l IH]; simpl; [done|].
  destruct (String.ltb (key x) (key y)) eqn:Hlt; [|done].
  rewrite !filter_cons, IH, !filter_cons.
  destruct (decide (key y = k)) as [Hy|Hy], (decide (key x = k)) as [Hx|Hx];
    try done.
  rewrite Hx, Hy, ltb_irrefl in Hlt. done.
Qed.

Lemma sort_desc_stable (k : string) (l : list A) :
  filter (fun a => key a = k) (sort_desc key l) = filter (fun a => key a = k) l.
Proof.
  induction l as [|x l IH]; simpl; [done|].
  by rewrite insert_desc_stable, !filter_cons, IH.
Qed.

Lemma sorted_take (n : nat) (l : list A) :
  StronglySorted (key_ge key) l → StronglySorted (key_ge key) (take n l).
Proof.
  intros Hl. rewrite <- (take_drop n l) in Hl.
  by apply StronglySorted_app_1_l in Hl.
Qed.
End sort_desc_facts.

Example sort_desc_ex :
  sort_desc (fun s : string => Str.take 1 s) ["b1"; "a1"; "c1"; "b2"; "a2"]
  = ["c1"; "b1"; "b2"; "a1"; "a2"].
Proof. reflexivity. Qed.

(** ** The article store *)

Lemma save_articles_unfold (self : Storage.t) (clock : nat → datetime.t)
    (fs : gmap string File) (articles : list Article.t) (topic : string) :
  let existing := (Storage.load_articles self clock fs topic).1 in
  ∃ log,
    Storage.save_articles self clock fs articles topic
    = (<[Storage.file_path self topic := Json (Article.to_dict <$> merged existing articles)]> fs,
       length (fresh existing articles), log).
Proof.
  unfold Storage.save_articles, Storage.load_articles.
  destruct (fs !! Storage.file_path self topic) as [f|]; simpl.
  - destruct (Storage.read clock f) as [l|e]; simpl; eauto.
  - eauto.
Qed.

Lemma load_articles_constructed (self : Storage.t) (clock : nat → datetime.t)
    (fs : gmap string File) (topic : string) :
  Forall constructed (Storage.load_articles self clock fs topic).1.
Proof.
  unfold Storage.load_articles.
  destruct (fs !! Storage.file_path self topic) as [[e|data]|]; simpl; try done.
  destruct (Storage.from_dicts clock data) as [l|e] eqn:Hl; simpl; [|done].
  by eapply from_dicts_constructed.
Qed.

Lemma load_articles_written (self : Storage.t) (clock : nat → datetime.t)
    (fs : gmap string File) (topic : string) (l : list Article.t) :
  Forall constructed l →
  fs !! Storage.file_path self topic = Some (Json (Article.to_dict <$> l)) →
  Storage.load_articles self clock fs topic = (l, []).
Proof.
  intros Hl Hfile. unfold Storage.load_articles. rewrite Hfile. simpl.
  by rewrite from_dicts_to_dict.
Qed.

Lemma load_articles_length (self : Storage.t) (clock : nat → datetime.t)
    (fs : gmap string File) (topic : string) (data : list ArticleDict) :
  fs !! Storage.file_path self topic = Some (Json data) →
  (length (Storage.load_articles self clock fs topic).1 ≤ length data)%nat.
Proof.
  intros Hfile. unfold Storage.load_articles. rewrite Hfile. simpl.
  destruct (Storage.from_dicts clock data) as [l|e] eqn:Hl; simpl; [|lia].
  apply from_dicts_length in Hl. lia.
Qed.

Lemma fresh_spec (existing articles : list Article.t) (a : Article.t) :
  a ∈ fresh existing articles
  ↔ a ∈ articles ∧ Article.id a ∉ (Article.id <$> existing).
Proof.
  unfold fresh. rewrite list_elem_of_filter, elem_of_list_to_set. tauto.
Qed.

Lemma fresh_nil (existing articles : list Article.t) :
  (∀ a, a ∈ articles → Article.id a ∈ (Article.id <$> existing)) →
  fresh existing articles = [].
Proof.
  intros Hall. apply elem_of_nil_inv. intros a [Hin Hnot]%fresh_spec.
  by apply Hnot, Hall.
Qed.

Lemma fresh_sublist (existing articles : list Article.t) :
  fresh existing articles `sublist_of` articles.
Proof. apply sublist_filter. Qed.

Lemma sort_key_published (a : Article.t) : Storage.sort_key a = Article.published a.
Proof. apply or_else_empty. Qed.

Lemma sorted_by_key (l : list Article.t) :
  StronglySorted (key_ge Storage.sort_key) l ↔ StronglySorted newer_first l.
Proof.
  assert (Hrel : ∀ a b, key_ge Storage.sort_key a b ↔ newer_first a b).
  { intros a b. unfold key_ge, newer_first. by rewrite !sort_key_published. }
  split; induction 1 as [|x l Hl IH Hx]; constructor; try done;
    (eapply Forall_impl; [exact Hx|]); intros y; by apply Hrel.
Qed.

Lemma merged_length (existing articles : list Article.t) :
  (length (merged existing articles) ≤ 100)%nat.
Proof. unfold merged. rewrite length_take. lia. Qed.

Lemma merged_sorted (existing articles : list Article.t) :
  StronglySorted newer_first (merged existing articles).
Proof. apply sorted_by_key, sorted_take, sort_desc_sorted. Qed.

Lemma merged_submseteq (existing articles : list Article.t) :
  merged existing articles ⊆+ existing ++ fresh existing articles.
Proof.
  unfold merged. etrans; [apply submseteq_take|]. by rewrite sort_desc_perm.
Qed.

Lemma merged_elem_of (existing articles : list Article.t) (x : Article.t) :
  x ∈ merged existing articles → x ∈ existing ∨ x ∈ fresh existing articles.
Proof.
  intros Hx. apply elem_of_app. eapply elem_of_submseteq; [exact Hx|].
  apply merged_submseteq.
Qed.

Lemma submseteq_NoDup {A : Type} (l k : list A) : l ⊆+ k → NoDup k → NoDup l.
Proof.
  intros [k' Hk]%submseteq_Permutation. rewrite Hk, NoDup_app. tauto.
Qed.

Lemma merged_NoDup (existing articles : list Article.t) :
  NoDup (Article.id <$> existing) →
  NoDup (Article.id <$> articles) →
  NoDup (Article.id <$> merged existing articles).
Proof.
  intros Hex Hart.
  eapply submseteq_NoDup;
    [apply (fmap_submseteq Article.id), merged_submseteq|].
  rewrite fmap_app. apply NoDup_app. split_and!; [done| |].
  - intros i Hi (a & -> & [_ Hnew]%fresh_spec)%list_elem_of_fmap. done.
  - eapply sublist_NoDup; [exact Hart|].
    apply (fmap_sublist Article.id), fresh_sublist.
Qed.

Lemma merged_all (existing articles : list Article.t) :
  (length existing + length (fresh existing articles) ≤ 100)%nat →
  merged existing articles ≡ₚ existing ++ fresh existing articles.
Proof.
  intros Hlen. unfold merged. rewrite take_ge; [apply sort_desc_perm|].
  rewrite sort_desc_length, length_app. lia.
Qed.

Lemma merged_fixed (l articles : list Article.t) :
  StronglySorted newer_first l → (length l ≤ 100)%nat →
  fresh l articles = [] →
  merged l articles = l.
Proof.
  intros Hsorted Hlen Hfresh. unfold merged. rewrite Hfresh, app_nil_r.
  rewrite sort_desc_fixed by by apply sorted_by_key.
  by apply take_ge.
Qed.

Lemma save_articles_capped_at (self : Storage.t) (clock : nat → datetime.t)
    (fs : gmap string File) (articles : list Article.t) (topic path : string) :
  capped_at path fs ∨ path = Storage.file_path self topic →
  capped_at path (Storage.save_articles self clock fs articles topic).1.1.
Proof.
  intros Hfs. destruct (save_articles_unfold self clock fs articles topic) as [log ->].
  simpl. intros data.
  destruct (decide (Storage.file_path self topic = path)) as [<-|Hne].
  - rewrite lookup_insert_eq. intros [= <-].
    rewrite length_fmap. apply merged_length.
  - rewrite lookup_insert_ne by done. destruct Hfs as [Hfs | ->]; [apply Hfs | done].
Qed.

Lemma save_all_capped_at (self : Storage.t) (calls : list SaveCall)
    (fs : gmap string File) (topic : string) :
  capped_at (Storage.file_path self topic) fs ∨ topic ∈ call_topic <$> calls →
  capped_at (Storage.file_path self topic) (save_all self calls fs).
Proof.
  revert fs. induction calls as [|c calls IH]; intros fs.
  - intros [Hfs | Hin%elem_of_nil]; done.
  - rewrite fmap_cons. cbn [save_all foldl]. intros Hfs. apply IH.
    destruct Hfs as [Hfs | [->|Hin]%elem_of_cons].
    + left. apply save_articles_capped_at. by left.
    + left. apply save_articles_capped_at. by right.
    + by right.
Qed.

Lemma load_articles_capped (self : Storage.t) (clock : nat → datetime.t)
    (fs : gmap string File) (topic : string) :
  capped_at (Storage.file_path self topic) fs →
  (length (Storage.load_articles self clock fs topic).1 ≤ 100)%nat.
Proof.
  intros Hfs.
  destruct (fs !! Storage.file_path self topic) as [[e|data]|] eqn:Hfile.
  - unfold Storage.load_articles. rewrite Hfile. simpl. lia.
  - etrans; [by eapply load_articles_length|]. by eapply Hfs.
  - unfold Storage.load_articles. rewrite Hfile. simpl. lia.
Qed.

(** C1, amended.  After every call of [save_articles] the file of the
    partition holds at most 100 articles, in descending order of [published]
    as strings, and a load of the partition returns at most 100 articles; so
    does every load after a sequence of calls, for a partition that one of
    the calls saved or whose file held at most 100 records (or did not
    exist) before.  The ids in the file are pairwise different when those of
    the batch are and those of the articles loaded before the call are. *)
Theorem save_articles_invariant (self : Storage.t) (clock : nat → datetime.t)
    (fs : gmap string File) (articles : list Article.t) (topic : string) :
  let existing := (Storage.load_articles self clock fs topic).1 in
  let fs' := (Storage.save_articles self clock fs articles topic).1.1 in
  (∃ stored : list Article.t,
     fs' !! Storage.file_path self topic = Some (Json (Article.to_dict <$> stored))
     ∧ (length stored ≤ 100)%nat
     ∧ StronglySorted newer_first stored
     ∧ (NoDup (Article.id <$> existing) → NoDup (Article.id <$> articles) →
        NoDup (Article.id <$> stored)))
  ∧ (∀ clock', (length (Storage.load_articles self clock' fs' topic).1 ≤ 100)%nat)
  ∧ (∀ calls clock' topic',
       capped_at (Storage.file_path self topic') fs
       ∨ topic' ∈ call_topic <$> calls →
       (length (Storage.load_articles self clock' (save_all self calls fs) topic').1
        ≤ 100)%nat).
Proof.
  intros existing fs'. subst existing fs'. split_and!.
  - destruct (save_articles_unfold self clock fs articles topic) as [log ->].
    simpl. eexists. rewrite lookup_insert_eq.
    split_and!; [done | apply merged_length | apply merged_sorted | apply merged_NoDup].
  - intros clock'. apply load_articles_capped, save_articles_capped_at. by right.
  - intros calls clock' topic' Hfs. by apply load_articles_capped, save_all_capped_at.
Qed.

(** A batch that holds one article twice is stored twice: the file written
    into an empty directory has two records of the same id. *)
Lemma duplicate_in_batch_stored_twice :
  let a := Article.init (datetime.mk 2025 1 1 0 0 0 0%Z)
             "New LLM released" "https://example.org/llm" "Hacker News" None None in
  let fs' := (Storage.save_articles (Storage.mk "data")
                (fun _ => datetime.mk 2025 1 1 0 0 0 0%Z) ∅ [a; a] "all").1.1 in
  ∃ data,
    fs' !! "data/all_articles.json" = Some (Json data)
    ∧ data = [Article.to_dict a; Article.to_dict a]
    ∧ d_id <$> data = [Some "03c36e081694"; Some "03c36e081694"]
    ∧ ¬ NoDup (d_id <$> data).
Proof.
  cbv zeta. eexists. split_and!.
  - vm_compute. reflexivity.
  - vm_compute. reflexivity.
  - vm_compute. reflexivity.
  - intros Hnodup. apply NoDup_cons in Hnodup as [Hnotin _].
    apply Hnotin. left.
Qed.

Lemma save_articles_invariant_witness :
  let a := Article.init (datetime.mk 2025 1 1 0 0 0 0%Z)
             "New LLM released" "https://example.org/llm" "Hacker News" None None in
  let b := Article.init (datetime.mk 2025 1 1 0 0 1 0%Z)
             "Thai food trends" "https://example.org/thai" "Hacker News" None None in
  let clock := fun _ : nat => datetime.mk 2025 1 1 0 0 2 0%Z in
  ∃ stored : list Article.t,
    (Storage.save_articles (Storage.mk "data") clock ∅ [a; b] "all").1.1
      !! "data/all_articles.json" = Some (Json (Article.to_dict <$> stored))
    ∧ NoDup (Article.id <$> stored).
Proof.
  cbv zeta.
  destruct (proj1 (save_articles_invariant (Storage.mk "data")
                     (fun _ : nat => datetime.mk 2025 1 1 0 0 2 0%Z) ∅
                     [Article.init (datetime.mk 2025 1 1 0 0 0 0%Z)
                        "New LLM released" "https://example.org/llm" "Hacker News" None None;
                      Article.init (datetime.mk 2025 1 1 0 0 1 0%Z)
                        "Thai food trends" "https://example.org/thai" "Hacker News" None None]
                     "all"))
    as (stored & Hfile & _ & _ & Hnodup).
  exists stored. split; [exact Hfile|]. apply Hnodup.
  - refine (bool_decide_unpack _ _). vm_compute. exact I.
  - refine (bool_decide_unpack _ _). vm_compute. exact I.
Defined.

(** ** Saving again *)

Lemma save_known (self : Storage.t) (clock : nat → datetime.t)
    (fs : gmap string File) (l articles : list Article.t) (topic : string) :
  fs !! Storage.file_path self topic = Some (Json (Article.to_dict <$> l)) →
  Forall constructed l → StronglySorted newer_first l → (length l ≤ 100)%nat →
  (∀ a, a ∈ articles → Article.id a ∈ (Article.id <$> l)) →
  ∃ log, Storage.save_articles self clock fs articles topic = (fs, 0%nat, log).
Proof.
  intros Hfile Hl Hsorted Hlen Hknown.
  destruct (save_articles_unfold self clock fs articles topic) as [log ->].
  rewrite (load_articles_written self clock fs topic l Hl Hfile). simpl.
  rewrite (fresh_nil l articles Hknown).
  rewrite merged_fixed by (done || by apply fresh_nil).
  exists log. by rewrite insert_id.
Qed.

Lemma merged_constructed (existing articles : list Article.t) :
  Forall constructed existing → Forall constructed articles →
  Forall constructed (merged existing articles).
Proof.
  rewrite !Forall_forall. intros Hex Hart x [Hx | [Hx _]%fresh_spec]%merged_elem_of; auto.
Qed.

Lemma merged_keeps_all (existing articles : list Article.t) (a : Article.t) :
  (length existing + length (fresh existing articles) ≤ 100)%nat →
  a ∈ articles → Article.id a ∈ (Article.id <$> merged existing articles).
Proof.
  intros Hlen Hin. rewrite (merged_all _ _ Hlen), fmap_app, elem_of_app.
  destruct (decide (Article.id a ∈ (Article.id <$> existing))) as [Hold|Hnew].
  - by left.
  - right. apply list_elem_of_fmap_2. by apply fresh_spec.
Qed.

(** What a second call finds and does, after a first call with [batch]. *)
Lemma save_again (self : Storage.t) (clock1 clock2 : nat → datetime.t)
    (fs : gmap string File) (batch batch' : list Article.t) (topic : string) :
  Forall constructed batch →
  let existing := (Storage.load_articles self clock1 fs topic).1 in
  let fs1 := (Storage.save_articles self clock1 fs batch topic).1.1 in
  (Storage.load_articles self clock2 fs1 topic).1 = merged existing batch
  ∧ (Storage.save_articles self clock2 fs1 batch' topic).1.2
    = length (fresh (merged existing batch) batch')
  ∧ ((∀ a, a ∈ batch' → Article.id a ∈ (Article.id <$> merged existing batch)) →
     (Storage.save_articles self clock2 fs1 batch' topic).1 = (fs1, 0%nat)).
Proof.
  intros Hbatch existing fs1.
  assert (Hkept : Forall constructed (merged existing batch)).
  { apply merged_constructed; [apply load_articles_constructed | done]. }
  assert (Hfile : fs1 !! Storage.file_path self topic
                  = Some (Json (Article.to_dict <$> merged existing batch))).
  { subst fs1 existing.
    destruct (save_articles_unfold self clock1 fs batch topic) as [log ->].
    apply lookup_insert_eq. }
  assert (Hload : (Storage.load_articles self clock2 fs1 topic).1
                  = merged existing batch).
  { by rewrite (load_articles_written self clock2 fs1 topic _ Hkept Hfile). }
  split_and!; [done | |].
  - destruct (save_articles_unfold self clock2 fs1 batch' topic) as [log ->].
    simpl. by rewrite Hload.
  - intros Hknown.
    destruct (save_known self clock2 fs1 (merged existing batch) batch' topic)
      as [log ->]; auto using merged_sorted, merged_length.
Qed.

(** C2, amended.  A second call of [save_articles] with the same batch
    reports as newly added the articles of the batch whose id is not in the
    partition after the first call.  It reports 0, and leaves every file as
    the first call left it, when the first call kept the ids of the whole
    batch, which it does when the articles loaded and the articles added
    number at most 100 together.  An article with the (source, url, title)
    of an article saved just before, into a partition that held fewer than
    100 articles, is reported as 0 newly added. *)
Theorem save_twice (self : Storage.t) (clock1 clock2 : nat → datetime.t)
    (fs : gmap string File) (batch : list Article.t) (topic : string) :
  Forall constructed batch →
  let existing := (Storage.load_articles self clock1 fs topic).1 in
  let first := Storage.save_articles self clock1 fs batch topic in
  let kept := (Storage.load_articles self clock2 first.1.1 topic).1 in
  let second := Storage.save_articles self clock2 first.1.1 batch topic in
  second.1.2 = length (fresh kept batch)
  ∧ ((∀ a, a ∈ batch → Article.id a ∈ (Article.id <$> kept)) →
     second.1.2 = 0%nat ∧ second.1.1 = first.1.1)
  ∧ ((length existing + first.1.2 ≤ 100)%nat →
     second.1.2 = 0%nat ∧ second.1.1 = first.1.1)
  ∧ (∀ now1 now2 title url source summary1 summary2 published1 published2,
       batch = [Article.init now1 title url source summary1 published1] →
       (length existing < 100)%nat →
       (Storage.save_articles self clock2 first.1.1
          [Article.init now2 title url source summary2 published2] topic).1.2
       = 0%nat).
Proof.
  intros Hbatch existing first kept second.
  destruct (save_again self clock1 clock2 fs batch batch topic Hbatch)
    as (Hkept & Hcount & Hsame).
  fold existing in Hkept, Hcount, Hsame. fold first in Hkept, Hcount, Hsame.
  fold kept in Hkept. fold second in Hcount, Hsame.
  assert (Hadded : first.1.2 = length (fresh existing batch)).
  { subst first existing.
    by destruct (save_articles_unfold self clock1 fs batch topic) as [log ->]. }
  split_and!.
  - by rewrite Hkept.
  - rewrite Hkept. intros Hknown. by rewrite (Hsame Hknown).
  - rewrite Hadded. intros Hlen. rewrite Hsame; [done|].
    intros a Ha. by apply merged_keeps_all.
  - intros now1 now2 title url source summary1 summary2 published1 published2
      Hone Hlen.
    destruct (save_again self clock1 clock2 fs batch
                [Article.init now2 title url source summary2 published2] topic Hbatch)
      as (_ & _ & Hsame').
    fold existing in Hsame'. fold first in Hsame'. rewrite Hsame'; [done|].
    intros a ->%list_elem_of_singleton.
    change (Article.id (Article.init now2 title url source summary2 published2))
      with (Article.id (Article.init now1 title url source summary1 published1)).
    apply merged_keeps_all.
    + pose proof (sublist_length _ _ (fresh_sublist existing batch)) as Hsub.
      rewrite Hone in Hsub at 2. simpl in Hsub. lia.
    + rewrite Hone. left.
Qed.

Lemma save_twice_witness :
  let a := Article.init (datetime.mk 2025 1 1 0 0 0 0%Z)
             "New LLM released" "https://example.org/llm" "Hacker News" None None in
  let b := Article.init (datetime.mk 2025 1 1 0 0 1 0%Z)
             "Thai food trends" "https://example.org/thai" "Hacker News" None None in
  let clock := fun _ : nat => datetime.mk 2025 1 1 0 0 2 0%Z in
  let first := Storage.save_articles (Storage.mk "data") clock ∅ [a; b] "all" in
  let second := Storage.save_articles (Storage.mk "data") clock first.1.1 [a; b] "all" in
  first.1.2 = 2%nat ∧ second.1.2 = 0%nat ∧ second.1.1 = first.1.1.
Proof.
  cbv zeta. split; [vm_compute; reflexivity|].
  apply (save_twice (Storage.mk "data")
           (fun _ : nat => datetime.mk 2025 1 1 0 0 2 0%Z)
           (fun _ : nat => datetime.mk 2025 1 1 0 0 2 0%Z) ∅
           [Article.init (datetime.mk 2025 1 1 0 0 0 0%Z)
              "New LLM released" "https://example.org/llm" "Hacker News" None None;
            Article.init (datetime.mk 2025 1 1 0 0 1 0%Z)
              "Thai food trends" "https://example.org/thai" "Hacker News" None None]
           "all").
  - repeat constructor.
  - vm_compute. lia.
Defined.

(** A batch of 101 articles saved twice into an empty directory: the first
    call evicts the oldest article, and the second call counts it as new. *)
Lemma second_save_counts_evicted :
  let batch := hourly_article <$> seq 0 101 in
  let clock := fun _ : nat => datetime.mk 2025 1 1 0 0 0 0%Z in
  let first := Storage.save_articles (Storage.mk "data") clock ∅ batch "all" in
  let second := Storage.save_articles (Storage.mk "data") clock first.1.1 batch "all" in
  first.1.2 = 101%nat
  ∧ length (Storage.load_articles (Storage.mk "data") clock first.1.1 "all").1 = 100%nat
  ∧ second.1.2 = 1%nat
  ∧ second.1.2 ≠ 0%nat.
Proof. cbv zeta. split_and!; vm_compute; (reflexivity || discriminate). Qed.

(** ** Known articles *)

Lemma fresh_drop_known (existing before after : list Article.t) (b : Article.t) :
  Article.id b ∈ (Article.id <$> existing) →
  fresh existing (before ++ b :: after) = fresh existing (before ++ after).
Proof.
  intros Hknown. unfold fresh. rewrite !filter_app, filter_cons.
  rewrite decide_False; [done|]. rewrite elem_of_list_to_set. tauto.
Qed.

Lemma save_articles_fresh (self : Storage.t) (clock : nat → datetime.t)
    (fs : gmap string File) (articles articles' : list Article.t) (topic : string) :
  fresh (Storage.load_articles self clock fs topic).1 articles
  = fresh (Storage.load_articles self clock fs topic).1 articles' →
  Storage.save_articles self clock fs articles topic
  = Storage.save_articles self clock fs articles' topic.
Proof.
  unfold Storage.save_articles, Storage.load_articles, fresh.
  destruct (fs !! Storage.file_path self topic) as [f|]; simpl.
  - destruct (Storage.read clock f) as [l|e]; simpl; by intros ->.
  - by intros ->.
Qed.

(** C7. An incoming article whose id is among the ids of the articles
    loaded from the file is dropped: the call gives the same files, the same
    count and the same log as the call without it, and every article of that
    id in the file after the call is one of the loaded articles, with all its
    fields; it is a record of the file before the call, when that file was
    written by [save_articles]. *)
Theorem known_article_dropped (self : Storage.t) (clock : nat → datetime.t)
    (fs : gmap string File) (before after : list Article.t) (b : Article.t)
    (topic : string) :
  let existing := (Storage.load_articles self clock fs topic).1 in
  Article.id b ∈ (Article.id <$> existing) →
  Storage.save_articles self clock fs (before ++ b :: after) topic
  = Storage.save_articles self clock fs (before ++ after) topic
  ∧ ∃ stored : list Article.t,
      (Storage.save_articles self clock fs (before ++ b :: after) topic).1.1
        !! Storage.file_path self topic
      = Some (Json (Article.to_dict <$> stored))
      ∧ (∀ x, x ∈ stored → Article.id x = Article.id b → x ∈ existing)
      ∧ (∀ old, Forall constructed old →
           fs !! Storage.file_path self topic = Some (Json (Article.to_dict <$> old)) →
           ∀ x, x ∈ stored → Article.id x = Article.id b →
                Article.to_dict x ∈ Article.to_dict <$> old).
Proof.
  intros existing Hknown. split.
  - apply save_articles_fresh. by apply fresh_drop_known.
  - destruct (save_articles_unfold self clock fs (before ++ b :: after) topic)
      as [log ->].
    simpl. eexists. split; [apply lookup_insert_eq|].
    assert (Hold : ∀ x, x ∈ merged existing (before ++ b :: after) →
                        Article.id x = Article.id b → x ∈ existing).
    { intros x [Hx | [_ Hnew]%fresh_spec]%merged_elem_of Hid; [done|].
      by rewrite Hid in Hnew. }
    split; [exact Hold|].
    intros old Hcons Hfile x Hx Hid. apply list_elem_of_fmap_2.
    specialize (Hold x Hx Hid). subst existing.
    by rewrite (load_articles_written self clock fs topic old Hcons Hfile) in Hold.
Qed.

Lemma known_article_dropped_witness :
  let a := Article.init (datetime.mk 2025 1 1 0 0 0 0%Z)
             "New LLM released" "https://example.org/llm" "Hacker News"
             (Some "First summary") None in
  let b := Article.init (datetime.mk 2025 1 2 0 0 0 0%Z)
             "New LLM released" "https://example.org/llm" "Hacker News"
             (Some "Edited summary") None in
  let c := Article.init (datetime.mk 2025 1 2 0 0 1 0%Z)
             "Thai food trends" "https://example.org/thai" "Hacker News" None None in
  let clock := fun _ : nat => datetime.mk 2025 1 2 0 0 2 0%Z in
  let fs : gmap string File := {[ "data/all_articles.json" := Json [Article.to_dict a] ]} in
  Storage.save_articles (Storage.mk "data") clock fs [b; c] "all"
  = Storage.save_articles (Storage.mk "data") clock fs [c] "all".
Proof.
  cbv zeta.
  apply (known_article_dropped (Storage.mk "data")
           (fun _ : nat => datetime.mk 2025 1 2 0 0 2 0%Z)
           {[ "data/all_articles.json" :=
                Json [Article.to_dict
                        (Article.init (datetime.mk 2025 1 1 0 0 0 0%Z)
                           "New LLM released" "https://example.org/llm" "Hacker News"
                           (Some "First summary") None)] ]}
           []
           [Article.init (datetime.mk 2025 1 2 0 0 1 0%Z)
              "Thai food trends" "https://example.org/thai" "Hacker News" None None]
           (Article.init (datetime.mk 2025 1 2 0 0 0 0%Z)
              "New LLM released" "https://example.org/llm" "Hacker News"
              (Some "Edited summary") None)
           "all").
  vm_compute. apply list_elem_of_here.
Defined.

(** The stored summary survives the call. *)
Example known_article_kept :
  let a := Article.init (datetime.mk 2025 1 1 0 0 0 0%Z)
             "New LLM released" "https://example.org/llm" "Hacker News"
             (Some "First summary") None in
  let b := Article.init (datetime.mk 2025 1 2 0 0 0 0%Z)
             "New LLM released" "https://example.org/llm" "Hacker News"
             (Some "Edited summary") None in
  let clock := fun _ : nat => datetime.mk 2025 1 2 0 0 2 0%Z in
  let fs : gmap string File := {[ "data/all_articles.json" := Json [Article.to_dict a] ]} in
  Storage.save_articles (Storage.mk "data") clock fs [b] "all"
  = (fs, 0%nat, [Log INFO "Saved 0 new articles to data/all_articles.json"]).
Proof. vm_compute. reflexivity. Qed.

(** ** Classification *)

#[local] Arguments Topic.matches : simpl never.

Lemma set_topics_same (a : Article.t) : Article.set_topics (Article.topics a) a = a.
Proof. by destruct a. Qed.

Lemma existsb_matching (topics : list Topic.t) (text : string) :
  existsb (fun t => Topic.matches t text) topics = false ↔ matching topics text = [].
Proof.
  unfold matching. induction topics as [|t topics IH]; simpl; [done|].
  rewrite filter_cons. destruct (Topic.matches t text); simpl; [done | exact IH].
Qed.

Lemma matching_cons (t : Topic.t) (ts : list Topic.t) (text : string) :
  matching (t :: ts) text
  = if Topic.matches t text then t :: matching ts text else matching ts text.
Proof. unfold matching. rewrite filter_cons. by destruct (Topic.matches t text). Qed.

Lemma hits_cons (t : Topic.t) (ts : list Topic.t) (text k : string) :
  hits (t :: ts) text k
  = if Topic.matches t text
    then if decide (Topic.name t = k) then S (hits ts text k) else hits ts text k
    else hits ts text k.
Proof.
  unfold hits. rewrite matching_cons. destruct (Topic.matches t text); [|done].
  rewrite filter_cons. by case_decide.
Qed.

Lemma visit_topic_eq (text : string) (r : ref) (h : heap)
    (res : gmap string (list ref)) (m : bool) (t : Topic.t) :
  Classifier.visit_topic text r (h, res, m) t
  = if Topic.matches t text
    then (<[r := Classifier.append_topic (Topic.name t) (h r)]> h,
          alter (fun bucket => bucket ++ [r]) (Topic.name t) res, true)
    else (h, res, m).
Proof. reflexivity. Qed.

Lemma visit_topics (text : string) (r : ref) (ts : list Topic.t)
    (h : heap) (res : gmap string (list ref)) (m : bool) :
  let st := foldl (Classifier.visit_topic text r) (h, res, m) ts in
  st.2 = m || existsb (fun t => Topic.matches t text) ts
  ∧ (∀ x, st.1.1 x
          = if decide (x = r)
            then Article.set_topics
                   (Article.topics (h r) ++ (Topic.name <$> matching ts text)) (h r)
            else h x)
  ∧ (∀ k, st.1.2 !! k = (fun b => b ++ replicate (hits ts text k) r) <$> res !! k).
Proof.
  revert h res m. induction ts as [|t ts IH]; intros h res m; cbv zeta.
  - simpl. split_and!.
    + by rewrite orb_false_r.
    + intros x. case_decide as Hx; [|done].
      subst x. by rewrite app_nil_r, set_topics_same.
    + intros k. unfold hits. simpl. destruct (res !! k); simpl; [|done].
      by rewrite app_nil_r.
  - cbn [foldl existsb]. rewrite visit_topic_eq, matching_cons.
    destruct (Topic.matches t text) eqn:Hmatch.
    + destruct (IH (<[r := Classifier.append_topic (Topic.name t) (h r)]> h)
                  (alter (fun bucket => bucket ++ [r]) (Topic.name t) res) true)
        as (Hm & Hh & Hres).
      split_and!.
      * rewrite Hm. by rewrite orb_true_r.
      * intros x. rewrite Hh. case_decide as Hx; [|by rewrite fn_lookup_insert_ne].
        rewrite fn_lookup_insert. unfold Classifier.append_topic. simpl.
        by rewrite <- app_assoc.
      * intros k. rewrite Hres, lookup_alter, hits_cons, Hmatch.
        case_decide as Hk; [|done].
        subst k. rewrite <- option_fmap_compose.
        destruct (res !! Topic.name t); simpl; [|done].
        by rewrite <- app_assoc.
    + destruct (IH h res m) as (Hm & Hh & Hres). split_and!; [done..|].
      intros k. by rewrite hits_cons, Hmatch.
Qed.

Lemma hits_nil (topics : list Topic.t) (text k : string) :
  matching topics text = [] → hits topics text k = 0%nat.
Proof. unfold hits. by intros ->. Qed.

Lemma visit_article_spec (topics : list Topic.t) (h : heap)
    (res : gmap string (list ref)) (r : ref) :
  let st := Classifier.visit_article topics (h, res) r in
  (∀ x, st.1 x
        = Article.set_topics
            (Article.topics (h x)
             ++ (if decide (r = x)
                 then Topic.name <$> matching topics (search_text (h x))
                 else []))
            (h x))
  ∧ (∀ k, st.2 !! k
          = (fun b => b ++ contribution topics (search_text (h r)) r k) <$> res !! k).
Proof.
  cbv zeta. unfold Classifier.visit_article. fold (search_text (h r)).
  destruct (visit_topics (search_text (h r)) r topics h res false) as (Hm & Hh & Hres).
  destruct (foldl _ _ topics) as [[h1 res1] m1]. simpl in Hm, Hh, Hres.
  assert (Hheap : ∀ x, h1 x
            = Article.set_topics
                (Article.topics (h x)
                 ++ (if decide (r = x)
                     then Topic.name <$> matching topics (search_text (h x))
                     else []))
                (h x)).
  { intros x. rewrite Hh. destruct (decide (x = r)) as [->|Hx].
    - by rewrite decide_True.
    - rewrite decide_False by done. by rewrite app_nil_r, set_topics_same. }
  unfold contribution. destruct m1; simpl.
  - split; [done|]. intros k. rewrite Hres.
    rewrite decide_False; [by rewrite app_nil_r|].
    intros [Hnone%existsb_matching _]. congruence.
  - symmetry in Hm. apply existsb_matching in Hm.
    split; [done|]. intros k. rewrite lookup_alter, !Hres, Hm.
    rewrite !hits_nil by done. simpl.
    case_decide as Hk.
    + subst k. rewrite decide_True by done.
      destruct (res !! "uncategorized"); simpl; [by rewrite app_nil_r | done].
    + rewrite decide_False; [done|]. intros [_ ->]. done.
Qed.

Lemma search_text_set_topics (v : list string) (a : Article.t) :
  search_text (Article.set_topics v a) = search_text a.
Proof. reflexivity. Qed.

Lemma bucket_ext (topics : list Topic.t) (h h' : heap) (articles : list ref)
    (k : string) :
  (∀ x, search_text (h' x) = search_text (h x)) →
  bucket topics h' articles k = bucket topics h articles k.
Proof.
  intros Hext. unfold bucket. induction articles as [|r articles IH]; [done|].
  by rewrite !bind_cons, IH, Hext.
Qed.

Lemma visit_articles (topics : list Topic.t) (articles : list ref) (h : heap)
    (res : gmap string (list ref)) :
  let st := foldl (Classifier.visit_article topics) (h, res) articles in
  (∀ x, st.1 x
        = Article.set_topics (Article.topics (h x) ++ labels topics h articles x) (h x))
  ∧ (∀ k, st.2 !! k = (fun b => b ++ bucket topics h articles k) <$> res !! k).
Proof.
  revert h res. induction articles as [|r articles IH]; intros h res; cbv zeta.
  - simpl. split.
    + intros x. unfold labels. simpl. by rewrite app_nil_r, set_topics_same.
    + intros k. unfold bucket. simpl. destruct (res !! k); simpl; [|done].
      by rewrite app_nil_r.
  - cbn [foldl].
    destruct (visit_article_spec topics h res r) as [Hh1 Hres1].
    destruct (Classifier.visit_article topics (h, res) r) as [h1 res1].
    simpl in Hh1, Hres1.
    assert (Htext : ∀ x, search_text (h1 x) = search_text (h x)).
    { intros x. by rewrite Hh1, search_text_set_topics. }
    destruct (IH h1 res1) as [Hh Hres]. split.
    + intros x. rewrite Hh. unfold labels. rewrite bind_cons, Htext.
      rewrite Hh1 at 1 2. simpl. by rewrite <- app_assoc.
    + intros k. rewrite Hres, Hres1, (bucket_ext topics h h1) by done.
      unfold bucket at 2. rewrite bind_cons. fold (bucket topics h articles k).
      rewrite <- option_fmap_compose. destruct (res !! k); simpl; [|done].
      by rewrite <- app_assoc.
Qed.

Lemma init_buckets (topics : list Topic.t) (d : gmap string (list ref)) (k : string) :
  foldl (fun d topic => <[Topic.name topic := []]> d) d topics !! k
  = if decide (k ∈ Topic.name <$> topics) then Some [] else d !! k.
Proof.
  revert d. induction topics as [|t topics IH]; intros d.
  - simpl. reflexivity.
  - cbn [foldl]. rewrite fmap_cons, IH.
    destruct (decide (k ∈ Topic.name <$> topics)) as [Hin|Hnotin].
    + rewrite decide_True; [done | by right].
    + destruct (decide (Topic.name t = k)) as [<-|Hne].
      * rewrite lookup_insert_eq. rewrite decide_True; [done | left].
      * rewrite lookup_insert_ne by done. rewrite decide_False; [done|].
        intros [?|?]%elem_of_cons; congruence.
Qed.

(** The dictionary that [classify] returns. *)
Lemma classify_lookup (topics : list Topic.t) (h : heap) (articles : list ref)
    (k : string) (b : list ref) :
  (Classifier.classify topics h articles).2 !! k = Some b
  ↔ (k = "uncategorized" ∨ k ∈ Topic.name <$> topics)
    ∧ b = bucket topics h articles k ∧ b ≠ [].
Proof.
  unfold Classifier.classify.
  destruct (visit_articles topics articles h
              (<["uncategorized" := []]>
                 (foldl (fun d topic => <[Topic.name topic := []]> d) ∅ topics)))
    as [_ Hres].
  destruct (foldl (Classifier.visit_article topics) _ articles) as [h' res'].
  simpl in Hres. simpl. rewrite map_lookup_filter_Some, Hres. simpl.
  destruct (decide ("uncategorized" = k)) as [<-|Hne].
  - rewrite lookup_insert_eq. simpl. split.
    + intros [[= <-] Hb]. auto.
    + intros (_ & -> & Hb). done.
  - rewrite lookup_insert_ne, init_buckets, lookup_empty by done.
    case_decide as Hk; simpl; split.
    + intros [[= <-] Hb]. auto.
    + intros (_ & -> & Hb). done.
    + intros [[=] _].
    + intros ([?|?] & _); congruence.
Qed.

Lemma classify_heap (topics : list Topic.t) (h : heap) (articles : list ref)
    (x : ref) :
  (Classifier.classify topics h articles).1 x
  = Article.set_topics (Article.topics (h x) ++ labels topics h articles x) (h x).
Proof.
  unfold Classifier.classify.
  destruct (visit_articles topics articles h
              (<["uncategorized" := []]>
                 (foldl (fun d topic => <[Topic.name topic := []]> d) ∅ topics)))
    as [Hh _].
  destruct (foldl (Classifier.visit_article topics) _ articles) as [h' res'].
  apply Hh.
Qed.

Lemma labels_not_in (topics : list Topic.t) (h : heap) (articles : list ref) (x : ref) :
  x ∉ articles → labels topics h articles x = [].
Proof.
  unfold labels. induction articles as [|r articles IH]; [done|].
  intros [Hne Hnotin]%not_elem_of_cons. rewrite bind_cons, IH by done.
  by rewrite decide_False.
Qed.

Lemma labels_in (topics : list Topic.t) (h : heap) (articles : list ref) (x : ref) :
  x ∈ articles →
  ∃ p q, labels topics h articles x
         = p ++ (Topic.name <$> matching topics (search_text (h x))) ++ q.
Proof.
  unfold labels. induction articles as [|r articles IH]; [by intros ?%elem_of_nil|].
  rewrite bind_cons. destruct (decide (r = x)) as [->|Hne].
  - intros _. by exists [], (labels topics h articles x).
  - intros [?|Hin]%elem_of_cons; [congruence|].
    destruct (IH Hin) as (p & q & ->). by exists p, q.
Qed.

Lemma labels_once (topics : list Topic.t) (h : heap) (articles : list ref) (x : ref) :
  NoDup articles → x ∈ articles →
  labels topics h articles x = Topic.name <$> matching topics (search_text (h x)).
Proof.
  induction 1 as [|r articles Hr Hnodup IH]; [by intros ?%elem_of_nil|].
  unfold labels. rewrite bind_cons. fold (labels topics h articles x).
  destruct (decide (r = x)) as [->|Hne].
  - intros _. by rewrite labels_not_in, app_nil_r.
  - intros [?|Hin]%elem_of_cons; [congruence|]. by rewrite IH.
Qed.

Lemma contribution_hit (topics : list Topic.t) (text : string) (r : ref) (t : Topic.t) :
  t ∈ topics → Topic.matches t text = true →
  r ∈ contribution topics text r (Topic.name t).
Proof.
  intros Hin Hmatch. unfold contribution. apply elem_of_app. left.
  apply elem_of_replicate. split; [done|].
  unfold hits. intros Hzero%nil_length_inv.
  eapply filter_nil_not_elem_of; [exact Hzero | reflexivity |].
  by apply list_elem_of_filter.
Qed.

Lemma contribution_miss (topics : list Topic.t) (text : string) (r : ref) :
  (∀ t, t ∈ topics → Topic.matches t text = false) →
  r ∈ contribution topics text r "uncategorized".
Proof.
  intros Hnone. unfold contribution. apply elem_of_app. right.
  rewrite decide_True; [left|]. split; [|done].
  apply elem_of_nil_inv. intros t [Hmatch Hin]%list_elem_of_filter.
  rewrite (Hnone t Hin) in Hmatch. done.
Qed.

Lemma bucket_elem_of (topics : list Topic.t) (h : heap) (articles : list ref)
    (k : string) (r : ref) :
  r ∈ articles → r ∈ contribution topics (search_text (h r)) r k →
  r ∈ bucket topics h articles k.
Proof. intros Hin Hc. unfold bucket. apply list_elem_of_bind. eauto. Qed.

(** C6. Classification is multi-label.  An article of the list goes into the
    bucket of every topic that matches its search text, so into both buckets
    when two topics match; its [topics] field then holds, after what it held
    before, the names of the matching topics in the order of the topic list.
    An article that no topic matches goes into the bucket "uncategorized".
    No bucket of the returned dictionary is empty. *)
Theorem classify_multi_label (topics : list Topic.t) (h : heap) (articles : list ref) :
  let h' := (Classifier.classify topics h articles).1 in
  let result := (Classifier.classify topics h articles).2 in
  (∀ r t, r ∈ articles → t ∈ topics →
          Topic.matches t (search_text (h r)) = true →
          ∃ b, result !! Topic.name t = Some b ∧ r ∈ b)
  ∧ (∀ r t1 t2 before between after,
       r ∈ articles → topics = before ++ t1 :: between ++ t2 :: after →
       Topic.matches t1 (search_text (h r)) = true →
       Topic.matches t2 (search_text (h r)) = true →
       ∃ p q s, Article.topics (h' r)
                = Article.topics (h r) ++ p ++ Topic.name t1 :: q ++ Topic.name t2 :: s)
  ∧ (∀ r, NoDup articles → r ∈ articles →
          h' r = Article.set_topics
                   (Article.topics (h r)
                    ++ (Topic.name <$> matching topics (search_text (h r))))
                   (h r))
  ∧ (∀ r, r ∈ articles →
          (∀ t, t ∈ topics → Topic.matches t (search_text (h r)) = false) →
          ∃ b, result !! "uncategorized" = Some b ∧ r ∈ b)
  ∧ (∀ k b, result !! k = Some b → b ≠ []).
Proof.
  cbv zeta. split_and!.
  - intros r t Hr Ht Hmatch. exists (bucket topics h articles (Topic.name t)).
    assert (Hin : r ∈ bucket topics h articles (Topic.name t)).
    { by apply bucket_elem_of, contribution_hit. }
    split; [|done]. apply classify_lookup. split_and!; [|done|].
    + right. by apply list_elem_of_fmap_2.
    + by eapply elem_of_not_nil.
  - intros r t1 t2 before between after Hr -> Hm1 Hm2.
    rewrite classify_heap. simpl.
    destruct (labels_in (before ++ t1 :: between ++ t2 :: after) h articles r Hr)
      as (p & q & ->).
    unfold matching. rewrite filter_app, filter_cons_True, filter_app,
      filter_cons_True by done.
    rewrite !fmap_app, !fmap_cons, !fmap_app, !fmap_cons.
    set (keep := fun t => Topic.matches t (search_text (h r)) = true).
    exists (p ++ (Topic.name <$> filter keep before)),
      (Topic.name <$> filter keep between),
      ((Topic.name <$> filter keep after) ++ q).
    by simplify_list_eq.
  - intros r Hnodup Hr. by rewrite classify_heap, labels_once.
  - intros r Hr Hnone. exists (bucket topics h articles "uncategorized").
    assert (Hin : r ∈ bucket topics h articles "uncategorized").
    { by apply bucket_elem_of, contribution_miss. }
    split; [|done]. apply classify_lookup. split_and!; [by left | done |].
    by eapply elem_of_not_nil.
  - intros k b (_ & _ & Hb)%classify_lookup. done.
Qed.

Lemma classify_multi_label_witness :
  let result := (Classifier.classify sample_topics sample_heap [0; 1; 2]%nat).2 in
  (∃ b, result !! "AI" = Some b ∧ 0%nat ∈ b)
  ∧ (∃ b, result !! "Programming" = Some b ∧ 0%nat ∈ b)
  ∧ (∃ b, result !! "uncategorized" = Some b ∧ 2%nat ∈ b).
Proof.
  cbv zeta. split_and!.
  - apply (proj1 (classify_multi_label sample_topics sample_heap [0; 1; 2]%nat)
             0%nat (Topic.init "AI" ["ai"; "llm"] (Some []))).
    + apply list_elem_of_here.
    + apply list_elem_of_here.
    + vm_compute. reflexivity.
  - apply (proj1 (classify_multi_label sample_topics sample_heap [0; 1; 2]%nat)
             0%nat (Topic.init "Programming" ["python"; "rust"] (Some []))).
    + apply list_elem_of_here.
    + apply list_elem_of_further, list_elem_of_here.
    + vm_compute. reflexivity.
  - apply (proj1 (proj2 (proj2 (proj2
             (classify_multi_label sample_topics sample_heap [0; 1; 2]%nat))))
             2%nat).
    + do 2 apply list_elem_of_further. apply list_elem_of_here.
    + intros t Ht. unfold sample_topics in Ht.
      repeat (apply elem_of_cons in Ht as [->|Ht]; [vm_compute; reflexivity|]).
      by apply elem_of_nil in Ht.
Defined.

(** The whole result on the sample: the first article is in two buckets and
    carries both names, in the order of the topic list. *)
Example classify_sample :
  let out := Classifier.classify sample_topics sample_heap [0; 1; 2]%nat in
  out.2 !! "AI" = Some [0; 1]%nat
  ∧ out.2 !! "Programming" = Some [0%nat]
  ∧ out.2 !! "Security" = None
  ∧ out.2 !! "uncategorized" = Some [2%nat]
  ∧ Article.topics (out.1 0%nat) = ["AI"; "Programming"]
  ∧ Article.topics (out.1 1%nat) = ["AI"]
  ∧ Article.topics (out.1 2%nat) = [].
Proof. cbv zeta. split_and!; vm_compute; reflexivity. Qed.

(** * Further properties of the code *)

(** ** Paths *)

Lemma str_length_append (s t : string) :
  String.length (s +:+ t) = (String.length s + String.length t)%nat.
Proof. induction s as [|c s IH]; [done|]. rewrite append_String. simpl. by rewrite IH. Qed.

Lemma append_inj_l (p a b : string) : p +:+ a = p +:+ b → a = b.
Proof.
  induction p as [|c p IH]; [done|]. rewrite !append_String. intros [= H]. auto.
Qed.

Lemma append_inj_r (a b s : string) : a +:+ s = b +:+ s → a = b.
Proof.
  revert b. induction a as [|c a IH]; intros [|c' b] Heq.
  - done.
  - apply (f_equal String.length) in Heq.
    rewrite append_Empty, append_String in Heq. simpl in Heq.
    rewrite str_length_append in Heq. lia.
  - apply (f_equal String.length) in Heq.
    rewrite append_Empty, append_String in Heq. simpl in Heq.
    rewrite str_length_append in Heq. lia.
  - rewrite !append_String in Heq. injection Heq as -> Heq. f_equal. by apply IH.
Qed.

Lemma file_path_inj (self : Storage.t) (topic topic' : string) :
  Storage.file_path self topic = Storage.file_path self topic' → topic = topic'.
Proof.
  unfold Storage.file_path. intros Heq.
  apply append_inj_l, append_inj_l in Heq. by apply append_inj_r in Heq.
Qed.

(** ** More on the article store *)


(** X1. What [save_articles] has written is what [load_articles] returns:
    after a call with a batch of article objects, a load of the partition
    gives, without any log record, the articles of the file, which are the
    loaded and the new articles in descending order, cut to 100. *)
Theorem load_returns_saved (self : Storage.t) (clock clock' : nat → datetime.t)
    (fs : gmap string File) (articles : list Article.t) (topic : string) :
  Forall constructed articles →
  let existing := (Storage.load_articles self clock fs topic).1 in
  let fs' := (Storage.save_articles self clock fs articles topic).1.1 in
  ∃ stored,
    fs' !! Storage.file_path self topic = Some (Json (Article.to_dict <$> stored))
    ∧ Storage.load_articles self clock' fs' topic = (stored, [])
    ∧ stored = take 100 (sort_desc Storage.sort_key (existing ++ fresh existing articles)).
Proof.
  intros Hbatch existing fs'. exists (merged existing articles).
  assert (Hkept : Forall constructed (merged existing articles)).
  { apply merged_constructed; [apply load_articles_constructed | done]. }
  assert (Hfile : fs' !! Storage.file_path self topic
                  = Some (Json (Article.to_dict <$> merged existing articles))).
  { subst fs' existing.
    destruct (save_articles_unfold self clock fs articles topic) as [log ->].
    apply lookup_insert_eq. }
  split_and!; [done | | done].
  by apply load_articles_written.
Qed.

Lemma load_returns_saved_witness :
  let a := Article.init (datetime.mk 2025 1 1 0 0 0 0%Z)
             "New LLM released" "https://example.org/llm" "Hacker News" None None in
  let b := Article.init (datetime.mk 2025 1 1 0 0 1 0%Z)
             "Thai food trends" "https://example.org/thai" "Hacker News" None None in
  let clock := fun _ : nat => datetime.mk 2025 1 1 0 0 2 0%Z in
  let fs' := (Storage.save_articles (Storage.mk "data") clock ∅ [a; b] "all").1.1 in
  ∃ stored,
    fs' !! "data/all_articles.json" = Some (Json (Article.to_dict <$> stored))
    ∧ Storage.load_articles (Storage.mk "data") clock fs' "all" = (stored, [])
    ∧ stored = [b; a].
Proof.
  cbv zeta.
  destruct (load_returns_saved (Storage.mk "data")
              (fun _ : nat => datetime.mk 2025 1 1 0 0 2 0%Z)
              (fun _ : nat => datetime.mk 2025 1 1 0 0 2 0%Z) ∅
              [Article.init (datetime.mk 2025 1 1 0 0 0 0%Z)
                 "New LLM released" "https://example.org/llm" "Hacker News" None None;
               Article.init (datetime.mk 2025 1 1 0 0 1 0%Z)
                 "Thai food trends" "https://example.org/thai" "Hacker News" None None]
              "all")
    as (stored & Hfile & Hload & Hstored).
  - repeat constructor.
  - exists stored. split_and!; [exact Hfile | exact Hload |].
    rewrite Hstored. vm_compute. reflexivity.
Defined.

(** X2. A call of [save_articles] for one partition leaves the file of
    every other partition as it was, so a load of another partition returns
    what it returned before. *)
Theorem save_leaves_other_partitions (self : Storage.t)
    (clock clock' : nat → datetime.t) (fs : gmap string File)
    (articles : list Article.t) (topic topic' : string) :
  topic' ≠ topic →
  let fs' := (Storage.save_articles self clock fs articles topic).1.1 in
  fs' !! Storage.file_path self topic' = fs !! Storage.file_path self topic'
  ∧ Storage.load_articles self clock' fs' topic'
    = Storage.load_articles self clock' fs topic'.
Proof.
  intros Hne fs'.
  assert (Hfile : fs' !! Storage.file_path self topic'
                  = fs !! Storage.file_path self topic').
  { subst fs'.
    destruct (save_articles_unfold self clock fs articles topic) as [log ->].
    simpl. apply lookup_insert_ne. intros Heq%file_path_inj. congruence. }
  split; [done|]. unfold Storage.load_articles. by rewrite Hfile.
Qed.

Lemma save_leaves_other_partitions_witness :
  let a := Article.init (datetime.mk 2025 1 1 0 0 0 0%Z)
             "New LLM released" "https://example.org/llm" "Hacker News" None None in
  let clock := fun _ : nat => datetime.mk 2025 1 1 0 0 2 0%Z in
  let fs : gmap string File := {[ "data/AI_articles.json" := Json [Article.to_dict a] ]} in
  let fs' := (Storage.save_articles (Storage.mk "data") clock fs [a] "all").1.1 in
  fs' !! "data/AI_articles.json" = fs !! "data/AI_articles.json"
  ∧ Storage.load_articles (Storage.mk "data") clock fs' "AI"
    = Storage.load_articles (Storage.mk "data") clock fs "AI".
Proof.
  cbv zeta.
  apply (save_leaves_other_partitions (Storage.mk "data")
           (fun _ : nat => datetime.mk 2025 1 1 0 0 2 0%Z)
           (fun _ : nat => datetime.mk 2025 1 1 0 0 2 0%Z)
           {[ "data/AI_articles.json" :=
                Json [Article.to_dict
                        (Article.init (datetime.mk 2025 1 1 0 0 0 0%Z)
                           "New LLM released" "https://example.org/llm" "Hacker News"
                           None None)] ]}
           [Article.init (datetime.mk 2025 1 1 0 0 0 0%Z)
              "New LLM released" "https://example.org/llm" "Hacker News" None None]
           "all" "AI").
  discriminate.
Defined.

(** X3. [save_articles] keeps the most recent articles.  The loaded
    articles and the new ones of the batch are split into the stored ones, of
    which there are 100 or all of them, and the evicted ones; no evicted
    article has a greater [published] than a stored one, and among articles
    of equal [published] the order of loading and of the batch decides. *)
Theorem save_keeps_most_recent (self : Storage.t) (clock : nat → datetime.t)
    (fs : gmap string File) (articles : list Article.t) (topic : string) :
  let existing := (Storage.load_articles self clock fs topic).1 in
  let pool := existing ++ fresh existing articles in
  let fs' := (Storage.save_articles self clock fs articles topic).1.1 in
  ∃ stored evicted,
    fs' !! Storage.file_path self topic = Some (Json (Article.to_dict <$> stored))
    ∧ stored ++ evicted ≡ₚ pool
    ∧ length stored = (100 `min` length pool)%nat
    ∧ (∀ x y, x ∈ stored → y ∈ evicted →
              str_le (Article.published y) (Article.published x))
    ∧ (∀ p, filter (fun a => Article.published a = p) (stored ++ evicted)
            = filter (fun a => Article.published a = p) pool).
Proof.
  intros existing pool fs'.
  exists (take 100 (sort_desc Storage.sort_key pool)),
         (drop 100 (sort_desc Storage.sort_key pool)).
  split_and!.
  - subst fs' existing pool.
    destruct (save_articles_unfold self clock fs articles topic) as [log ->].
    simpl. by rewrite lookup_insert_eq.
  - by rewrite take_drop, sort_desc_perm.
  - by rewrite length_take, sort_desc_length.
  - intros x y Hx Hy.
    pose proof (sort_desc_sorted Storage.sort_key pool) as Hsorted.
    rewrite <- (take_drop 100 (sort_desc Storage.sort_key pool)) in Hsorted.
    apply sorted_by_key in Hsorted.
    exact (StronglySorted_app_1_elem_of _ _ _ _ _ Hsorted Hx Hy).
  - intros p. rewrite take_drop.
    etrans; [apply (list_filter_iff _ (fun a => Storage.sort_key a = p));
             intros a; by rewrite sort_key_published|].
    rewrite sort_desc_stable.
    apply list_filter_iff. intros a. by rewrite sort_key_published.
Qed.



Lemma from_dict_required (now : datetime.t) (d : ArticleDict) :
  has_required_keys d ↔ ∃ a, Article.from_dict now d = Ok a.
Proof.
  unfold has_required_keys, Article.from_dict.
  destruct (d_title d), (d_url d), (d_source d); simpl; split;
    try (intros [a [=]]); try (intros (? & ? & ?); by apply is_Some_None in H
      || by apply is_Some_None in H0 || by apply is_Some_None in H1);
    eauto.
Qed.

Lemma from_dicts_complete (clock : nat → datetime.t) (data : list ArticleDict) :
  Forall has_required_keys data ↔ ∃ l, Storage.from_dicts clock data = Ok l.
Proof.
  revert clock. induction data as [|d data IH]; intros clock.
  - split; [by exists [] | constructor].
  - cbn [Storage.from_dicts]. rewrite Forall_cons, (from_dict_required (clock O) d),
      (IH (fun i => clock (S i))).
    split.
    + intros [[a ->] [l ->]]. simpl. eauto.
    + destruct (Article.from_dict (clock O) d) as [a|e]; simpl.
      * destruct (Storage.from_dicts _ data) as [l|e]; simpl; [eauto|].
        intros [l' [=]].
      * intros [l' [=]].
Qed.

(** X5. A file is loaded as a whole or not at all.  When every record has
    the keys title, url and source, [load_articles] returns one article per
    record and logs nothing; when one record lacks one of them, it returns
    the empty list, whatever the other records hold, and logs one error. *)
Theorem load_all_or_nothing (self : Storage.t) (clock : nat → datetime.t)
    (fs : gmap string File) (topic : string) (data : list ArticleDict) :
  fs !! Storage.file_path self topic = Some (Json data) →
  (Forall has_required_keys data →
   ∃ l, Storage.load_articles self clock fs topic = (l, [])
        ∧ length l = length data)
  ∧ (¬ Forall has_required_keys data →
     ∃ e, Storage.load_articles self clock fs topic
          = ([], [Log ERROR ("Could not load articles: " +:+ exn_str e)])).
Proof.
  intros Hfile. unfold Storage.load_articles. rewrite Hfile. simpl.
  rewrite (from_dicts_complete clock data).
  destruct (Storage.from_dicts clock data) as [l|e] eqn:Hl; split.
  - intros _. exists l. split; [done|]. by eapply from_dicts_length.
  - intros []. eauto.
  - intros [l [=]].
  - intros _. by exists e.
Qed.

Lemma load_all_or_nothing_witness :
  let clock := fun _ : nat => datetime.mk 2025 1 1 0 0 2 0%Z in
  let good := mkDict None (Some "Thai food trends") (Some "u") (Some "s") None None None in
  let bad := mkDict None (Some "No url") None (Some "s") None None None in
  (∃ l, Storage.load_articles (Storage.mk "data") clock
          {[ "data/all_articles.json" := Json [good; good] ]} "all" = (l, [])
        ∧ length l = 2%nat)
  ∧ (∃ e, Storage.load_articles (Storage.mk "data") clock
            {[ "data/all_articles.json" := Json [good; bad] ]} "all"
          = ([], [Log ERROR ("Could not load articles: " +:+ exn_str e)])).
Proof.
  cbv zeta.
  pose (good := mkDict None (Some "Thai food trends") (Some "u") (Some "s")
                  None None None).
  pose (bad := mkDict None (Some "No url") None (Some "s") None None None).
  split.
  - refine (proj1 (load_all_or_nothing (Storage.mk "data")
                     (fun _ : nat => datetime.mk 2025 1 1 0 0 2 0%Z)
                     {[ "data/all_articles.json" := Json [good; good] ]} "all"
                     [good; good] _) _); [reflexivity|].
    repeat constructor; by eexists.
  - refine (proj2 (load_all_or_nothing (Storage.mk "data")
                     (fun _ : nat => datetime.mk 2025 1 1 0 0 2 0%Z)
                     {[ "data/all_articles.json" := Json [good; bad] ]} "all"
                     [good; bad] _) _); [reflexivity|].
    intros Hall. apply Forall_cons in Hall as [_ Hall].
    apply Forall_cons in Hall as [(_ & Hurl & _) _].
    by apply is_Some_None in Hurl.
Defined.

(** X6. [from_dict] accepts a dictionary exactly when it has the keys
    title, url and source.  The article it builds has the id of the
    dictionary, or the fingerprint of its (source, url, title) when the
    dictionary has no id, and it is reproduced by [from_dict] from its own
    [to_dict], at any time. *)
Theorem from_dict_accepts (now : datetime.t) (d : ArticleDict) :
  (has_required_keys d ↔ ∃ a, Article.from_dict now d = Ok a)
  ∧ (∀ a, Article.from_dict now d = Ok a →
          Article.id a
          = default (Article.fingerprint (Article.source a) (Article.url a)
                       (Article.title a)) (d_id d)
          ∧ Article.published a ≠ EmptyString
          ∧ ∀ now', Article.from_dict now' (Article.to_dict a) = Ok a).
Proof.
  split; [apply from_dict_required|].
  intros a Ha. split_and!.
  - unfold Article.from_dict in Ha.
    destruct (d_title d), (d_url d), (d_source d); simpl in Ha; try done.
    injection Ha as <-. reflexivity.
  - by eapply constructed_published, from_dict_constructed.
  - intros now'. by eapply from_dict_to_dict, from_dict_constructed.
Qed.

Lemma from_dict_accepts_witness :
  let now := datetime.mk 2025 1 1 0 0 2 0%Z in
  let d := mkDict None (Some "New LLM released") (Some "https://example.org/llm")
             (Some "Hacker News") None None None in
  ∃ a, Article.from_dict now d = Ok a
       ∧ Article.id a
         = default (Article.fingerprint (Article.source a) (Article.url a)
                      (Article.title a)) (d_id d)
       ∧ Article.published a ≠ EmptyString.
Proof.
  cbv zeta.
  pose (now := datetime.mk 2025 1 1 0 0 2 0%Z).
  pose (d := mkDict None (Some "New LLM released") (Some "https://example.org/llm")
               (Some "Hacker News") None None None).
  destruct (proj1 (proj1 (from_dict_accepts now d))) as [a Ha].
  - unfold has_required_keys. simpl. split_and!; by eexists.
  - exists a. destruct (proj2 (from_dict_accepts now d) a Ha) as (Hid & Hpub & _).
    split_and!; [exact Ha | exact Hid | exact Hpub].
Defined.

(** ** More on the fetcher *)

Lemma extract_date_ok (now : datetime.t) (source_name : string) (entry : Entry) :
  date_ok entry ↔ ∃ a, RSSFetcher.extract now source_name entry = Ok a.
Proof.
  unfold date_ok, RSSFetcher.extract.
  destruct (e_published_parsed entry) as [tm|]; simpl.
  - destruct (datetime.make _ _ _ _ _ _); simpl; split; eauto; try done.
    intros [a [=]].
  - split; eauto.
Qed.

Lemma fetch_loop_spec (clock : nat → datetime.t) (source_name : string)
    (entries : list Entry) (i : nat) (acc : list Article.t) (log : list LogRecord) :
  let out := RSSFetcher.fetch_loop clock source_name entries i acc log in
  ∃ new warnings,
    out = (acc ++ new, log ++ warnings)
    ∧ Forall2 (built_from source_name) new (filter date_ok entries)
    ∧ Forall is_warning warnings
    ∧ (length new + length warnings = length entries)%nat.
Proof.
  revert i acc log. induction entries as [|entry rest IH]; intros i acc log; cbv zeta.
  - exists [], []. simpl. rewrite !app_nil_r. split_and!; done || constructor.
  - cbn [RSSFetcher.fetch_loop]. rewrite filter_cons.
    destruct (RSSFetcher.extract (clock i) source_name entry) as [a|e] eqn:Hex.
    + rewrite decide_True by (apply (extract_date_ok (clock i) source_name); eauto).
      destruct (IH (S i) (acc ++ [a]) log) as (new & warnings & -> & Hnew & Hw & Hlen).
      exists (a :: new), warnings. rewrite <- app_assoc. split_and!; try done.
      * constructor; [by exists (clock i) | done].
      * simpl. lia.
    + rewrite decide_False.
      2:{ intros [a Ha]%(extract_date_ok (clock i) source_name). congruence. }
      destruct (IH (S i) acc
                  (log ++ [Log WARNING ("Skipping article due to error: " +:+ exn_str e)]))
        as (new & warnings & -> & Hnew & Hw & Hlen).
      exists new, (Log WARNING ("Skipping article due to error: " +:+ exn_str e)
                   :: warnings).
      rewrite <- app_assoc. split_and!; try done.
      * by constructor.
      * simpl. lia.
Qed.

Lemma fetch_spec (netloc : string → string) (parse : string → result (list Entry))
    (clock : nat → datetime.t) (feed_url : string) (source_name : option string)
    (entries : list Entry) :
  parse feed_url = Ok entries →
  let name := Str.opt_or source_name (netloc feed_url) in
  ∃ articles warnings,
    RSSFetcher.fetch netloc parse clock feed_url source_name
    = (articles,
       Log INFO ("Fetching RSS: " +:+ name +:+ " (" +:+ feed_url +:+ ")")
       :: warnings
       ++ [Log INFO ("Fetched " +:+ Str.of_Z (Z.of_nat (length articles)) +:+
                     " articles from " +:+ name)])
    ∧ Forall2 (built_from name) articles (filter date_ok (take 20 entries))
    ∧ Forall is_warning warnings
    ∧ (length articles + length warnings = 20 `min` length entries)%nat.
Proof.
  intros Hparse name. unfold RSSFetcher.fetch. rewrite Hparse. fold name.
  destruct (fetch_loop_spec clock name (take 20 entries) 0 []
              [Log INFO ("Fetching RSS: " +:+ name +:+ " (" +:+ feed_url +:+ ")")])
    as (new & warnings & -> & Hnew & Hw & Hlen).
  exists new, warnings. rewrite length_take in Hlen. by split_and!.
Qed.

(** C9. Every article that [fetch] builds from a feed entry carries the
    first 500 characters of the summary of that entry (or of its
    description, or the empty string).  The articles correspond one to one,
    in order, to the entries [fetch] keeps; the summary of each article is
    the summary of its entry cut to 500 characters before the article is
    built, so it has at most 500 characters. *)
Theorem ingested_summary_capped
    (netloc : string → string) (parse : string → result (list Entry))
    (clock : nat → datetime.t) (feed_url : string) (source_name : option string) :
  let articles := (RSSFetcher.fetch netloc parse clock feed_url source_name).1 in
  Forall (fun a => (String.length (Article.summary a) ≤ 500)%nat) articles
  ∧ match parse feed_url with
    | Ok entries =>
        Forall2 (fun a entry => Article.summary a = Str.take 500 (raw_summary entry))
          articles (filter date_ok (take 20 entries))
    | Raise _ => articles = []
    end.
Proof.
  intros articles. subst articles.
  destruct (parse feed_url) as [entries|e] eqn:Hparse.
  - destruct (fetch_spec netloc parse clock feed_url source_name entries Hparse)
      as (articles & warnings & -> & Hbuilt & _). cbn [fst].
    assert (Hcut : Forall2 (fun a entry =>
                              Article.summary a = Str.take 500 (raw_summary entry))
                     articles (filter date_ok (take 20 entries))).
    { eapply Forall2_impl; [exact Hbuilt|]. intros a entry [now Hex].
      by eapply extract_summary. }
    split; [|exact Hcut].
    clear Hbuilt. induction Hcut as [|a entry l k Ha _ IH]; [constructor|].
    constructor; [|exact IH]. rewrite Ha. apply take_length.
  - unfold RSSFetcher.fetch. rewrite Hparse. by split.
Qed.

(** X7. [fetch] accounts for every entry it reads.  It reads the first 20
    entries of the feed, and each of them gives an article or one warning in
    the log, so it returns at most 20 articles; the log is the record of the
    start, the warnings, and the record of the count.  When parsing the feed
    raises, it returns no article and logs the error. *)
Theorem fetch_accounts_for_entries
    (netloc : string → string) (parse : string → result (list Entry))
    (clock : nat → datetime.t) (feed_url : string) (source_name : option string) :
  let name := Str.opt_or source_name (netloc feed_url) in
  let out := RSSFetcher.fetch netloc parse clock feed_url source_name in
  (length out.1 ≤ 20)%nat
  ∧ (∀ entries, parse feed_url = Ok entries →
       ∃ warnings,
         out.2 = Log INFO ("Fetching RSS: " +:+ name +:+ " (" +:+ feed_url +:+ ")")
                 :: warnings
                 ++ [Log INFO ("Fetched " +:+ Str.of_Z (Z.of_nat (length out.1)) +:+
                               " articles from " +:+ name)]
         ∧ Forall is_warning warnings
         ∧ (length out.1 + length warnings = 20 `min` length entries)%nat)
  ∧ (∀ e, parse feed_url = Raise e →
       out = ([], [Log INFO ("Fetching RSS: " +:+ name +:+ " (" +:+ feed_url +:+ ")");
                   Log ERROR ("Failed to fetch " +:+ feed_url +:+ ": " +:+ exn_str e)])).
Proof.
  intros name out. split_and!.
  - subst out. destruct (parse feed_url) as [entries|e] eqn:Hparse.
    + destruct (fetch_spec netloc parse clock feed_url source_name entries Hparse)
        as (articles & warnings & -> & _ & _ & Hlen).
      simpl. lia.
    + unfold RSSFetcher.fetch. rewrite Hparse. simpl. lia.
  - intros entries Hparse. subst out.
    destruct (fetch_spec netloc parse clock feed_url source_name entries Hparse)
      as (articles & warnings & -> & _ & Hw & Hlen).
    by exists warnings.
  - intros e Hparse. subst out. unfold RSSFetcher.fetch. by rewrite Hparse.
Qed.

Lemma fetch_accounts_for_entries_witness :
  let dated := mkEntry (Some "Title") (Some "https://example.org/1") None None None
                 (Some (mkTime 2024 2 29 12 30 45)) in
  let misdated := mkEntry (Some "Other") None None None None
                    (Some (mkTime 2023 2 29 12 30 45)) in
  let out := RSSFetcher.fetch (fun _ => "example.org") (fun _ => Ok [dated; misdated])
               (fun _ => datetime.mk 2025 1 1 0 0 0 0%Z) "u" (Some "Feed") in
  ∃ warnings,
    out.2 = Log INFO "Fetching RSS: Feed (u)"
            :: warnings ++ [Log INFO "Fetched 1 articles from Feed"]
    ∧ Forall is_warning warnings
    ∧ (length out.1 + length warnings = 2)%nat.
Proof.
  cbv zeta.
  exact (proj1 (proj2 (fetch_accounts_for_entries (fun _ => "example.org")
           (fun _ => Ok [mkEntry (Some "Title") (Some "https://example.org/1") None
                           None None (Some (mkTime 2024 2 29 12 30 45));
                         mkEntry (Some "Other") None None None None
                           (Some (mkTime 2023 2 29 12 30 45))])
           (fun _ => datetime.mk 2025 1 1 0 0 0 0%Z) "u" (Some "Feed"))) _ eq_refl).
Defined.

(** X8. The articles of [fetch] stand in the order of the feed, one for
    each of the first 20 entries whose date is absent or a date that
    [datetime] accepts; an entry is dropped only for its date. *)
Theorem fetch_keeps_feed_order
    (netloc : string → string) (parse : string → result (list Entry))
    (clock : nat → datetime.t) (feed_url : string) (source_name : option string)
    (entries : list Entry) :
  parse feed_url = Ok entries →
  Forall2 (built_from (Str.opt_or source_name (netloc feed_url)))
    (RSSFetcher.fetch netloc parse clock feed_url source_name).1
    (filter date_ok (take 20 entries)).
Proof.
  intros Hparse.
  by destruct (fetch_spec netloc parse clock feed_url source_name entries Hparse)
    as (articles & warnings & -> & Hnew & _ & _).
Qed.

Lemma fetch_keeps_feed_order_witness :
  let dated := mkEntry (Some "Title") (Some "https://example.org/1") None None None
                 (Some (mkTime 2024 2 29 12 30 45)) in
  let misdated := mkEntry (Some "Other") None None None None
                    (Some (mkTime 2023 2 29 12 30 45)) in
  let undated := mkEntry None None (Some "tag:3") None (Some "Text") None in
  Forall2 (built_from "Feed")
    (RSSFetcher.fetch (fun _ => "example.org")
       (fun _ => Ok [dated; misdated; undated])
       (fun _ => datetime.mk 2025 1 1 0 0 0 0%Z) "u" (Some "Feed")).1
    [dated; undated].
Proof.
  cbv zeta.
  exact (fetch_keeps_feed_order (fun _ => "example.org")
           (fun _ => Ok [mkEntry (Some "Title") (Some "https://example.org/1") None
                           None None (Some (mkTime 2024 2 29 12 30 45));
                         mkEntry (Some "Other") None None None None
                           (Some (mkTime 2023 2 29 12 30 45));
                         mkEntry None None (Some "tag:3") None (Some "Text") None])
           (fun _ => datetime.mk 2025 1 1 0 0 0 0%Z) "u" (Some "Feed") _ eq_refl).
Defined.

Lemma fetch_loop_numbered (clock : nat → datetime.t) (source_name : string)
    (entries : list Entry) (i : nat) (acc : list Article.t) (log : list LogRecord) :
  ∃ new,
    (RSSFetcher.fetch_loop clock source_name entries i acc log).1 = acc ++ new
    ∧ Forall2 (fun a ie => RSSFetcher.extract (clock ie.1) source_name ie.2 = Ok a) new
        (filter (fun ie => date_ok ie.2) (zip (seq i (length entries)) entries)).
Proof.
  revert i acc log. induction entries as [|entry rest IH]; intros i acc log.
  - exists []. simpl. rewrite app_nil_r. split; [done | constructor].
  - cbn [RSSFetcher.fetch_loop length seq zip zip_with]. rewrite filter_cons. cbn [snd].
    destruct (RSSFetcher.extract (clock i) source_name entry) as [a|e] eqn:Hex.
    + rewrite decide_True by (apply (extract_date_ok (clock i) source_name); eauto).
      destruct (IH (S i) (acc ++ [a]) log) as (new & -> & Hnew).
      exists (a :: new). rewrite <- app_assoc. split; [done|]. by constructor.
    + rewrite decide_False.
      2:{ intros [a Ha]%(extract_date_ok (clock i) source_name). congruence. }
      destruct (IH (S i) acc
                  (log ++ [Log WARNING ("Skipping article due to error: " +:+ exn_str e)]))
        as (new & -> & Hnew).
      by exists new.
Qed.

Lemma fetch_numbered (netloc : string → string) (parse : string → result (list Entry))
    (clock : nat → datetime.t) (feed_url : string) (source_name : option string)
    (entries : list Entry) :
  parse feed_url = Ok entries →
  Forall2 (fun a ie =>
             RSSFetcher.extract (clock ie.1) (Str.opt_or source_name (netloc feed_url))
               ie.2 = Ok a)
    (RSSFetcher.fetch netloc parse clock feed_url source_name).1
    (filter (fun ie => date_ok ie.2) (numbered (take 20 entries))).
Proof.
  intros Hparse. unfold RSSFetcher.fetch, numbered. rewrite Hparse.
  destruct (fetch_loop_numbered clock (Str.opt_or source_name (netloc feed_url))
              (take 20 entries) 0 []
              [Log INFO ("Fetching RSS: " +:+ Str.opt_or source_name (netloc feed_url)
                         +:+ " (" +:+ feed_url +:+ ")")])
    as (new & Hloop & Hnew).
  destruct (RSSFetcher.fetch_loop _ _ _ _ _ _) as [articles log]. simpl in *.
  by subst articles.
Qed.

Lemma extract_fields (now : datetime.t) (source_name : string) (entry : Entry)
    (a : Article.t) :
  RSSFetcher.extract now source_name entry = Ok a →
  Article.source a = source_name
  ∧ Article.topics a = []
  ∧ Article.id a = Article.fingerprint (Article.source a) (Article.url a) (Article.title a)
  ∧ Article.title a = default "No Title" (e_title entry)
  ∧ Article.url a = default (default EmptyString (e_id entry)) (e_link entry)
  ∧ match e_published_parsed entry with
    | Some tm =>
        ∃ dt, datetime.make (tm_year tm) (tm_mon tm) (tm_mday tm)
                (tm_hour tm) (tm_min tm) (tm_sec tm) = Ok dt
              ∧ Article.published a = datetime.isoformat dt
    | None => Article.published a = datetime.isoformat now
    end.
Proof.
  unfold RSSFetcher.extract. intros Hex.
  destruct (e_published_parsed entry) as [tm|] eqn:Hdate; simpl in Hex.
  - destruct (datetime.make _ _ _ _ _ _) as [dt|e] eqn:Hmake; simpl in Hex; [|done].
    injection Hex as <-. split_and!; try done.
    exists dt. split; [done|]. simpl.
    pose proof (isoformat_nonempty dt). by destruct (datetime.isoformat dt).
  - injection Hex as <-. by split_and!.
Qed.

(** X9. The articles of [fetch] are built field by field from the entries
    it keeps.  They correspond one to one, in order, to those of the first 20
    entries whose date [datetime] accepts.  Each has the name of the feed as
    its source, or the host of the URL when no name is given; it has no
    topics yet; its id is the fingerprint of its (source, url, title); its
    title is the title of its entry, or [No Title]; its url is the link of
    its entry, or else the id of the entry, or else empty; and its
    [published] is the date of its entry in ISO form, or the reading of the
    clock while that entry was handled when the entry has no date. *)
Theorem fetched_articles_wellformed
    (netloc : string → string) (parse : string → result (list Entry))
    (clock : nat → datetime.t) (feed_url : string) (source_name : option string) :
  let articles := (RSSFetcher.fetch netloc parse clock feed_url source_name).1 in
  match parse feed_url with
  | Ok entries =>
      Forall2 (fun a ie =>
                 Article.source a = Str.opt_or source_name (netloc feed_url)
                 ∧ Article.topics a = []
                 ∧ Article.id a
                   = Article.fingerprint (Article.source a) (Article.url a)
                       (Article.title a)
                 ∧ Article.title a = default "No Title" (e_title ie.2)
                 ∧ Article.url a
                   = default (default EmptyString (e_id ie.2)) (e_link ie.2)
                 ∧ match e_published_parsed ie.2 with
                   | Some tm =>
                       ∃ dt, datetime.make (tm_year tm) (tm_mon tm) (tm_mday tm)
                               (tm_hour tm) (tm_min tm) (tm_sec tm) = Ok dt
                             ∧ Article.published a = datetime.isoformat dt
                   | None => Article.published a = datetime.isoformat (clock ie.1)
                   end)
        articles (filter (fun ie => date_ok ie.2) (numbered (take 20 entries)))
  | Raise _ => articles = []
  end.
Proof.
  intros articles. subst articles.
  destruct (parse feed_url) as [entries|e] eqn:Hparse.
  - eapply Forall2_impl; [by apply fetch_numbered|].
    intros a ie Hex. by apply extract_fields in Hex.
  - unfold RSSFetcher.fetch. by rewrite Hparse.
Qed.

(** Two entries without a date between dated ones: each takes the reading
    of the clock of its own turn. *)
Example fetch_clock_of_entry :
  let dated := mkEntry (Some "A") (Some "https://example.org/a") None None None
                 (Some (mkTime 2024 2 29 12 30 45)) in
  let undated := mkEntry None None (Some "tag:example.org,2024:b") None None None in
  let bad := mkEntry (Some "C") None None None None (Some (mkTime 2023 2 29 0 0 0)) in
  let articles :=
    (RSSFetcher.fetch (fun _ => "example.org") (fun _ => Ok [dated; bad; undated])
       (fun i => datetime.mk 2025 1 1 0 0 (Z.of_nat i) 0%Z) "https://example.org/feed"
       None).1 in
  Article.title <$> articles = ["A"; "No Title"]
  ∧ Article.url <$> articles = ["https://example.org/a"; "tag:example.org,2024:b"]
  ∧ Article.published <$> articles
    = ["2024-02-29T12:30:45+00:00"; "2025-01-01T00:00:02+00:00"].
Proof. cbv zeta. split_and!; vm_compute; reflexivity. Qed.

(** ** More on topics *)

Lemma existsb_lowered (words : list string) (text : string) :
  existsb (fun w => Str.contains w text) (map Str.lower words) = true
  ↔ ∃ w, w ∈ words ∧ substring_of (Str.lower w) text.
Proof.
  rewrite existsb_contains. split.
  - intros (w' & Hin & Hsub). apply list_elem_of_In, in_map_iff in Hin as (w & <- & Hw).
    exists w. by rewrite list_elem_of_In.
  - intros (w & Hw & Hsub). exists (Str.lower w). split; [|done].
    apply list_elem_of_In, in_map. by apply list_elem_of_In.
Qed.

(** X10. The words of a topic are compared without regard to case, theirs
    and the text's: a topic built by [Topic.__init__] matches a text exactly
    when none of its exclude words and at least one of its keywords occurs,
    when the words and the text are put in lower case. *)
Theorem topic_words_ignore_case (name : string) (keywords : list string)
    (exclude_words : option (list string)) (text : string) :
  Topic.matches (Topic.init name keywords exclude_words) text = true
  ↔ (∀ w, w ∈ default [] exclude_words → ¬ substring_of (Str.lower w) (Str.lower text))
    ∧ ∃ k, k ∈ keywords ∧ substring_of (Str.lower k) (Str.lower text).
Proof.
  unfold Topic.matches, Topic.init. cbn [Topic.exclude_words Topic.keywords].
  destruct (existsb _ (map Str.lower (default [] exclude_words))) eqn:Hex.
  - apply existsb_lowered in Hex as (w & Hw & Hsub). split; [done|].
    intros [Hnone _]. by destruct (Hnone w).
  - rewrite existsb_lowered. split.
    + intros Hkw. split; [|done]. intros w Hw Hsub.
      assert (existsb (fun w => Str.contains w (Str.lower text))
                (map Str.lower (default [] exclude_words)) = true) as Htrue
        by (apply existsb_lowered; eauto).
      congruence.
    + by intros [_ Hkw].
Qed.

(** X11. The empty word occurs in every text.  A topic without keywords
    matches no text; a topic with an empty exclude word matches no text; and
    a topic with an empty keyword matches every text in which none of its
    exclude words occurs. *)
Theorem empty_words (topic : Topic.t) (text : string) :
  (Topic.keywords topic = [] → Topic.matches topic text = false)
  ∧ (EmptyString ∈ Topic.exclude_words topic → Topic.matches topic text = false)
  ∧ (EmptyString ∈ Topic.keywords topic →
     (∀ w, w ∈ Topic.exclude_words topic → ¬ substring_of w (Str.lower text)) →
     Topic.matches topic text = true).
Proof.
  assert (Hempty : substring_of EmptyString (Str.lower text)).
  { by exists EmptyString, (Str.lower text). }
  split_and!.
  - intros Hnone. unfold Topic.matches. rewrite Hnone. simpl.
    by destruct (existsb _ _).
  - intros Hin. unfold Topic.matches.
    replace (existsb _ (Topic.exclude_words topic)) with true; [done|].
    symmetry. apply existsb_contains. eauto.
  - intros Hin Hex. apply matches_included; eauto.
Qed.

Lemma empty_words_witness :
  let all := Topic.init EmptyString [EmptyString] None in
  let none := Topic.init "Security" ["breach"] (Some [EmptyString]) in
  Topic.matches none "Data breach at example.org" = false
  ∧ Topic.matches all "Weather report" = true.
Proof.
  cbv zeta. split.
  - apply (proj1 (proj2 (empty_words
                           (Topic.init "Security" ["breach"] (Some [EmptyString]))
                           "Data breach at example.org"))).
    apply list_elem_of_here.
  - apply (proj2 (proj2 (empty_words (Topic.init EmptyString [EmptyString] None)
                           "Weather report"))).
    + apply list_elem_of_here.
    + intros w Hw. inversion Hw.
Defined.

(** ** More on the classifier *)

Lemma hits_other_name (topics : list Topic.t) (text k : string) :
  k ∉ Topic.name <$> topics → hits topics text k = 0%nat.
Proof.
  induction topics as [|t topics IH]; [done|].
  rewrite fmap_cons, not_elem_of_cons. intros [Hne Hnotin].
  rewrite hits_cons, IH by done. rewrite decide_False by done.
  by destruct (Topic.matches t text).
Qed.

Lemma hits_distinct_names (topics : list Topic.t) (text : string) (t : Topic.t) :
  NoDup (Topic.name <$> topics) → t ∈ topics →
  hits topics text (Topic.name t) = if Topic.matches t text then 1%nat else 0%nat.
Proof.
  induction topics as [|t0 topics IH]; [by intros _ ?%elem_of_nil|].
  rewrite fmap_cons, NoDup_cons. intros [Hfresh Hnodup] Hin. rewrite hits_cons.
  apply elem_of_cons in Hin as [->|Hin].
  - rewrite decide_True by done. by rewrite hits_other_name.
  - rewrite decide_False.
    2:{ intros Heq. apply Hfresh. rewrite Heq. by apply list_elem_of_fmap_2. }
    rewrite IH by done. by destruct (Topic.matches t0 text).
Qed.

Lemma bind_filter {A : Type} (P : A → Prop) `{!∀ x, Decision (P x)} (l : list A) :
  l ≫= (fun x => if decide (P x) then [x] else []) = filter P l.
Proof.
  induction l as [|x l IH]; [done|].
  rewrite bind_cons, filter_cons, IH. by case_decide.
Qed.

Lemma bucket_of_topic (topics : list Topic.t) (h : heap) (articles : list ref)
    (t : Topic.t) :
  NoDup (Topic.name <$> topics) → "uncategorized" ∉ Topic.name <$> topics →
  t ∈ topics →
  bucket topics h articles (Topic.name t)
  = filter (fun r => Topic.matches t (search_text (h r)) = true) articles.
Proof.
  intros Hnodup Hunc Hin. rewrite <- bind_filter. unfold bucket.
  induction articles as [|r articles IH]; [done|].
  rewrite !bind_cons, IH. f_equal. unfold contribution.
  rewrite hits_distinct_names by done.
  rewrite (decide_False (P := _ ∧ _)).
  2:{ intros [_ Heq]. apply Hunc. rewrite <- Heq. by apply list_elem_of_fmap_2. }
  rewrite app_nil_r. destruct (Topic.matches t (search_text (h r))); by case_decide.
Qed.

Lemma bucket_uncategorized (topics : list Topic.t) (h : heap) (articles : list ref) :
  "uncategorized" ∉ Topic.name <$> topics →
  bucket topics h articles "uncategorized"
  = filter (fun r => matching topics (search_text (h r)) = []) articles.
Proof.
  intros Hunc. rewrite <- bind_filter. unfold bucket.
  induction articles as [|r articles IH]; [done|].
  rewrite !bind_cons, IH. f_equal. unfold contribution.
  rewrite hits_other_name by done. simpl.
  destruct (decide (matching topics (search_text (h r)) = [])).
  - by rewrite decide_True.
  - rewrite decide_False; [done | tauto].
Qed.

Lemma classify_lookup_eq (topics : list Topic.t) (h : heap) (articles : list ref)
    (k : string) :
  (Classifier.classify topics h articles).2 !! k
  = if decide ((k = "uncategorized" ∨ k ∈ Topic.name <$> topics)
               ∧ bucket topics h articles k ≠ [])
    then Some (bucket topics h articles k) else None.
Proof.
  destruct ((Classifier.classify topics h articles).2 !! k) as [b|] eqn:Hk.
  - apply classify_lookup in Hk as (Hkey & -> & Hb). by rewrite decide_True.
  - case_decide as Hd; [|done]. destruct Hd as [Hkey Hb].
    assert ((Classifier.classify topics h articles).2 !! k
            = Some (bucket topics h articles k)) as Hsome
      by by apply classify_lookup.
    congruence.
Qed.

(** X12. When the topics have different names, none of them
    "uncategorized", the dictionary of [classify] is read off the list: the
    bucket of a topic holds the articles of the list that the topic matches,
    in the order of the list, the bucket "uncategorized" holds those that no
    topic matches, a key is absent when its bucket would be empty, and there
    are no other keys. *)
Theorem classify_buckets_exact (topics : list Topic.t) (h : heap)
    (articles : list ref) :
  NoDup (Topic.name <$> topics) → "uncategorized" ∉ Topic.name <$> topics →
  let result := (Classifier.classify topics h articles).2 in
  (∀ t, t ∈ topics →
     let b := filter (fun r => Topic.matches t (search_text (h r)) = true) articles in
     result !! Topic.name t = if decide (b = []) then None else Some b)
  ∧ (let b := filter (fun r => matching topics (search_text (h r)) = []) articles in
     result !! "uncategorized" = if decide (b = []) then None else Some b)
  ∧ (∀ k, k ∉ Topic.name <$> topics → k ≠ "uncategorized" → result !! k = None).
Proof.
  intros Hnodup Hunc. cbv zeta. split_and!.
  - intros t Ht. rewrite classify_lookup_eq, bucket_of_topic by done.
    destruct (decide (filter _ articles = [])) as [Hb|Hb].
    + rewrite decide_False; [done | tauto].
    + rewrite decide_True; [done|]. split; [|done]. right. by apply list_elem_of_fmap_2.
  - rewrite classify_lookup_eq, bucket_uncategorized by done.
    destruct (decide (filter _ articles = [])) as [Hb|Hb].
    + rewrite decide_False; [done | tauto].
    + rewrite decide_True; [done|]. split; [by left | done].
  - intros k Hk Hne. rewrite classify_lookup_eq. rewrite decide_False; [done|].
    intros [[?|?] _]; done.
Qed.

Lemma classify_buckets_exact_witness :
  let result := (Classifier.classify sample_topics sample_heap [0; 1; 2]%nat).2 in
  result !! "AI"
  = (let b := filter (fun r => Topic.matches (Topic.init "AI" ["ai"; "llm"] (Some []))
                                 (search_text (sample_heap r)) = true) [0; 1; 2]%nat in
     if decide (b = []) then None else Some b).
Proof.
  cbv zeta.
  apply (proj1 (classify_buckets_exact sample_topics sample_heap [0; 1; 2]%nat
                  ltac:(refine (bool_decide_unpack _ _); vm_compute; exact I)
                  ltac:(refine (bool_decide_unpack _ _); vm_compute; exact I))
           (Topic.init "AI" ["ai"; "llm"] (Some []))).
  apply list_elem_of_here.
Defined.

(** X13. The buckets of [classify] cover the list and nothing else: every
    article of the list is in some bucket, and an article in the bucket of a
    key is an article of the list that a topic of that name matches, or that
    no topic matches when the key is "uncategorized". *)
Theorem classify_covers (topics : list Topic.t) (h : heap) (articles : list ref) :
  let result := (Classifier.classify topics h articles).2 in
  (∀ r, r ∈ articles → ∃ k b, result !! k = Some b ∧ r ∈ b)
  ∧ (∀ k b r, result !! k = Some b → r ∈ b →
       r ∈ articles
       ∧ ((∃ t, t ∈ topics ∧ Topic.name t = k
                ∧ Topic.matches t (search_text (h r)) = true)
          ∨ (k = "uncategorized"
             ∧ ∀ t, t ∈ topics → Topic.matches t (search_text (h r)) = false))).
Proof.
  cbv zeta. split.
  - intros r Hr.
    destruct (matching topics (search_text (h r))) as [|t ts] eqn:Hmatch.
    + exists "uncategorized", (bucket topics h articles "uncategorized").
      assert (r ∈ bucket topics h articles "uncategorized") as Hin.
      { apply bucket_elem_of; [done|]. apply contribution_miss. intros t Ht.
        destruct (Topic.matches t (search_text (h r))) eqn:Hm; [|done].
        assert (t ∈ matching topics (search_text (h r))) as Hin
          by by apply list_elem_of_filter.
        rewrite Hmatch in Hin. by apply elem_of_nil in Hin. }
      split; [|done]. apply classify_lookup. split_and!; [by left | done |].
      by eapply elem_of_not_nil.
    + assert (t ∈ matching topics (search_text (h r))) as [Hm Ht]%list_elem_of_filter
        by (rewrite Hmatch; left).
      exists (Topic.name t), (bucket topics h articles (Topic.name t)).
      assert (r ∈ bucket topics h articles (Topic.name t)) as Hin
        by by apply bucket_elem_of, contribution_hit.
      split; [|done]. apply classify_lookup. split_and!; [|done|].
      * right. by apply list_elem_of_fmap_2.
      * by eapply elem_of_not_nil.
  - intros k b r (_ & -> & _)%classify_lookup Hin.
    apply list_elem_of_bind in Hin as (r' & Hin & Hr').
    unfold contribution in Hin. apply elem_of_app in Hin as [Hin|Hin].
    + apply elem_of_replicate in Hin as [-> Hhits]. split; [done|]. left.
      unfold hits in Hhits.
      destruct (filter (fun t => Topic.name t = k) (matching topics (search_text (h r'))))
        as [|t ts] eqn:Hf; [done|].
      assert (t ∈ filter (fun t => Topic.name t = k)
                    (matching topics (search_text (h r')))) as Ht
        by (rewrite Hf; left).
      apply list_elem_of_filter in Ht as [Hname [Hm Ht]%list_elem_of_filter].
      by exists t.
    + case_decide as Hd; [|by apply elem_of_nil in Hin].
      apply list_elem_of_singleton in Hin as ->. destruct Hd as [Hnone ->].
      split; [done|]. right. split; [done|]. intros t Ht.
      destruct (Topic.matches t (search_text (h r'))) eqn:Hm; [|done].
      assert (t ∈ matching topics (search_text (h r'))) as Hin
        by by apply list_elem_of_filter.
      rewrite Hnone in Hin. by apply elem_of_nil in Hin.
Qed.

(** X14. [classify] changes nothing but the [topics] of the articles of
    the list, and it only appends to them: id, title, url, source, summary
    and published of every object stay, its topics before the call are the
    beginning of its topics after the call, the names appended are names of
    topics that match it, and an object that is not in the list stays as it
    is. *)
Theorem classify_only_appends (topics : list Topic.t) (h : heap)
    (articles : list ref) (r : ref) :
  let h' := (Classifier.classify topics h articles).1 in
  (∃ added,
     h' r = Article.set_topics (Article.topics (h r) ++ added) (h r)
     ∧ ∀ n, n ∈ added →
            ∃ t, t ∈ topics ∧ Topic.name t = n
                 ∧ Topic.matches t (search_text (h r)) = true)
  ∧ Article.id (h' r) = Article.id (h r)
  ∧ Article.title (h' r) = Article.title (h r)
  ∧ Article.url (h' r) = Article.url (h r)
  ∧ Article.source (h' r) = Article.source (h r)
  ∧ Article.summary (h' r) = Article.summary (h r)
  ∧ Article.published (h' r) = Article.published (h r)
  ∧ (r ∉ articles → h' r = h r).
Proof.
  cbv zeta. rewrite classify_heap. split_and!; try done.
  - exists (labels topics h articles r). split; [done|].
    intros n (r' & Hn & _)%list_elem_of_bind. case_decide; [|by apply elem_of_nil in Hn].
    apply list_elem_of_fmap in Hn as (t & -> & [Hm Ht]%list_elem_of_filter). by exists t.
  - intros Hnotin. by rewrite labels_not_in, app_nil_r, set_topics_same.
Qed.

(** ** Time stamps *)

Lemma append_Empty_r (s : string) : s +:+ EmptyString = s.
Proof. induction s as [|c s IH]; [done|]. by rewrite append_String, IH. Qed.

Lemma append_assoc_str (s t u : string) : (s +:+ t) +:+ u = s +:+ t +:+ u.
Proof. induction s as [|c s IH]; [done|]. by rewrite !append_String, IH. Qed.

Lemma zeros_snoc (m : nat) :
  Str.zeros m +:+ String "0" EmptyString = String "0" (Str.zeros m).
Proof. induction m as [|m IH]; [done|]. simpl. by rewrite append_String, IH. Qed.

Lemma zeros_length (m : nat) : String.length (Str.zeros m) = m.
Proof. induction m as [|m IH]; simpl; [done | by rewrite IH]. Qed.

Lemma fixed_length (w : nat) (z : Z) : String.length (fixed w z) = w.
Proof.
  revert z. induction w as [|w IH]; intros z; simpl; [done|].
  rewrite str_length_append, IH. simpl. lia.
Qed.

Lemma fixed_zero (m : nat) : fixed m 0 = Str.zeros m.
Proof.
  induction m as [|m IH]; [done|]. cbn [fixed].
  change (0 / 10)%Z with 0%Z. rewrite IH. apply zeros_snoc.
Qed.

Lemma fixed_pad (k m : nat) (z : Z) :
  (0 ≤ z < 10 ^ Z.of_nat k)%Z → fixed (m + k) z = Str.zeros m +:+ fixed k z.
Proof.
  revert z. induction k as [|k IH]; intros z Hz.
  - change (10 ^ Z.of_nat 0)%Z with 1%Z in Hz. assert (z = 0%Z) as -> by lia.
    rewrite Nat.add_0_r, fixed_zero. simpl. by rewrite append_Empty_r.
  - replace (m + S k)%nat with (S (m + k)) by lia. cbn [fixed].
    rewrite IH, append_assoc_str; [done|].
    rewrite Nat2Z.inj_succ, Z.pow_succ_r in Hz by lia.
    split; [apply Z.div_pos; lia | apply Z.div_lt_upper_bound; lia].
Qed.

Lemma digits_fixed (fuel n : nat) (z : Z) (acc : string) :
  (1 ≤ n ≤ fuel)%nat → (0 ≤ z < 10 ^ Z.of_nat n)%Z →
  ∃ k, (1 ≤ k ≤ n)%nat
       ∧ Str.digits fuel z acc = fixed k z +:+ acc
       ∧ (z < 10 ^ Z.of_nat k)%Z
       ∧ (k = 1%nat ∨ (10 ^ Z.of_nat (k - 1) ≤ z)%Z).
Proof.
  revert n z acc. induction fuel as [|fuel IH]; intros n z acc Hn Hz; [lia|].
  cbn [Str.digits]. destruct (z <? 10)%Z eqn:Hsmall.
  - apply Z.ltb_lt in Hsmall.
    exists 1%nat. refine (conj _ (conj _ (conj _ _))); [lia | | | by left].
    + simpl. by rewrite append_Empty.
    + change (10 ^ Z.of_nat 1)%Z with 10%Z. lia.
  - apply Z.ltb_ge in Hsmall.
    assert (2 ≤ n)%nat as Hn2.
    { destruct n as [|[|n]]; [lia | | lia].
      change (10 ^ Z.of_nat 1)%Z with 10%Z in Hz. lia. }
    assert (0 ≤ z / 10 < 10 ^ Z.of_nat (n - 1))%Z as Hdiv.
    { replace (Z.of_nat n) with (Z.succ (Z.of_nat (n - 1))) in Hz by lia.
      rewrite Z.pow_succ_r in Hz by lia.
      split; [apply Z.div_pos; lia | apply Z.div_lt_upper_bound; lia]. }
    destruct (IH (n - 1)%nat (z / 10)%Z
                (String (Str.chr (48 + z mod 10)) acc) ltac:(lia) Hdiv)
      as (k & Hk & -> & Hup & Hlow).
    pose proof (Z.mul_div_le z 10 ltac:(lia)) as Hle.
    pose proof (Z.mod_pos_bound z 10 ltac:(lia)) as Hmod.
    pose proof (Z.div_mod z 10 ltac:(lia)) as Hdm.
    exists (S k). refine (conj _ (conj _ (conj _ _))); [lia | | |].
    + cbn [fixed]. by rewrite append_assoc_str.
    + rewrite Nat2Z.inj_succ, Z.pow_succ_r by lia. lia.
    + right. replace (S k - 1)%nat with k by lia.
      destruct Hlow as [-> | Hlow]; [change (10 ^ Z.of_nat 1)%Z with 10%Z; lia|].
      replace (Z.of_nat k) with (Z.succ (Z.of_nat (k - 1))) by lia.
      rewrite Z.pow_succ_r by lia. lia.
Qed.

Lemma zfill_fixed (w : nat) (z : Z) :
  (1 ≤ w)%nat → (0 ≤ z < 10 ^ Z.of_nat w)%Z → Str.zfill w z = fixed w z.
Proof.
  intros Hw Hz. unfold Str.zfill, Str.of_Z.
  assert (z < 10 ^ Z.of_nat (Z.to_nat z + 1))%Z as Hfuel.
  { replace (Z.of_nat (Z.to_nat z + 1)) with (Z.succ z) by lia.
    rewrite Z.pow_succ_r by lia.
    pose proof (Z.pow_gt_lin_r 10 z ltac:(lia) ltac:(lia)). lia. }
  destruct (digits_fixed (Z.to_nat z + 1) (Z.to_nat z + 1) z EmptyString
              ltac:(lia) ltac:(lia))
    as (k & Hk & -> & Hup & Hlow).
  rewrite append_Empty_r, fixed_length.
  assert (k ≤ w)%nat as Hkw.
  { destruct Hlow as [-> | Hlow].
    - lia.
    - destruct (decide (k ≤ w)%nat) as [|Hgt]; [done|]. exfalso.
      assert (10 ^ Z.of_nat w ≤ 10 ^ Z.of_nat (k - 1))%Z
        by (apply Z.pow_le_mono_r; lia).
      lia. }
  rewrite <- (fixed_pad k (w - k) z) by lia. f_equal. lia.
Qed.

Lemma compare_refl_str (s : string) : String.compare s s = Eq.
Proof.
  pose proof (String.compare_antisym s s) as H. by destruct (String.compare s s).
Qed.

Lemma compare_append (a1 a2 b1 b2 : string) :
  String.length a1 = String.length a2 →
  String.compare (a1 +:+ b1) (a2 +:+ b2)
  = lex (String.compare a1 a2) (String.compare b1 b2).
Proof.
  revert a2. induction a1 as [|c1 a1 IH]; intros [|c2 a2] Hlen; try done.
  rewrite !append_String. simpl. destruct (Ascii.compare c1 c2); [|done..].
  apply IH. simpl in Hlen. lia.
Qed.

Lemma compare_digit (x y : Z) :
  (0 ≤ x ≤ 9)%Z → (0 ≤ y ≤ 9)%Z →
  String.compare (String (Str.chr (48 + x)) EmptyString)
    (String (Str.chr (48 + y)) EmptyString)
  = (x ?= y)%Z.
Proof.
  intros Hx Hy. simpl. unfold Ascii.compare, Str.chr.
  rewrite !N_ascii_embedding by lia.
  destruct (N.compare_spec (Z.to_N (48 + x)) (Z.to_N (48 + y)));
    destruct (Z.compare_spec x y); try done; lia.
Qed.

Lemma compare_fixed (w : nat) (a b : Z) :
  (0 ≤ a < 10 ^ Z.of_nat w)%Z → (0 ≤ b < 10 ^ Z.of_nat w)%Z →
  String.compare (fixed w a) (fixed w b) = (a ?= b)%Z.
Proof.
  revert a b. induction w as [|w IH]; intros a b Ha Hb.
  - change (10 ^ Z.of_nat 0)%Z with 1%Z in Ha, Hb.
    assert (a = 0%Z) as -> by lia. by assert (b = 0%Z) as -> by lia.
  - rewrite Nat2Z.inj_succ, Z.pow_succ_r in Ha, Hb by lia.
    cbn [fixed]. rewrite compare_append by by rewrite !fixed_length.
    pose proof (Z.mod_pos_bound a 10 ltac:(lia)).
    pose proof (Z.mod_pos_bound b 10 ltac:(lia)).
    pose proof (Z.div_mod a 10 ltac:(lia)).
    pose proof (Z.div_mod b 10 ltac:(lia)).
    rewrite IH, compare_digit by
      (lia || (split; [apply Z.div_pos; lia | apply Z.div_lt_upper_bound; lia])).
    unfold lex.
    destruct (Z.compare_spec (a / 10) (b / 10));
      destruct (Z.compare_spec (a mod 10) (b mod 10));
      destruct (Z.compare_spec a b); try done; lia.
Qed.

Lemma compare_zfill (w : nat) (a b : Z) :
  (1 ≤ w)%nat →
  (0 ≤ a < 10 ^ Z.of_nat w)%Z → (0 ≤ b < 10 ^ Z.of_nat w)%Z →
  String.length (Str.zfill w a) = String.length (Str.zfill w b)
  ∧ String.compare (Str.zfill w a) (Str.zfill w b) = (a ?= b)%Z.
Proof.
  intros Hw Ha Hb. rewrite !zfill_fixed, !fixed_length by done.
  split; [done | by apply compare_fixed].
Qed.

Lemma compare_zfill2 (a b : Z) :
  (0 ≤ a < 100)%Z → (0 ≤ b < 100)%Z →
  String.length (Str.zfill 2 a) = String.length (Str.zfill 2 b)
  ∧ String.compare (Str.zfill 2 a) (Str.zfill 2 b) = (a ?= b)%Z.
Proof. apply (compare_zfill 2); lia. Qed.

Lemma compare_zfill4 (a b : Z) :
  (0 ≤ a < 10000)%Z → (0 ≤ b < 10000)%Z →
  String.length (Str.zfill 4 a) = String.length (Str.zfill 4 b)
  ∧ String.compare (Str.zfill 4 a) (Str.zfill 4 b) = (a ?= b)%Z.
Proof. apply (compare_zfill 4); lia. Qed.

Lemma compare_zfill6 (a b : Z) :
  (0 ≤ a < 1000000)%Z → (0 ≤ b < 1000000)%Z →
  String.length (Str.zfill 6 a) = String.length (Str.zfill 6 b)
  ∧ String.compare (Str.zfill 6 a) (Str.zfill 6 b) = (a ?= b)%Z.
Proof. apply (compare_zfill 6); lia. Qed.

Lemma make_valid (y mo d h mi s : Z) (dt : datetime.t) :
  datetime.make y mo d h mi s = Ok dt →
  datetime_valid dt ∧ dt = datetime.mk y mo d h mi s 0.
Proof.
  unfold datetime.make.
  repeat (match goal with
          | |- context [negb ?b] => destruct b eqn:?; simpl; [|done]
          end).
  intros [= <-]. split; [|done]. unfold datetime_valid. simpl.
  assert (datetime.days_in_month y mo ≤ 31)%Z.
  { unfold datetime.days_in_month.
    repeat (match goal with |- context [if ?b then _ else _] => destruct b end); lia. }
  lia.
Qed.

Lemma isoformat_compare (dt1 dt2 : datetime.t) :
  datetime_valid dt1 → datetime_valid dt2 →
  String.compare (datetime.isoformat dt1) (datetime.isoformat dt2)
  = datetime_compare dt1 dt2.
Proof.
  intros (Hy1 & Hmo1 & Hd1 & Hh1 & Hmi1 & Hs1 & Hu1)
         (Hy2 & Hmo2 & Hd2 & Hh2 & Hmi2 & Hs2 & Hu2).
  unfold datetime.isoformat, datetime_compare.
  repeat (rewrite compare_append by
            first [ reflexivity
                  | apply compare_zfill4; lia
                  | apply compare_zfill2; lia ]).
  rewrite (proj2 (compare_zfill4 (datetime.year dt1) (datetime.year dt2)
                    ltac:(lia) ltac:(lia))).
  rewrite (proj2 (compare_zfill2 (datetime.month dt1) (datetime.month dt2)
                    ltac:(lia) ltac:(lia))).
  rewrite (proj2 (compare_zfill2 (datetime.day dt1) (datetime.day dt2)
                    ltac:(lia) ltac:(lia))).
  rewrite (proj2 (compare_zfill2 (datetime.hour dt1) (datetime.hour dt2)
                    ltac:(lia) ltac:(lia))).
  rewrite (proj2 (compare_zfill2 (datetime.minute dt1) (datetime.minute dt2)
                    ltac:(lia) ltac:(lia))).
  rewrite (proj2 (compare_zfill2 (datetime.second dt1) (datetime.second dt2)
                    ltac:(lia) ltac:(lia))).
  rewrite !compare_refl_str. cbn [lex].
  do 6 f_equal.
  destruct (Z.eqb_spec (datetime.microsecond dt1) 0) as [->|Hne1];
    destruct (Z.eqb_spec (datetime.microsecond dt2) 0) as [->|Hne2].
  - done.
  - rewrite append_Empty, append_assoc_str, !append_String. simpl.
    destruct (datetime.microsecond dt2); [done | done | lia].
  - rewrite append_Empty, append_assoc_str, !append_String. simpl.
    destruct (datetime.microsecond dt1); [done | done | lia].
  - rewrite !append_assoc_str.
    rewrite (compare_append (String "." EmptyString)) by reflexivity.
    rewrite compare_append by (apply compare_zfill6; lia).
    rewrite (proj2 (compare_zfill6 (datetime.microsecond dt1)
                      (datetime.microsecond dt2) ltac:(lia) ltac:(lia))).
    rewrite !compare_refl_str. cbn [lex].
    by destruct (_ ?= _)%Z.
Qed.

(** X15. The string order that the store sorts by is the order of time:
    for two UTC times whose fields are in the ranges of [datetime], comparing
    their ISO forms as strings gives the same answer as comparing the times,
    with or without microseconds, and different times have different ISO
    forms.  The dates that [datetime] accepts from a feed are in these
    ranges. *)
Theorem published_order_is_time_order (dt1 dt2 : datetime.t) :
  datetime_valid dt1 → datetime_valid dt2 →
  String.compare (datetime.isoformat dt1) (datetime.isoformat dt2)
  = datetime_compare dt1 dt2
  ∧ (str_le (datetime.isoformat dt1) (datetime.isoformat dt2)
     ↔ datetime_compare dt1 dt2 ≠ Gt)
  ∧ (datetime.isoformat dt1 = datetime.isoformat dt2 → dt1 = dt2)
  ∧ (∀ y mo d h mi s dt, datetime.make y mo d h mi s = Ok dt → datetime_valid dt).
Proof.
  intros Hv1 Hv2. pose proof (isoformat_compare dt1 dt2 Hv1 Hv2) as Hcmp.
  split_and!.
  - done.
  - unfold str_le, String.leb. rewrite Hcmp. by destruct (datetime_compare dt1 dt2).
  - intros Heq. rewrite Heq, compare_refl_str in Hcmp. symmetry in Hcmp.
    unfold datetime_compare, lex in Hcmp.
    destruct dt1 as [y1 mo1 d1 h1 mi1 s1 u1], dt2 as [y2 mo2 d2 h2 mi2 s2 u2].
    simpl in Hcmp.
    destruct (Z.compare_spec y1 y2); try done.
    destruct (Z.compare_spec mo1 mo2); try done.
    destruct (Z.compare_spec d1 d2); try done.
    destruct (Z.compare_spec h1 h2); try done.
    destruct (Z.compare_spec mi1 mi2); try done.
    destruct (Z.compare_spec s1 s2); try done.
    destruct (Z.compare_spec u1 u2); try done.
    by subst.
  - intros y mo d h mi s dt Hmake. by apply make_valid in Hmake as [? _].
Qed.

Lemma published_order_is_time_order_witness :
  let noon := datetime.mk 2024 2 29 12 0 0 0%Z in
  let later := datetime.mk 2024 2 29 12 0 0 1%Z in
  String.compare (datetime.isoformat noon) (datetime.isoformat later) = Lt
  ∧ str_le (datetime.isoformat noon) (datetime.isoformat later).
Proof.
  cbv zeta.
  destruct (published_order_is_time_order (datetime.mk 2024 2 29 12 0 0 0%Z)
              (datetime.mk 2024 2 29 12 0 0 1%Z))
    as (Hcmp & Hle & _).
  - unfold datetime_valid. simpl. lia.
  - unfold datetime_valid. simpl. lia.
  - split; [exact Hcmp|]. apply Hle. discriminate.
Defined.

Lemma classify_covers_witness :
  let result := (Classifier.classify sample_topics sample_heap [0; 1; 2]%nat).2 in
  ∃ k b, result !! k = Some b ∧ 2%nat ∈ b.
Proof.
  cbv zeta.
  apply (proj1 (classify_covers sample_topics sample_heap [0; 1; 2]%nat) 2%nat).
  do 2 apply list_elem_of_further. apply list_elem_of_here.
Defined.

Lemma classify_only_appends_witness :
  (Classifier.classify sample_topics sample_heap [0; 1]%nat).1 2%nat = sample_heap 2%nat.
Proof.
  apply (proj2 (proj2 (proj2 (proj2 (proj2 (proj2 (proj2
           (classify_only_appends sample_topics sample_heap [0; 1]%nat 2%nat)))))))).
  intros Hin. apply elem_of_cons in Hin as [Hin|Hin]; [discriminate|].
  apply elem_of_cons in Hin as [Hin|Hin]; [discriminate|].
  by apply elem_of_nil in Hin.
Defined.

(** ** The report *)

Lemma substring_of_refl (s : string) : substring_of s s.
Proof. exists EmptyString, EmptyString. by rewrite append_Empty, append_Empty_r. Qed.

Lemma substring_of_app_l (x s t : string) : substring_of x s → substring_of x (s +:+ t).
Proof.
  intros (pre & post & ->). exists pre, (post +:+ t).
  by rewrite !append_assoc_str.
Qed.

Lemma substring_of_app_r (x s t : string) : substring_of x t → substring_of x (s +:+ t).
Proof.
  intros (pre & post & ->). exists (s +:+ pre), post. by rewrite !append_assoc_str.
Qed.









(** ** The main program *)

Lemma fetch_nil (netloc : string → string) (parse : string → result (list Entry))
    (clock : nat → datetime.t) (url : string) (source_name : option string) :
  (RSSFetcher.fetch netloc parse clock url source_name).1 = []
  ↔ match parse url with
    | Raise _ => True
    | Ok entries => Forall (fun entry => ¬ date_ok entry) (take 20 entries)
    end.
Proof.
  destruct (parse url) as [entries|e] eqn:Hparse.
  - destruct (fetch_spec netloc parse clock url source_name entries Hparse)
      as (articles & warnings & -> & Hbuilt & _). simpl.
    apply Forall2_length in Hbuilt. split.
    + intros ->. apply Forall_forall. intros entry Hin Hok.
      assert (entry ∈ filter date_ok (take 20 entries)) as Hf
        by by apply list_elem_of_filter.
      destruct (filter date_ok (take 20 entries)); [by apply elem_of_nil in Hf | done].
    + intros Hall. destruct articles as [|a articles]; [done|].
      destruct (filter date_ok (take 20 entries)) as [|entry l] eqn:Hf; [done|].
      assert (entry ∈ filter date_ok (take 20 entries)) as Hin
        by (rewrite Hf; apply list_elem_of_here).
      apply list_elem_of_filter in Hin as [Hok Hin].
      rewrite Forall_forall in Hall. by destruct (Hall entry Hin).
  - unfold RSSFetcher.fetch. rewrite Hparse. done.
Qed.

Lemma fetch_all_ok (env : Main.Env) (feeds : list FeedConf) (i : nat)
    (acc : list Article.t) :
  (∃ all_articles, Main.fetch_all env feeds i acc = Ok all_articles)
  ↔ Forall (fun feed => is_Some (feed_url feed)) feeds.
Proof.
  revert i acc. induction feeds as [|feed rest IH]; intros i acc.
  - split; [done | by exists acc].
  - cbn [Main.fetch_all]. rewrite Forall_cons.
    destruct (feed_url feed) as [url|]; simpl.
    + rewrite IH. split; [by split | by intros [_ ?]].
    + split; [by intros [? [=]] | by intros [[? [=]] _]].
Qed.

Lemma fetch_all_nil (env : Main.Env) (feeds : list FeedConf) (i : nat)
    (acc all_articles : list Article.t) :
  Main.fetch_all env feeds i acc = Ok all_articles →
  all_articles = [] ↔ acc = [] ∧ Forall (barren (Main.parse env)) feeds.
Proof.
  revert i acc. induction feeds as [|feed rest IH]; intros i acc.
  - intros [= ->]. split; [by split | by intros [? _]].
  - cbn [Main.fetch_all]. destruct (feed_url feed) as [url|] eqn:Hurl; simpl; [|done].
    intros Hrest%IH. rewrite Hrest, Forall_cons. clear IH Hrest.
    assert (barren (Main.parse env) feed
            ↔ (RSSFetcher.fetch (Main.netloc env) (Main.parse env)
                 (Main.fetch_clock env i) url (feed_name feed)).1 = []) as ->.
    { rewrite fetch_nil. unfold barren. rewrite Hurl. split.
      - intros H. by apply H.
      - by intros H ? [= <-]. }
    split.
    + intros [[-> ->]%app_eq_nil Hall]. done.
    + intros (-> & -> & Hall). done.
Qed.

Lemma fetch_all_elem (env : Main.Env) (feeds : list FeedConf) (i : nat)
    (acc all_articles : list Article.t) (a : Article.t) :
  Main.fetch_all env feeds i acc = Ok all_articles → a ∈ all_articles →
  a ∈ acc
  ∨ ∃ feed url j,
      feed ∈ feeds ∧ feed_url feed = Some url
      ∧ a ∈ (RSSFetcher.fetch (Main.netloc env) (Main.parse env) (Main.fetch_clock env j)
               url (feed_name feed)).1.
Proof.
  revert i acc. induction feeds as [|feed rest IH]; intros i acc.
  - intros [= ->]. by left.
  - cbn [Main.fetch_all]. destruct (feed_url feed) as [url|] eqn:Hurl; simpl; [|done].
    intros Hrest Hin. destruct (IH _ _ Hrest Hin) as [Hacc|(feed' & url' & j & ? & ? & ?)].
    + apply elem_of_app in Hacc as [?|?]; [by left|].
      right. exists feed, url, i. split_and!; [apply list_elem_of_here | done | done].
    + right. exists feed', url', j. split_and!; [by apply list_elem_of_further | done | done].
Qed.

Lemma save_articles_other (self : Storage.t) (clock : nat → datetime.t)
    (fs : gmap string File) (articles : list Article.t) (topic path : string) :
  Storage.file_path self topic ≠ path →
  (Storage.save_articles self clock fs articles topic).1.1 !! path = fs !! path.
Proof.
  intros Hne. destruct (save_articles_unfold self clock fs articles topic) as [log ->].
  simpl. by rewrite lookup_insert_ne.
Qed.

Lemma save_articles_written (self : Storage.t) (clock : nat → datetime.t)
    (fs : gmap string File) (articles : list Article.t) (topic : string) :
  (Storage.save_articles self clock fs articles topic).1.1 !! Storage.file_path self topic
  = Some (Json (Article.to_dict
                  <$> merged (Storage.load_articles self clock fs topic).1 articles)).
Proof.
  destruct (save_articles_unfold self clock fs articles topic) as [log ->].
  simpl. by rewrite lookup_insert_eq.
Qed.

Lemma save_buckets_other (env : Main.Env) (storage : Storage.t) (h : heap)
    (classified : list (string * list ref)) (j : nat) (fs : gmap string File)
    (path : string) :
  (∀ k b, (k, b) ∈ classified → k ≠ "uncategorized" →
          Storage.file_path storage k ≠ path) →
  Main.save_buckets env storage h classified j fs !! path = fs !! path.
Proof.
  revert j fs. induction classified as [|[k b] rest IH]; intros j fs Hkeys; [done|].
  cbn [Main.save_buckets].
  assert (Hrest : ∀ k' b', (k', b') ∈ rest → k' ≠ "uncategorized" →
                           Storage.file_path storage k' ≠ path).
  { intros k' b' Hin. apply (Hkeys k' b'). by apply list_elem_of_further. }
  case_decide as Hk.
  - rewrite IH by done. apply save_articles_other, (Hkeys k b); [|done].
    apply list_elem_of_here.
  - by apply IH.
Qed.

Lemma first_occurrences_elem (seen keys : list string) (k : string) :
  k ∈ Main.first_occurrences seen keys → k ∈ keys.
Proof.
  revert seen. induction keys as [|k' keys IH]; intros seen; [done|].
  cbn [Main.first_occurrences]. case_decide.
  - intros ?%IH. by apply list_elem_of_further.
  - intros [->|?%IH]%elem_of_cons; [apply list_elem_of_here|].
    by apply list_elem_of_further.
Qed.

Lemma items_elem (topics : list Topic.t) (result : gmap string (list ref))
    (k : string) (b : list ref) :
  (k, b) ∈ Main.items topics result →
  result !! k = Some b ∧ (k = "uncategorized" ∨ k ∈ Topic.name <$> topics).
Proof.
  unfold Main.items. intros (k' & Hin & Hk)%list_elem_of_omap.
  destruct (result !! k') as [b'|] eqn:Hres; [|done]. injection Hk as <- <-.
  split; [done|]. apply first_occurrences_elem, elem_of_app in Hin as [?|Hin]; [by right|].
  left. by apply list_elem_of_singleton in Hin.
Qed.

Lemma process_other (env : Main.Env) (args : Main.Args) (topics : list Topic.t)
    (all_articles : list Article.t) (fs : gmap string File) (topic : string) :
  topic = "uncategorized" ∨ (topic ≠ "all" ∧ topic ∉ Topic.name <$> topics) →
  (Main.process env args topics all_articles fs).1 !! Storage.file_path (Storage.mk "data") topic
  = fs !! Storage.file_path (Storage.mk "data") topic.
Proof.
  intros Htopic. unfold Main.process. cbn [fst]. rewrite save_buckets_other.
  - apply save_articles_other. intros Heq%file_path_inj. subst topic.
    destruct Htopic as [[=]|[? _]]; done.
  - intros k b (_ & Hk)%items_elem Hunc Heq%file_path_inj. subst topic.
    destruct Htopic as [?|[_ Hnot]]; [done|]. destruct Hk; done.
Qed.

Lemma save_buckets_keeps (env : Main.Env) (storage : Storage.t) (h : heap)
    (classified : list (string * list ref)) (j : nat) (fs : gmap string File)
    (path : string) :
  is_Some (fs !! path) →
  is_Some (Main.save_buckets env storage h classified j fs !! path).
Proof.
  revert j fs. induction classified as [|[k b] rest IH]; intros j fs Hsome; [done|].
  cbn [Main.save_buckets]. case_decide; [|by apply IH]. apply IH.
  destruct (decide (Storage.file_path storage k = path)) as [<-|Hne].
  - by rewrite save_articles_written.
  - by rewrite save_articles_other.
Qed.

Lemma main_unfold (env : Main.Env) (args : Main.Args) (fs : gmap string File)
    (out : Z * gmap string File * option ReportGenerator.Report) :
  Main.main env args fs = Ok out
  ↔ ∃ topics feeds all_articles,
      Main.make_topics args (config_of env args) = Ok topics
      ∧ config_feeds (config_of env args) = Some feeds
      ∧ Main.fetch_all env feeds 0 [] = Ok all_articles
      ∧ out = match all_articles with
              | [] => (1%Z, fs, None)
              | _ :: _ =>
                  (0%Z, (Main.process env args topics all_articles fs).1,
                   Some (Main.process env args topics all_articles fs).2)
              end.
Proof.
  unfold Main.main. fold (config_of env args).
  destruct (Main.make_topics args (config_of env args)) as [topics|e1];
    cbn [mbind result_bind].
  2:{ split; [done | by intros (? & ? & ? & [=] & _)]. }
  destruct (config_feeds (config_of env args)) as [feeds|]; cbn [mbind result_bind getitem].
  2:{ split; [done | by intros (? & ? & ? & _ & [=] & _)]. }
  destruct (Main.fetch_all env feeds 0 []) as [all_articles|e3] eqn:Hall;
    cbn [mbind result_bind].
  2:{ split; [done | intros (? & ? & ? & [= <-] & [= <-] & Hall' & _); congruence]. }
  split.
  - intros Hout. exists topics, feeds, all_articles. split_and!; try done.
    by destruct all_articles; injection Hout as <-.
  - intros (? & ? & all' & [= <-] & [= <-] & Hall' & ->).
    assert (all' = all_articles) as -> by congruence. by destruct all_articles.
Qed.

(** X17. The exit code of [main] tells whether an article was fetched.  When
    the run ends without an exception, either every feed of the
    configuration gave no article (it could not be parsed, or none of its
    first 20 entries has a date that [datetime] accepts): then the code is 1,
    no file of the data directory is written and there is no report; or some
    feed gave an article: then the code is 0, there is a report, and the
    partition [all] has a file. *)
Theorem main_exit_code (env : Main.Env) (args : Main.Args)
    (fs fs' : gmap string File) (code : Z) (report : option ReportGenerator.Report)
    (feeds : list FeedConf) :
  config_feeds (config_of env args) = Some feeds →
  Main.main env args fs = Ok (code, fs', report) →
  (code = 1%Z ∧ fs' = fs ∧ report = None ∧ Forall (barren (Main.parse env)) feeds)
  ∨ (code = 0%Z ∧ is_Some report ∧ is_Some (fs' !! "data/all_articles.json")
     ∧ ¬ Forall (barren (Main.parse env)) feeds).
Proof.
  intros Hfeeds (topics & feeds' & all_articles & _ & Hfeeds' & Hall & Hout)%main_unfold.
  assert (feeds' = feeds) as -> by congruence.
  pose proof (fetch_all_nil _ _ _ _ _ Hall) as Hnil.
  destruct all_articles as [|a all_articles]; injection Hout as -> -> ->.
  - left. split_and!; try done. by apply Hnil.
  - right. split_and!; try done.
    + unfold Main.process. cbn [fst]. apply save_buckets_keeps.
      change "data/all_articles.json" with (Storage.file_path (Storage.mk "data") "all").
      by rewrite save_articles_written.
    + intros Hbarren. discriminate (proj2 Hnil (conj eq_refl Hbarren)).
Qed.

Lemma main_exit_code_witness :
  Main.main offline_env no_options ∅ = Ok (1%Z, ∅, None)
  ∧ Forall (barren (Main.parse offline_env)) (default [] (config_feeds default_config)).
Proof.
  assert (Hmain : Main.main offline_env no_options ∅ = Ok (1%Z, ∅, None))
    by (vm_compute; reflexivity).
  split; [exact Hmain|].
  destruct (main_exit_code offline_env no_options ∅ ∅ 1 None
              (default [] (config_feeds default_config)) eq_refl Hmain)
    as [(_ & _ & _ & Hbarren)|(Hcode & _)].
  - exact Hbarren.
  - discriminate Hcode.
Defined.

(** X18. [main] saves only the partition [all] and the partitions named by
    its topics, and never the partition [uncategorized].  After a run that
    ends without an exception, the file of the partition [uncategorized]
    holds what it held before, also when a topic has that name and when
    articles matched no topic; and so does the file of every partition whose
    name is neither [all] nor the name of a topic of the run.  (The store
    tells files apart by their names.) *)
Theorem main_written_files (env : Main.Env) (args : Main.Args)
    (fs fs' : gmap string File) (code : Z) (report : option ReportGenerator.Report)
    (topics : list Topic.t) (topic : string) :
  Main.make_topics args (config_of env args) = Ok topics →
  Main.main env args fs = Ok (code, fs', report) →
  topic = "uncategorized" ∨ (topic ≠ "all" ∧ topic ∉ Topic.name <$> topics) →
  fs' !! Storage.file_path (Storage.mk "data") topic
  = fs !! Storage.file_path (Storage.mk "data") topic.
Proof.
  intros Htopics (topics' & feeds & all_articles & Htopics' & _ & _ & Hout)%main_unfold.
  assert (topics' = topics) as -> by congruence. intros Htopic.
  destruct all_articles as [|a all_articles]; [by injection Hout as -> -> ->|].
  replace fs' with (Main.process env args topics (a :: all_articles) fs).1 by congruence.
  by apply process_other.
Qed.

Lemma main_written_files_witness :
  ∃ code fs' report,
    Main.main sample_env no_options ∅ = Ok (code, fs', report)
    ∧ code = 0%Z
    ∧ fs' !! "data/uncategorized_articles.json" = None
    ∧ fs' !! "data/Sports_articles.json" = None.
Proof.
  assert (Hcode : match Main.main sample_env no_options ∅ with
                  | Ok (code, _, _) => Some code
                  | Raise _ => None
                  end = Some 0%Z) by (vm_compute; reflexivity).
  destruct (Main.main sample_env no_options ∅) as [[[code fs'] report]|e] eqn:Hmain;
    [|discriminate Hcode].
  set (topics := match Main.make_topics no_options (config_of sample_env no_options) with
                 | Ok l => l
                 | Raise _ => []
                 end).
  exists code, fs', report. split_and!.
  - reflexivity.
  - by injection Hcode as ->.
  - apply (main_written_files sample_env no_options ∅ fs' code report topics
             "uncategorized" eq_refl Hmain). by left.
  - apply (main_written_files sample_env no_options ∅ fs' code report topics
             "Sports" eq_refl Hmain). right. split; [done|].
    refine (bool_decide_unpack _ _). vm_compute. exact I.
Defined.

Lemma heap_of_seq (all_articles : list Article.t) :
  Main.heap_of all_articles <$> seq 0 (length all_articles) = all_articles.
Proof.
  apply list_eq. intros i. rewrite list_lookup_fmap.
  destruct (decide (i < length all_articles)%nat) as [Hlt|Hge].
  - rewrite lookup_seq_lt by done. simpl. unfold Main.heap_of.
    destruct (lookup_lt_is_Some_2 all_articles i Hlt) as [a Ha]. by rewrite Ha.
  - rewrite lookup_seq_ge by lia. simpl. symmetry. apply lookup_ge_None_2. lia.
Qed.

Lemma heap_of_elem (all_articles : list Article.t) (r : ref) :
  r ∈ seq 0 (length all_articles) → Main.heap_of all_articles r ∈ all_articles.
Proof.
  intros [_ Hlt]%elem_of_seq. unfold Main.heap_of.
  destruct (lookup_lt_is_Some_2 all_articles r ltac:(lia)) as [a Ha].
  rewrite Ha. simpl. by eapply list_elem_of_lookup_2.
Qed.

Lemma extract_topics (now : datetime.t) (source_name : string) (entry : Entry)
    (a : Article.t) :
  RSSFetcher.extract now source_name entry = Ok a → Article.topics a = [].
Proof.
  unfold RSSFetcher.extract.
  destruct (e_published_parsed entry) as [tm|]; simpl.
  - destruct (datetime.make _ _ _ _ _ _); simpl; [|done]. by intros [= <-].
  - by intros [= <-].
Qed.

Lemma fetch_all_topics (env : Main.Env) (feeds : list FeedConf)
    (all_articles : list Article.t) :
  Main.fetch_all env feeds 0 [] = Ok all_articles →
  Forall (fun a => Article.topics a = []) all_articles.
Proof.
  intros Hall. apply Forall_forall. intros a Hin.
  destruct (fetch_all_elem _ _ _ _ _ a Hall Hin)
    as [Hnil|(feed & url & j & _ & _ & Hfetch)]; [by apply elem_of_nil in Hnil|].
  apply fetch_origin in Hfetch as (entries & entry & now & _ & _ & Hex).
  by eapply extract_topics.
Qed.

Lemma search_text_labelled (topics : list Topic.t) (a : Article.t) :
  search_text (labelled topics a) = search_text a.
Proof. reflexivity. Qed.

Lemma classified_heap (topics : list Topic.t) (all_articles : list Article.t) (r : ref) :
  Forall (fun a => Article.topics a = []) all_articles →
  r ∈ seq 0 (length all_articles) →
  (Classifier.classify topics (Main.heap_of all_articles)
     (seq 0 (length all_articles))).1 r
  = labelled topics (Main.heap_of all_articles r).
Proof.
  intros Hnone Hr. rewrite classify_heap, labels_once by (done || apply NoDup_seq).
  rewrite Forall_forall in Hnone. rewrite (Hnone _ (heap_of_elem _ _ Hr)). done.
Qed.

Lemma classified_articles (topics : list Topic.t) (all_articles : list Article.t)
    (refs : list ref) :
  Forall (fun a => Article.topics a = []) all_articles →
  refs ⊆ seq 0 (length all_articles) →
  (Classifier.classify topics (Main.heap_of all_articles)
     (seq 0 (length all_articles))).1 <$> refs
  = labelled topics <$> (Main.heap_of all_articles <$> refs).
Proof.
  intros Hnone Hsub. rewrite <- list_fmap_compose. apply list_fmap_ext.
  intros i r Hr. apply classified_heap; [done|].
  apply Hsub. by eapply list_elem_of_lookup_2.
Qed.

(** The file of the partition [all] when the calls outside the [try]
    blocks answer. *)
Lemma main_all_file (env : Main.Env) (args : Main.Args) (fs : gmap string File)
    (topics : list Topic.t) (feeds : list FeedConf) (all_articles : list Article.t) :
  Main.make_topics args (config_of env args) = Ok topics →
  config_feeds (config_of env args) = Some feeds →
  Main.fetch_all env feeds 0 [] = Ok all_articles →
  all_articles ≠ [] →
  "all" ∉ Topic.name <$> topics →
  ∃ fs' report,
    Main.main env args fs = Ok (0%Z, fs', Some report)
    ∧ fs' !! "data/all_articles.json"
      = Some (Json (Article.to_dict
                      <$> merged
                            (Storage.load_articles (Storage.mk "data")
                               (Main.save_clock env 0) fs "all").1
                            (labelled topics <$> all_articles))).
Proof.
  intros Htopics Hfeeds Hall Hsome Hname.
  exists (Main.process env args topics all_articles fs).1,
         (Main.process env args topics all_articles fs).2.
  split.
  - apply main_unfold. exists topics, feeds, all_articles. split_and!; try done.
    by destruct all_articles.
  - unfold Main.process. cbn [fst].
    change "data/all_articles.json" with (Storage.file_path (Storage.mk "data") "all").
    rewrite save_buckets_other.
    + rewrite save_articles_written, classified_articles, heap_of_seq; try done.
      by eapply fetch_all_topics.
    + intros k b (_ & Hk)%items_elem Hunc ->%file_path_inj.
      by destruct Hk.
Qed.

(** *** The run on a file system whose calls can raise *)

Lemma os_call_raise (error : string → option string) (path : string) (e : exn) :
  os_call error path = Raise e → ∃ msg, e = OSError msg.
Proof. unfold os_call. destruct (error path) as [msg|]; [|done]. intros [= <-]. eauto. Qed.

Lemma ondisk_save_articles_ok (os : OS) (self : Storage.t) (clock : nat → datetime.t)
    (fs : gmap string File) (articles : list Article.t) (topic : string)
    (out : gmap string File * nat * list LogRecord) :
  OnDisk.save_articles os self clock fs articles topic = Ok out →
  out = Storage.save_articles self clock fs articles topic.
Proof.
  unfold OnDisk.save_articles, os_call.
  destruct (exists_error os _); cbn [mbind result_bind]; [done|].
  destruct (write_error os _); cbn [mbind result_bind]; [done|]. by intros [= <-].
Qed.

Lemma ondisk_save_articles_raise (os : OS) (self : Storage.t) (clock : nat → datetime.t)
    (fs : gmap string File) (articles : list Article.t) (topic : string) (e : exn) :
  OnDisk.save_articles os self clock fs articles topic = Raise e → ∃ msg, e = OSError msg.
Proof.
  unfold OnDisk.save_articles, os_call.
  destruct (exists_error os _); cbn [mbind result_bind]; [intros [= <-]; eauto|].
  destruct (write_error os _); cbn [mbind result_bind]; [intros [= <-]; eauto | done].
Qed.

Lemma ondisk_save_buckets_ok (os : OS) (env : Main.Env) (storage : Storage.t) (h : heap)
    (classified : list (string * list ref)) (j : nat) (fs fs' : gmap string File) :
  OnDisk.save_buckets os env storage h classified j fs = Ok fs' →
  fs' = Main.save_buckets env storage h classified j fs.
Proof.
  revert j fs. induction classified as [|[k b] rest IH]; intros j fs.
  - by intros [= <-].
  - cbn [OnDisk.save_buckets Main.save_buckets]. case_decide; [|apply IH].
    destruct (OnDisk.save_articles os storage (Main.save_clock env j) fs (h <$> b) k)
      as [saved|e] eqn:Hsave; cbn [mbind result_bind]; [|done].
    apply ondisk_save_articles_ok in Hsave as ->. apply IH.
Qed.

Lemma ondisk_save_buckets_raise (os : OS) (env : Main.Env) (storage : Storage.t)
    (h : heap) (classified : list (string * list ref)) (j : nat)
    (fs : gmap string File) (e : exn) :
  OnDisk.save_buckets os env storage h classified j fs = Raise e → ∃ msg, e = OSError msg.
Proof.
  revert j fs. induction classified as [|[k b] rest IH]; intros j fs; [done|].
  cbn [OnDisk.save_buckets]. case_decide; [|apply IH].
  destruct (OnDisk.save_articles os storage (Main.save_clock env j) fs (h <$> b) k)
    as [saved|e'] eqn:Hsave; cbn [mbind result_bind]; [apply IH|].
  intros [= <-]. by eapply ondisk_save_articles_raise.
Qed.

Lemma ondisk_process_ok (os : OS) (env : Main.Env) (args : Main.Args)
    (topics : list Topic.t) (all_articles : list Article.t) (fs : gmap string File)
    (out : gmap string File * ReportGenerator.Report) :
  OnDisk.process os env args topics all_articles fs = Ok out →
  out = Main.process env args topics all_articles fs.
Proof.
  unfold OnDisk.process, Main.process. cbv zeta.
  destruct (OnDisk.save_articles os _ _ fs _ "all") as [saved|e] eqn:Hsave;
    cbn [mbind result_bind]; [|done].
  apply ondisk_save_articles_ok in Hsave as ->.
  destruct (OnDisk.save_buckets os env _ _ _ 1 _) as [fs'|e] eqn:Hbuckets;
    cbn [mbind result_bind]; [|done].
  apply ondisk_save_buckets_ok in Hbuckets as ->.
  unfold OnDisk.generate, os_call. cbv zeta.
  destruct (write_error os _); cbn [mbind result_bind]; [done|]. by intros [= <-].
Qed.

Lemma ondisk_process_raise (os : OS) (env : Main.Env) (args : Main.Args)
    (topics : list Topic.t) (all_articles : list Article.t) (fs : gmap string File)
    (e : exn) :
  OnDisk.process os env args topics all_articles fs = Raise e → ∃ msg, e = OSError msg.
Proof.
  unfold OnDisk.process. cbv zeta.
  destruct (OnDisk.save_articles os _ _ fs _ "all") as [saved|e'] eqn:Hsave;
    cbn [mbind result_bind].
  2:{ intros [= <-]. by eapply ondisk_save_articles_raise. }
  destruct (OnDisk.save_buckets os env _ _ _ 1 _) as [fs'|e'] eqn:Hbuckets;
    cbn [mbind result_bind].
  2:{ intros [= <-]. by eapply ondisk_save_buckets_raise. }
  unfold OnDisk.generate, os_call. cbv zeta.
  destruct (write_error os _); cbn [mbind result_bind]; [|done].
  intros [= <-]. eauto.
Qed.

Lemma ondisk_load_config_ok (os : OS) (read_yaml : string → option (result Config))
    (config_file : option string) (loaded : Config * list LogRecord) :
  OnDisk.load_config os read_yaml config_file = Ok loaded →
  loaded = load_config read_yaml config_file.
Proof.
  unfold OnDisk.load_config, os_call. destruct config_file as [[|c path]|].
  - by intros [= <-].
  - destruct (exists_error os _); cbn [mbind result_bind]; [done|]. by intros [= <-].
  - by intros [= <-].
Qed.

Lemma ondisk_load_config_raise (os : OS) (read_yaml : string → option (result Config))
    (config_file : option string) (e : exn) :
  OnDisk.load_config os read_yaml config_file = Raise e → ∃ msg, e = OSError msg.
Proof.
  unfold OnDisk.load_config, os_call. destruct config_file as [[|c path]|]; try done.
  destruct (exists_error os _); cbn [mbind result_bind]; [|done]. intros [= <-]. eauto.
Qed.

(** A run that ends without an exception gives what the run gives when the
    calls outside the [try] blocks answer. *)
Lemma ondisk_main_ok (os : OS) (env : Main.Env) (args : Main.Args)
    (fs : gmap string File)
    (out : Z * gmap string File * option ReportGenerator.Report) :
  OnDisk.main os env args fs = Ok out → Main.main env args fs = Ok out.
Proof.
  unfold OnDisk.main, Main.main.
  destruct (OnDisk.load_config os _ _) as [loaded|e] eqn:Hload;
    cbn [mbind result_bind]; [|done].
  apply ondisk_load_config_ok in Hload as ->.
  destruct (Main.make_topics args _) as [topics|e]; cbn [mbind result_bind]; [|done].
  unfold os_call.
  destruct (mkdir_error os "data"); cbn [mbind result_bind]; [done|].
  destruct (mkdir_error os "reports"); cbn [mbind result_bind]; [done|].
  destruct (config_feeds _) as [feeds|]; cbn [mbind result_bind getitem]; [|done].
  destruct (Main.fetch_all env feeds 0 []) as [[|a all_articles]|e];
    cbn [mbind result_bind]; [done| |done].
  destruct (OnDisk.process os env args topics (a :: all_articles) fs) as [out'|e] eqn:Hp;
    cbn [mbind result_bind]; [|done].
  apply ondisk_process_ok in Hp as ->. done.
Qed.

(** X19. The file of the partition [all] holds the articles with their
    labels.  When a run that fetched articles ends without an exception and
    no topic is called [all], its exit code is 0, it has written a report,
    and the file of [all] holds what [save_articles] makes of the articles it
    held and the fetched articles, each fetched article with the names of
    the topics that match it as its topics: [classify] has written them into
    the objects before [main] saves them. *)
Theorem main_stores_labels (os : OS) (env : Main.Env) (args : Main.Args)
    (fs fs' : gmap string File) (code : Z) (report : option ReportGenerator.Report)
    (topics : list Topic.t) (feeds : list FeedConf) (all_articles : list Article.t) :
  OnDisk.main os env args fs = Ok (code, fs', report) →
  Main.make_topics args (config_of env args) = Ok topics →
  config_feeds (config_of env args) = Some feeds →
  Main.fetch_all env feeds 0 [] = Ok all_articles →
  all_articles ≠ [] →
  "all" ∉ Topic.name <$> topics →
  code = 0%Z
  ∧ is_Some report
  ∧ fs' !! "data/all_articles.json"
    = Some (Json (Article.to_dict
                    <$> merged
                          (Storage.load_articles (Storage.mk "data")
                             (Main.save_clock env 0) fs "all").1
                          (labelled topics <$> all_articles))).
Proof.
  intros Hmain%ondisk_main_ok Htopics Hfeeds Hall Hsome Hname.
  destruct (main_all_file env args fs topics feeds all_articles
              Htopics Hfeeds Hall Hsome Hname) as (fs'' & report' & Hmain' & Hfile).
  rewrite Hmain in Hmain'. injection Hmain' as -> -> ->. by split_and!.
Qed.

Lemma main_stores_labels_witness :
  ∃ fs' report data,
    OnDisk.main name_max_os sample_env no_options ∅ = Ok (0%Z, fs', report)
    ∧ fs' !! "data/all_articles.json" = Some (Json data)
    ∧ d_title <$> data = [Some "Weather report"; Some "New LLM released"]
    ∧ d_topics <$> data = [Some []; Some ["AI"; "Programming"]].
Proof.
  set (topics := match Main.make_topics no_options (config_of sample_env no_options) with
                 | Ok l => l
                 | Raise _ => []
                 end).
  set (all_articles := match Main.fetch_all sample_env
                               (default [] (config_feeds default_config)) 0 [] with
                       | Ok l => l
                       | Raise _ => []
                       end).
  assert (Hall : Main.fetch_all sample_env (default [] (config_feeds default_config)) 0 []
                 = Ok all_articles) by (vm_compute; reflexivity).
  assert (Hsome : all_articles ≠ []) by (vm_compute; discriminate).
  assert (Hname : "all" ∉ Topic.name <$> topics).
  { refine (bool_decide_unpack _ _). vm_compute. exact I. }
  assert (Hcode : match OnDisk.main name_max_os sample_env no_options ∅ with
                  | Ok (code, _, _) => Some code
                  | Raise _ => None
                  end = Some 0%Z) by (vm_compute; reflexivity).
  destruct (OnDisk.main name_max_os sample_env no_options ∅)
    as [[[code fs'] report]|e] eqn:Hmain; [|discriminate Hcode].
  destruct (main_stores_labels name_max_os sample_env no_options ∅ fs' code report topics
              (default [] (config_feeds default_config)) all_articles
              Hmain eq_refl eq_refl Hall Hsome Hname) as (-> & _ & Hfile).
  exists fs', report. eexists. split; [reflexivity|]. split; [exact Hfile|].
  split; vm_compute; reflexivity.
Defined.

Lemma ex_main_ok (env : Main.Env) (args : Main.Args) (fs : gmap string File) :
  (∃ out, Main.main env args fs = Ok out)
  ↔ (∃ topics, Main.make_topics args (config_of env args) = Ok topics)
    ∧ ∃ feeds, config_feeds (config_of env args) = Some feeds
               ∧ Forall (fun feed => is_Some (feed_url feed)) feeds.
Proof.
  split.
  - intros (out & (topics & feeds & all_articles & Ht & Hf & Hall & _)%main_unfold).
    split; [by eauto|]. exists feeds. split; [done|]. apply (fetch_all_ok env feeds 0 []).
    eauto.
  - intros ((topics & Ht) & feeds & Hf & (all_articles & Hall)%(fetch_all_ok env feeds 0 [])).
    eexists. apply main_unfold. by exists topics, feeds, all_articles.
Qed.

Lemma split_comma_cons (s : string) : ∃ piece rest, StrMore.split_comma s = piece :: rest.
Proof.
  induction s as [|c s (piece & rest & IH)]; cbn [StrMore.split_comma]; [by eauto|].
  destruct (Ascii.eqb c ","); [by eauto|]. rewrite IH. eauto.
Qed.

Lemma split_comma_trailing (s : string) :
  StrMore.split_comma (s +:+ ",") = StrMore.split_comma s ++ [EmptyString].
Proof.
  induction s as [|c s IH]; [done|].
  rewrite append_String. cbn [StrMore.split_comma]. rewrite IH.
  destruct (Ascii.eqb c ","); [done|].
  by destruct (split_comma_cons s) as (piece & rest & ->).
Qed.



Lemma conf_topics_default :
  ∃ topics, Main.conf_topics (default [] (config_topics default_config)) = Ok topics.
Proof. eexists. reflexivity. Qed.


(** X22. Without a usable configuration file the run uses the built-in
    configuration, which has every key.  When [--config] is not given or is
    empty, or no file is at its path, or reading the file raises, the
    configuration is the default one and a warning is logged only in the last
    case; the topics can be made from it, it has feeds and each feed has a
    url; so no [KeyError] ends the run, whatever the calls outside the [try]
    blocks do. *)
Theorem default_config_fallback (env : Main.Env) (args : Main.Args)
    (fs : gmap string File) :
  match Main.args_config args with
  | None | Some EmptyString => True
  | Some path =>
      match Main.read_yaml env path with
      | Some (Ok _) => False
      | _ => True
      end
  end →
  let loaded := load_config (Main.read_yaml env) (Main.args_config args) in
  loaded.1 = default_config
  ∧ Forall is_warning loaded.2
  ∧ (loaded.2 = [] ↔ ∀ path e, Main.args_config args = Some path →
                                 Main.read_yaml env path ≠ Some (Raise e)
                                 ∨ path = EmptyString)
  ∧ (∃ topics, Main.make_topics args loaded.1 = Ok topics)
  ∧ (∃ feeds, config_feeds loaded.1 = Some feeds
              ∧ Forall (fun feed => is_Some (feed_url feed)) feeds)
  ∧ ∀ os key, OnDisk.main os env args fs ≠ Raise (KeyError key).
Proof.
  intros Hfile loaded.
  assert (Hdefault : loaded.1 = default_config).
  { subst loaded. unfold load_config.
    destruct (Main.args_config args) as [[|c path]|]; try done.
    by destruct (Main.read_yaml env (String c path)) as [[config|e]|]. }
  assert (Htopics : ∃ topics, Main.make_topics args loaded.1 = Ok topics).
  { rewrite Hdefault. unfold Main.make_topics.
    destruct (Main.args_topics args) as [[|c s]|]; eauto using conf_topics_default. }
  assert (Hfeeds : ∃ feeds, config_feeds loaded.1 = Some feeds
                            ∧ Forall (fun feed => is_Some (feed_url feed)) feeds).
  { rewrite Hdefault. eexists. split; [reflexivity|]. by repeat constructor. }
  split_and!; try done.
  - subst loaded. unfold load_config.
    destruct (Main.args_config args) as [[|c path]|]; try by constructor.
    destruct (Main.read_yaml env (String c path)) as [[config|e]|];
      by repeat constructor.
  - subst loaded. unfold load_config.
    destruct (Main.args_config args) as [[|c path]|].
    + split; [|done]. intros _ path e [= <-]. by right.
    + destruct (Main.read_yaml env (String c path)) as [[config|e]|] eqn:Hread.
      * done.
      * split; [done|]. intros Hno. by destruct (Hno (String c path) e eq_refl).
      * split; [|done]. intros _ path' e [= <-]. left. congruence.
    + split; [|done]. by intros _ path e [=].
  - intros os key. unfold OnDisk.main.
    destruct (OnDisk.load_config os _ _) as [loaded'|e] eqn:Hload;
      cbn [mbind result_bind].
    2:{ apply ondisk_load_config_raise in Hload as [msg ->]. done. }
    apply ondisk_load_config_ok in Hload as ->. fold loaded.
    destruct Htopics as [topics ->]. cbn [mbind result_bind].
    destruct (os_call (mkdir_error os) "data") as [[]|e] eqn:Hdata;
      cbn [mbind result_bind].
    2:{ apply os_call_raise in Hdata as [msg ->]. done. }
    destruct (os_call (mkdir_error os) "reports") as [[]|e] eqn:Hreports;
      cbn [mbind result_bind].
    2:{ apply os_call_raise in Hreports as [msg ->]. done. }
    destruct Hfeeds as (feeds & -> & Hurls). cbn [mbind result_bind getitem].
    apply (fetch_all_ok env feeds 0 []) in Hurls as [all_articles ->].
    cbn [mbind result_bind]. destruct all_articles as [|a all_articles]; [done|].
    destruct (OnDisk.process os env args topics (a :: all_articles) fs) as [out|e] eqn:Hp;
      cbn [mbind result_bind]; [done|].
    apply ondisk_process_raise in Hp as [msg ->]. done.
Qed.

Lemma default_config_fallback_witness :
  config_of offline_env no_options = default_config
  ∧ (∃ topics, Main.make_topics no_options (config_of offline_env no_options) = Ok topics)
  ∧ OnDisk.main name_max_os offline_env no_options ∅ = Ok (1%Z, ∅, None).
Proof.
  destruct (default_config_fallback offline_env no_options ∅ I)
    as (Hconf & _ & _ & Htopics & _ & _).
  split; [exact Hconf|]. split; [exact Htopics|]. vm_compute. reflexivity.
Defined.

Lemma filter_fmap_comm {A B : Type} (f : A → B) (P : B → Prop) (Q : A → Prop)
    `{!∀ y, Decision (P y)} `{!∀ x, Decision (Q x)} (l : list A) :
  (∀ x, Q x ↔ P (f x)) → filter P (f <$> l) = f <$> filter Q l.
Proof.
  intros HPQ. induction l as [|x l IH]; [done|].
  rewrite fmap_cons, !filter_cons, IH.
  destruct (decide (P (f x))), (decide (Q x)); try done; by destruct (HPQ x); tauto.
Qed.

Lemma load_articles_ext (self : Storage.t) (clock : nat → datetime.t)
    (fs1 fs2 : gmap string File) (topic : string) :
  fs1 !! Storage.file_path self topic = fs2 !! Storage.file_path self topic →
  Storage.load_articles self clock fs1 topic = Storage.load_articles self clock fs2 topic.
Proof. unfold Storage.load_articles. by intros ->. Qed.

Lemma save_buckets_at (env : Main.Env) (storage : Storage.t) (h : heap)
    (classified : list (string * list ref)) (j : nat) (fs : gmap string File)
    (k : string) (b : list ref) :
  NoDup classified.*1 → (k, b) ∈ classified → k ≠ "uncategorized" →
  ∃ j',
    Main.save_buckets env storage h classified j fs !! Storage.file_path storage k
    = Some (Json (Article.to_dict
                    <$> merged (Storage.load_articles storage (Main.save_clock env j') fs k).1
                          (h <$> b))).
Proof.
  intros Hnodup Hin Hk. revert j fs.
  induction classified as [|[k0 b0] rest IH]; intros j fs; [by apply elem_of_nil in Hin|].
  rewrite fmap_cons in Hnodup. apply NoDup_cons in Hnodup as [Hfresh Hnodup].
  cbn [fst] in Hfresh. cbn [Main.save_buckets].
  apply elem_of_cons in Hin as [[= <- <-]|Hin].
  - rewrite decide_True by done. exists j. rewrite save_buckets_other.
    + apply save_articles_written.
    + intros k' b' Hin' _ ->%file_path_inj. apply Hfresh.
      apply list_elem_of_fmap. by exists (k, b').
  - assert (k0 ≠ k) as Hne.
    { intros ->. apply Hfresh. apply list_elem_of_fmap. by exists (k, b). }
    case_decide as Hk0; [|by apply IH].
    destruct (IH Hnodup Hin (S j)
                (Storage.save_articles storage (Main.save_clock env j) fs (h <$> b0) k0).1.1)
      as [j' ->].
    exists j'. rewrite (load_articles_ext storage (Main.save_clock env j') _ fs k); [done|].
    apply save_articles_other. by intros ?%file_path_inj.
Qed.

Lemma first_occurrences_fresh (seen keys : list string) (k : string) :
  k ∈ Main.first_occurrences seen keys → k ∉ seen.
Proof.
  revert seen. induction keys as [|k' keys IH]; intros seen; [by intros ?%elem_of_nil|].
  cbn [Main.first_occurrences]. case_decide as Hseen.
  - apply IH.
  - intros [->|Hin%IH]%elem_of_cons; [done|].
    intros ?. apply Hin. by apply list_elem_of_further.
Qed.

Lemma first_occurrences_NoDup (seen keys : list string) :
  NoDup (Main.first_occurrences seen keys).
Proof.
  revert seen. induction keys as [|k keys IH]; intros seen; [constructor|].
  cbn [Main.first_occurrences]. case_decide; [apply IH|].
  constructor; [|apply IH]. intros Hin%first_occurrences_fresh.
  apply Hin, list_elem_of_here.
Qed.

Lemma first_occurrences_complete (seen keys : list string) (k : string) :
  k ∈ keys → k ∉ seen → k ∈ Main.first_occurrences seen keys.
Proof.
  revert seen. induction keys as [|k' keys IH]; intros seen; [by intros ?%elem_of_nil|].
  cbn [Main.first_occurrences]. intros Hin Hseen.
  destruct (decide (k = k')) as [<-|Hne].
  - rewrite decide_False by done. apply list_elem_of_here.
  - apply elem_of_cons in Hin as [?|Hin]; [done|]. case_decide.
    + by apply IH.
    + apply list_elem_of_further, IH; [done|]. by intros [?|?]%elem_of_cons.
Qed.

Lemma items_NoDup (topics : list Topic.t) (result : gmap string (list ref)) :
  NoDup (Main.items topics result).*1.
Proof.
  unfold Main.items.
  pose proof (first_occurrences_NoDup [] ((Topic.name <$> topics) ++ ["uncategorized"]))
    as Hnodup.
  induction Hnodup as [|k keys Hfresh Hnodup IH]; [constructor|].
  cbn [omap list_omap]. destruct (result !! k) as [b|]; simpl; [|exact IH].
  constructor; [|exact IH].
  intros ([k' b'] & -> & (k'' & Hin & Hk)%list_elem_of_omap)%list_elem_of_fmap.
  destruct (result !! k''); [|done]. injection Hk as <- <-. done.
Qed.

Lemma items_complete (topics : list Topic.t) (result : gmap string (list ref))
    (k : string) (b : list ref) :
  k ∈ Topic.name <$> topics → result !! k = Some b →
  (k, b) ∈ Main.items topics result.
Proof.
  intros Hk Hres. unfold Main.items. apply list_elem_of_omap. exists k. split.
  - apply first_occurrences_complete; [|by intros ?%elem_of_nil].
    apply elem_of_app. by left.
  - by rewrite Hres.
Qed.

(** The file of a topic when the calls outside the [try] blocks answer. *)
Lemma main_topic_file (env : Main.Env) (args : Main.Args)
    (fs : gmap string File) (topics : list Topic.t) (feeds : list FeedConf)
    (all_articles : list Article.t) (topic : Topic.t) :
  Main.make_topics args (config_of env args) = Ok topics →
  config_feeds (config_of env args) = Some feeds →
  Main.fetch_all env feeds 0 [] = Ok all_articles →
  all_articles ≠ [] →
  NoDup (Topic.name <$> topics) →
  "uncategorized" ∉ Topic.name <$> topics →
  "all" ∉ Topic.name <$> topics →
  topic ∈ topics →
  let path := Storage.file_path (Storage.mk "data") (Topic.name topic) in
  let matched :=
    filter (fun a => Topic.matches topic (search_text a) = true)
      (labelled topics <$> all_articles) in
  ∃ fs' report,
    Main.main env args fs = Ok (0%Z, fs', Some report)
    ∧ (matched = [] → fs' !! path = fs !! path)
    ∧ (matched ≠ [] →
       ∃ j, fs' !! path
            = Some (Json (Article.to_dict
                            <$> merged
                                  (Storage.load_articles (Storage.mk "data")
                                     (Main.save_clock env j) fs (Topic.name topic)).1
                                  matched))).
Proof.
  intros Htopics Hfeeds Hall Hsome Hnodup Hunc Hname Htopic path matched.
  exists (Main.process env args topics all_articles fs).1,
         (Main.process env args topics all_articles fs).2.
  split.
  { apply main_unfold. exists topics, feeds, all_articles. split_and!; try done.
    by destruct all_articles. }
  pose proof (fetch_all_topics _ _ _ Hall) as Hnone.
  set (h0 := Main.heap_of all_articles).
  set (refs := seq 0 (length all_articles)).
  set (b := bucket topics h0 refs (Topic.name topic)).
  assert (Hin : Topic.name topic ∈ Topic.name <$> topics) by by apply list_elem_of_fmap_2.
  assert (Hb : (Classifier.classify topics h0 refs).1 <$> b = matched).
  { subst b matched. unfold h0, refs. rewrite bucket_of_topic by done.
    rewrite classified_articles by (done || apply list_subseteq_filter).
    rewrite <- list_fmap_compose. symmetry.
    rewrite <- (heap_of_seq all_articles) at 1. rewrite <- list_fmap_compose.
    by apply filter_fmap_comm. }
  assert (Hne : Storage.file_path (Storage.mk "data") "all" ≠ path).
  { intros Heq%file_path_inj. apply Hname. by rewrite Heq. }
  unfold Main.process. cbn [fst]. fold h0 refs. split.
  - intros Hempty. rewrite save_buckets_other; [by apply save_articles_other|].
    intros k b' (Hk & _)%items_elem _ Heq%file_path_inj.
    apply classify_lookup in Hk as (_ & -> & Hb'). apply Hb'. rewrite Heq. fold b.
    rewrite Hempty in Hb. by apply fmap_nil_inv in Hb.
  - intros Hmatched.
    assert (Hitem : (Topic.name topic, b)
                    ∈ Main.items topics (Classifier.classify topics h0 refs).2).
    { apply items_complete; [done|]. apply classify_lookup. split_and!; auto.
      intros Hnil. apply Hmatched. rewrite <- Hb. fold b in Hnil. by rewrite Hnil. }
    destruct (save_buckets_at env (Storage.mk "data") (Classifier.classify topics h0 refs).1
                _ 1
                (Storage.save_articles (Storage.mk "data") (Main.save_clock env 0) fs
                   ((Classifier.classify topics h0 refs).1 <$> refs) "all").1.1
                _ _ (items_NoDup _ _) Hitem)
      as [j Hj].
    { intros Heq. apply Hunc. by rewrite <- Heq. }
    exists j. fold path in Hj. rewrite Hj, Hb.
    rewrite (load_articles_ext (Storage.mk "data") (Main.save_clock env j) _ fs
               (Topic.name topic)); [done|].
    by apply save_articles_other.
Qed.

(** X23. The file of a topic holds the fetched articles that the topic
    matches.  Let the names of the topics be distinct and none of them be
    [all] or [uncategorized].  After a run that fetched articles and ended
    without an exception, the file of the partition of a topic is as before
    when the topic matches no fetched article (no file is made for an empty
    topic), and otherwise holds what [save_articles] makes of the articles it
    held and the fetched articles that the topic matches, in the order of
    the feeds and with all their labels.  (The store tells files apart by
    their names.) *)
Theorem main_topic_partition (os : OS) (env : Main.Env) (args : Main.Args)
    (fs fs' : gmap string File) (code : Z) (report : option ReportGenerator.Report)
    (topics : list Topic.t) (feeds : list FeedConf)
    (all_articles : list Article.t) (topic : Topic.t) :
  OnDisk.main os env args fs = Ok (code, fs', report) →
  Main.make_topics args (config_of env args) = Ok topics →
  config_feeds (config_of env args) = Some feeds →
  Main.fetch_all env feeds 0 [] = Ok all_articles →
  all_articles ≠ [] →
  NoDup (Topic.name <$> topics) →
  "uncategorized" ∉ Topic.name <$> topics →
  "all" ∉ Topic.name <$> topics →
  topic ∈ topics →
  let path := Storage.file_path (Storage.mk "data") (Topic.name topic) in
  let matched :=
    filter (fun a => Topic.matches topic (search_text a) = true)
      (labelled topics <$> all_articles) in
  (matched = [] → fs' !! path = fs !! path)
  ∧ (matched ≠ [] →
     ∃ j, fs' !! path
          = Some (Json (Article.to_dict
                          <$> merged
                                (Storage.load_articles (Storage.mk "data")
                                   (Main.save_clock env j) fs (Topic.name topic)).1
                                matched))).
Proof.
  intros Hmain%ondisk_main_ok Htopics Hfeeds Hall Hsome Hnodup Hunc Hname Htopic.
  destruct (main_topic_file env args fs topics feeds all_articles topic
              Htopics Hfeeds Hall Hsome Hnodup Hunc Hname Htopic)
    as (fs'' & report' & Hmain' & Hfile).
  rewrite Hmain in Hmain'. injection Hmain' as -> -> ->. exact Hfile.
Qed.

Lemma main_topic_partition_witness :
  ∃ fs' report data,
    OnDisk.main name_max_os sample_env no_options ∅ = Ok (0%Z, fs', report)
    ∧ fs' !! "data/Security_articles.json" = None
    ∧ fs' !! "data/AI_articles.json" = Some (Json data)
    ∧ d_title <$> data = [Some "New LLM released"]
    ∧ d_topics <$> data = [Some ["AI"; "Programming"]].
Proof.
  set (topics := match Main.make_topics no_options (config_of sample_env no_options) with
                 | Ok l => l
                 | Raise _ => []
                 end).
  set (all_articles := match Main.fetch_all sample_env
                               (default [] (config_feeds default_config)) 0 [] with
                       | Ok l => l
                       | Raise _ => []
                       end).
  assert (Hall : Main.fetch_all sample_env (default [] (config_feeds default_config)) 0 []
                 = Ok all_articles) by (vm_compute; reflexivity).
  assert (Hsome : all_articles ≠ []) by (vm_compute; discriminate).
  assert (Hnodup : NoDup (Topic.name <$> topics)).
  { refine (bool_decide_unpack _ _). vm_compute. exact I. }
  assert (Hunc : "uncategorized" ∉ Topic.name <$> topics).
  { refine (bool_decide_unpack _ _). vm_compute. exact I. }
  assert (Hname : "all" ∉ Topic.name <$> topics).
  { refine (bool_decide_unpack _ _). vm_compute. exact I. }
  set (ai := Topic.init "AI"
               ["ai"; "artificial intelligence"; "machine learning"; "gpt"; "llm";
                "neural"; "deep learning"] (Some [])).
  set (security := Topic.init "Security"
                     ["security"; "vulnerability"; "breach"; "hack"; "cyber"; "malware";
                      "ransomware"] (Some [])).
  assert (Hai : ai ∈ topics) by apply list_elem_of_here.
  assert (Hsec : security ∈ topics) by apply list_elem_of_further, list_elem_of_here.
  assert (Hcode : match OnDisk.main name_max_os sample_env no_options ∅ with
                  | Ok (code, _, _) => Some code
                  | Raise _ => None
                  end = Some 0%Z) by (vm_compute; reflexivity).
  destruct (OnDisk.main name_max_os sample_env no_options ∅)
    as [[[code fs'] report]|e] eqn:Hmain; [|discriminate Hcode].
  injection Hcode as ->.
  destruct (main_topic_partition name_max_os sample_env no_options ∅ fs' 0 report topics
              (default [] (config_feeds default_config)) all_articles ai
              Hmain eq_refl eq_refl Hall Hsome Hnodup Hunc Hname Hai)
    as (_ & Hfile).
  destruct (main_topic_partition name_max_os sample_env no_options ∅ fs' 0 report topics
              (default [] (config_feeds default_config)) all_articles security
              Hmain eq_refl eq_refl Hall Hsome Hnodup Hunc Hname Hsec)
    as (Hnofile & _).
  destruct Hfile as [j Hfile]; [vm_compute; discriminate|].
  exists fs', report. eexists. split; [reflexivity|].
  split; [apply Hnofile; vm_compute; reflexivity|].
  split; [exact Hfile|]. split; vm_compute; reflexivity.
Defined.

(** ** The total of the report *)

Lemma sum_list_fmap {A : Type} (f : A → nat) (l : list A) :
  sum_list (f <$> l) = sum_list_with f l.
Proof. induction l as [|x l IH]; [done|]. rewrite fmap_cons. simpl. by rewrite IH. Qed.

Lemma sum_list_with_plus {A : Type} (f g : A → nat) (l : list A) :
  sum_list_with (fun x => f x + g x)%nat l = (sum_list_with f l + sum_list_with g l)%nat.
Proof. induction l as [|x l IH]; [done|]. simpl. rewrite IH. lia. Qed.

Lemma sum_list_with_ext {A : Type} (f g : A → nat) (l : list A) :
  (∀ x, x ∈ l → f x = g x) → sum_list_with f l = sum_list_with g l.
Proof.
  induction l as [|x l IH]; [done|]. intros Hfg. simpl.
  rewrite (Hfg x) by apply list_elem_of_here. rewrite IH; [done|].
  intros y Hy. by apply Hfg, list_elem_of_further.
Qed.

Lemma sum_indicator (keys : list string) (x : string) :
  NoDup keys →
  sum_list_with (fun k => if decide (x = k) then 1 else 0)%nat keys
  = if decide (x ∈ keys) then 1%nat else 0%nat.
Proof.
  induction 1 as [|k keys Hfresh Hnodup IH]; [done|]. simpl. rewrite IH.
  destruct (decide (x = k)) as [->|Hne].
  - rewrite decide_False by done. rewrite decide_True by apply list_elem_of_here. done.
  - destruct (decide (x ∈ keys)) as [Hin|Hnotin].
    + by rewrite decide_True by by apply list_elem_of_further.
    + rewrite decide_False; [done|]. by intros [?|?]%elem_of_cons.
Qed.

Lemma sum_hits (keys : list string) (topics : list Topic.t) (text : string) :
  NoDup keys → (∀ t, t ∈ topics → Topic.name t ∈ keys) →
  sum_list_with (hits topics text) keys = length (matching topics text).
Proof.
  intros Hnodup. induction topics as [|t topics IH]; intros Hnames.
  - unfold hits, matching. simpl. clear. by induction keys.
  - assert (IH' : sum_list_with (hits topics text) keys = length (matching topics text)).
    { apply IH. intros t' Ht'. by apply Hnames, list_elem_of_further. }
    rewrite matching_cons. destruct (Topic.matches t text) eqn:Hmatch.
    + rewrite (sum_list_with_ext _
                 (fun k => (if decide (Topic.name t = k) then 1 else 0)
                           + hits topics text k)%nat).
      2:{ intros k _. rewrite hits_cons, Hmatch. by case_decide. }
      rewrite sum_list_with_plus, sum_indicator, IH' by done.
      rewrite decide_True by apply Hnames, list_elem_of_here. done.
    + rewrite <- IH'. apply sum_list_with_ext. intros k _. by rewrite hits_cons, Hmatch.
Qed.

Lemma sum_contribution (keys : list string) (topics : list Topic.t) (text : string)
    (r : ref) :
  NoDup keys → "uncategorized" ∈ keys → (∀ t, t ∈ topics → Topic.name t ∈ keys) →
  sum_list_with (fun k => length (contribution topics text r k)) keys
  = length (matching topics text) `max` 1.
Proof.
  intros Hnodup Hunc Hnames.
  rewrite (sum_list_with_ext _
             (fun k => hits topics text k
                       + (if decide (matching topics text = []) then
                            if decide ("uncategorized" = k) then 1 else 0
                          else 0))%nat).
  2:{ intros k _. unfold contribution. rewrite length_app, length_replicate.
      f_equal. destruct (decide (matching topics text = [])) as [Hnil|Hsome].
      - destruct (decide ("uncategorized" = k)) as [<-|Hne].
        + by rewrite decide_True.
        + rewrite decide_False; [done|]. by intros [_ ->].
      - rewrite decide_False; [done|]. by intros [? _]. }
  rewrite sum_list_with_plus, sum_hits by done.
  destruct (decide (matching topics text = [])) as [->|Hsome].
  - rewrite sum_indicator, decide_True by done. done.
  - assert (sum_list_with (fun _ : string => 0%nat) keys = 0%nat) as ->.
    { clear. induction keys; [done|]. simpl. done. }
    destruct (matching topics text); [done|]. simpl. lia.
Qed.

Lemma sum_buckets (keys : list string) (topics : list Topic.t) (h : heap)
    (refs : list ref) :
  NoDup keys → "uncategorized" ∈ keys → (∀ t, t ∈ topics → Topic.name t ∈ keys) →
  sum_list_with (fun k => length (bucket topics h refs k)) keys
  = sum_list_with (fun r => length (matching topics (search_text (h r))) `max` 1) refs.
Proof.
  intros Hnodup Hunc Hnames. induction refs as [|r refs IH].
  - simpl. clear. induction keys; [done|]. simpl. done.
  - simpl. rewrite <- IH, <- (sum_contribution keys topics _ r) by done.
    rewrite <- sum_list_with_plus. apply sum_list_with_ext. intros k _.
    by rewrite length_app.
Qed.

Lemma items_total (topics : list Topic.t) (h : heap) (refs : list ref)
    (keys : list string) :
  (∀ k, k ∈ keys → k = "uncategorized" ∨ k ∈ Topic.name <$> topics) →
  sum_list (length <$> (omap (fun k => pair k <$> (Classifier.classify topics h refs).2 !! k)
                          keys).*2)
  = sum_list_with (fun k => length (bucket topics h refs k)) keys.
Proof.
  induction keys as [|k keys IH]; intros Hkeys; [done|].
  assert (IH' := IH (fun k' Hk' => Hkeys k' (list_elem_of_further _ _ _ Hk'))).
  cbn [omap list_omap]. rewrite classify_lookup_eq. simpl sum_list_with at 2.
  case_decide as Hk.
  - csimpl. f_equal. exact IH'.
  - csimpl. rewrite IH'.
    destruct (bucket topics h refs k) eqn:Hb; [done|].
    destruct Hk. split; [apply Hkeys, list_elem_of_here | done].
Qed.

(** X24. The total of the report counts an article once for every topic
    that matches it.  The line [Total Articles] of the report that [main]
    writes gives the sum, over the fetched articles, of the number of topics
    that match the article, an article that no topic matches counting once;
    so the total is at least the number of fetched articles, and greater
    when an article matches two topics. *)
Theorem report_total (env : Main.Env) (args : Main.Args) (topics : list Topic.t)
    (all_articles : list Article.t) (fs : gmap string File) :
  let report := (Main.process env args topics all_articles fs).2 in
  let total :=
    sum_list ((fun a => length (matching topics (search_text a)) `max` 1)
                <$> all_articles) in
  substring_of ("**Total Articles:** " +:+ StrMore.of_nat total +:+ StrMore.nl)
    (ReportGenerator.report_text report)
  ∧ (length all_articles ≤ total)%nat.
Proof.
  intros report total. split.
  - subst report. unfold Main.process, ReportGenerator.generate.
    cbn [snd fst ReportGenerator.report_text].
    do 2 apply substring_of_app_r. apply substring_of_app_l.
    match goal with
    | |- substring_of (_ +:+ StrMore.of_nat ?n +:+ _) (_ +:+ StrMore.of_nat ?m +:+ _) =>
        replace m with n; [apply substring_of_refl|]
    end.
    subst total. rewrite sum_list_fmap.
    rewrite <- (heap_of_seq all_articles) at 1.
    set (h0 := Main.heap_of all_articles). set (refs := seq 0 (length all_articles)).
    rewrite <- sum_list_fmap, <- list_fmap_compose, sum_list_fmap.
    set (keys := Main.first_occurrences [] ((Topic.name <$> topics) ++ ["uncategorized"])).
    assert (Hunc : "uncategorized" ∈ keys).
    { apply first_occurrences_complete; [|by intros ?%elem_of_nil].
      apply elem_of_app. right. apply list_elem_of_here. }
    assert (Hnames : ∀ t, t ∈ topics → Topic.name t ∈ keys).
    { intros t Ht. apply first_occurrences_complete; [|by intros ?%elem_of_nil].
      apply elem_of_app. left. by apply list_elem_of_fmap_2. }
    etrans; [symmetry; apply (sum_buckets keys topics h0 refs
                                (first_occurrences_NoDup _ _) Hunc Hnames)|].
    rewrite <- items_total.
    + unfold Main.items. fold keys. f_equal.
      rewrite <- !list_fmap_compose. apply list_fmap_ext. intros i [k b] _. simpl.
      by rewrite length_fmap.
    + intros k Hk%first_occurrences_elem. apply elem_of_app in Hk as [?|Hk]; [by right|].
      left. by apply list_elem_of_singleton in Hk.
  - subst total. clear. induction all_articles as [|a l IH]; [done|].
    rewrite fmap_cons. simpl. lia.
Qed.
